(** * assamsongplayer: a shallow embedding of the data layer

    The development follows the two React hooks of the repository,
    [src/hooks/useAuth.ts] and [src/hooks/useSupabaseData.ts].  Hook state
    ([useState], [useRef]) is modelled by explicit state passing, every
    remote answer of the store (a [{ data, error }] pair) is an explicit
    argument of the function that awaits it, and the clock and
    [Math.random] are inputs as well.

    Numbers: identifiers, counters and millisecond time stamps are [Z];
    the minutes the tracker computes are IEEE 754 doubles, each operation
    rounding its exact result; scores that involve [Math.log] or
    [Math.random] are exact rationals [Q], [Math.log] itself being a
    parameter. *)

From Stdlib Require Import ZArith QArith Qminmax Qround Qpower String Ascii List Lia Lqa.
From Stdlib Require Import Permutation Sorted DecimalString DecimalPos SpecFloat.
From stdpp Require Import gmap strings.
Import ListNotations.

Local Open Scope string_scope.
Local Open Scope Z_scope.

(** ** JavaScript primitives used by the hooks *)

Module JS.

(** Truthiness of a string: only the empty string is falsy. *)
Definition truthy (s : string) : bool :=
  match s with EmptyString => false | String _ _ => true end.

(** Truthiness of [string | null]. *)
Definition truthy_opt (o : option string) : bool :=
  match o with Some s => truthy s | None => false end.

(** Truthiness of a number held in [Z]: zero is falsy. *)
Definition truthy_num (n : Z) : bool := negb (n =? 0).

(** [a || b] on strings. *)
Definition or_else (a b : string) : string := if truthy a then a else b.

(** [Number.prototype.toString] on an integer. *)
Definition toString (n : Z) : string := NilZero.string_of_int (Z.to_int n).

Definition lower_ascii (c : ascii) : ascii :=
  let n := N_of_ascii c in
  if ((65 <=? n) && (n <=? 90))%N then ascii_of_N (n + 32) else c.

(** [String.prototype.toLowerCase], on the ASCII letters. *)
Fixpoint toLowerCase (s : string) : string :=
  match s with
  | EmptyString => EmptyString
  | String c r => String (lower_ascii c) (toLowerCase r)
  end.

Definition is_space (c : ascii) : bool :=
  let n := N_of_ascii c in
  ((n =? 32) || ((9 <=? n) && (n <=? 13)))%N.

Definition digit_of (c : ascii) : option Z :=
  let n := N_of_ascii c in
  if ((48 <=? n) && (n <=? 57))%N then Some (Z.of_N (n - 48)) else None.

Fixpoint skip_spaces (s : string) : string :=
  match s with
  | String c r => if is_space c then skip_spaces r else s
  | EmptyString => s
  end.

(** The longest prefix of decimal digits, read left to right; [None] when
    no digit has been read yet. *)
Fixpoint read_digits (acc : option Z) (s : string) : option Z :=
  match s with
  | String c r =>
      match digit_of c with
      | Some d => read_digits (Some (match acc with Some a => 10 * a + d | None => d end)) r
      | None => acc
      end
  | EmptyString => acc
  end.

(** [parseInt(s)] in radix ten: leading white space, an optional sign, then
    the longest run of digits.  [None] is [NaN]. *)
Definition parseInt (s : string) : option Z :=
  match skip_spaces s with
  | String "-" r => option_map Z.opp (read_digits None r)
  | String "+" r => read_digits None r
  | t => read_digits None t
  end.

(** [Array.prototype.includes] / [Set.prototype.has] on a list of strings. *)
Definition includes (l : list string) (s : string) : bool :=
  existsb (String.eqb s) l.

(** [Array.prototype.sort(cmp)], which is stable.  [after x y] says that
    the comparator is positive on [(x, y)], that is, [x] has to move
    behind [y].  [insert x l] places [x], which stood in front of every
    element of [l], into the sorted [l]. *)
Fixpoint insert {A} (after : A -> A -> bool) (x : A) (l : list A) : list A :=
  match l with
  | [] => [x]
  | y :: r => if after x y then y :: insert after x r else x :: y :: r
  end.

Fixpoint sort {A} (after : A -> A -> bool) (l : list A) : list A :=
  match l with
  | [] => []
  | x :: r => insert after x (sort after r)
  end.

(** [Array.prototype.map] with the running index made explicit. *)
Fixpoint mapi_from {A B} (i : nat) (f : nat -> A -> B) (l : list A) : list B :=
  match l with
  | [] => []
  | x :: r => f i x :: mapi_from (S i) f r
  end.

Definition mapi {A B} (f : nat -> A -> B) (l : list A) : list B := mapi_from 0 f l.

(** *** Numbers

    A JavaScript number is an IEEE 754 binary64 value.  A finite one is
    held as the rational it stands for (the two zeros are not told apart);
    every arithmetic operation returns its exact result rounded to the
    nearest double, ties to the even mantissa, and to infinity beyond the
    largest double. *)
Inductive double :=
| Finite (q : Q)
| Infinity (negative : bool)
| NaN.

Definition pow2 (e : Z) : Q := (2 ^ e)%Q.

(** The exponent [e] of a positive rational: [2^e <= q < 2^(e+1)]. *)
Definition ilog2 (q : Q) : Z :=
  let l := Z.log2 (Qnum q) - Z.log2 (Zpos (Qden q)) in
  if Qle_bool (pow2 l) q then l else l - 1.

(** The nearest integer, the even one of two that are equally near. *)
Definition nearestEven (q : Q) : Z :=
  let f := Qfloor q in
  match (q - inject_Z f ?= 1 # 2)%Q with
  | Lt => f
  | Gt => f + 1
  | Eq => if Z.even f then f else f + 1
  end.

(** A positive rational rounded to 53 significant bits, the exponent not
    below that of the subnormal numbers. *)
Definition roundedValue (q : Q) : Q :=
  let ulp := pow2 (Z.max (ilog2 q) (-1022) - 52) in
  (inject_Z (nearestEven (q / ulp)) * ulp)%Q.

Definition roundPositive (q : Q) : double :=
  let v := roundedValue q in
  if Qle_bool (pow2 1024) v then Infinity false else Finite (Qred v).

Definition negate (x : double) : double :=
  match x with
  | Finite q => Finite (Qred (- q))
  | Infinity s => Infinity (negb s)
  | NaN => NaN
  end.

(** The double an exact result is rounded to. *)
Definition fl (q : Q) : double :=
  match Qnum q with
  | Z0 => Finite 0
  | Zpos _ => roundPositive q
  | Zneg _ => negate (roundPositive (- q))
  end.

(** An integer as a number. *)
Definition ofZ (z : Z) : double := fl (inject_Z z).

(** [x / c] and [x * c] for a finite constant [c > 0]. *)
Definition divBy (c : Q) (x : double) : double :=
  match x with Finite q => fl (q / c) | _ => x end.

Definition mulBy (c : Q) (x : double) : double :=
  match x with Finite q => fl (q * c) | _ => x end.

(** [x > y] *)
Definition gt (x y : double) : bool :=
  match x, y with
  | Finite a, Finite b => negb (Qle_bool a b)
  | Infinity false, Finite _ => true
  | Infinity false, Infinity true => true
  | Finite _, Infinity true => true
  | _, _ => false
  end.

(** [Math.round]: the nearest integer, the larger one of two that are
    equally near.  The result is a double: a double of magnitude 2^52 or
    more is an integer already. *)
Definition Math_round (x : double) : double :=
  match x with
  | Finite q => Finite (inject_Z (Qfloor (q + (1 # 2))))
  | _ => x
  end.

End JS.

(** ** [src/hooks/useAuth.ts] *)

Module useAuth.

(** The session provider's [User], with the fields the hook reads. *)
Record User := {
  u_id : string;
  u_email : string;
  u_full_name : option string;   (* user_metadata.full_name *)
  u_name : option string;        (* user_metadata.name *)
  u_avatar_url : option string   (* user_metadata.avatar_url *)
}.

Record LocalUserData := {
  l_id : string;
  l_email : string;
  l_username : option string;
  l_avatar_url : option string
}.

(** The item ['musicapp_user'] of [localStorage]: absent, present but not
    parsable ([JSON.parse] throws), or a stored record. *)
Inductive StoredItem :=
| Unparsable
| Stored (d : LocalUserData).

Definition LocalStorage := option StoredItem.

Record AuthState := {
  user : option User;
  localUserData : option LocalUserData;
  loading : bool;
  storage : LocalStorage
}.

Definition getLocalUserData (ls : LocalStorage) : option LocalUserData :=
  match ls with
  | Some (Stored d) => Some d
  | Some Unparsable => None
  | None => None
  end.

(** [saveLocalUserData]: [stored] says that [localStorage.setItem] returned;
    when it throws (the quota is exceeded, or the storage cannot be
    accessed) the [catch] logs, and neither the item nor the local record
    changes. *)
Definition saveLocalUserData (stored : bool) (d : LocalUserData) (st : AuthState)
  : AuthState :=
  if stored then
    {| user := user st; localUserData := Some d; loading := loading st;
       storage := Some (Stored d) |}
  else st.

(** [clearLocalUserData].  [removeItem] throws only where the storage
    cannot be accessed at all; there nothing is ever read or stored, the
    item reads as absent and the local record is [null] already, so that
    skipping [setLocalUserData(null)] makes no difference. *)
Definition clearLocalUserData (st : AuthState) : AuthState :=
  {| user := user st; localUserData := None; loading := loading st;
     storage := None |}.

Definition setUser (u : option User) (st : AuthState) : AuthState :=
  {| user := u; localUserData := localUserData st; loading := loading st;
     storage := storage st |}.

Definition setLocalUserData (d : option LocalUserData) (st : AuthState) : AuthState :=
  {| user := user st; localUserData := d; loading := loading st;
     storage := storage st |}.

Definition setLoading (b : bool) (st : AuthState) : AuthState :=
  {| user := user st; localUserData := localUserData st; loading := b;
     storage := storage st |}.

(** [a || b] on optional metadata strings. *)
Definition first_truthy (a b : option string) : option string :=
  if JS.truthy_opt a then a else b.

Definition userDataOf (u : User) : LocalUserData :=
  {| l_id := u_id u; l_email := u_email u;
     l_username := first_truthy (u_full_name u) (u_name u);
     l_avatar_url := u_avatar_url u |}.

(** The state of the hook when the effect starts: the stored record, when
    there is one, is available at once. *)
Definition initial (ls : LocalStorage) : AuthState :=
  {| user := None; localUserData := getLocalUserData ls; loading := true;
     storage := ls |}.

(** How the bounded session check settles. *)
Inductive SessionCheck :=
| SessionError                    (* [error], a rejection, or the 8000 ms timeout *)
| NoSession
| SessionOf (u : User).

(** [getInitialSession], with [localData] the record read when the effect
    started, and [stored] the outcome of the write to the storage when a
    session is found. *)
Definition getInitialSession (localData : option LocalUserData)
    (r : SessionCheck) (stored : bool) (st : AuthState) : AuthState :=
  match r with
  | SessionError =>
      match localData with
      | Some _ => setLoading false (setUser None st)
      | None => setLoading false (setLocalUserData None (setUser None st))
      end
  | SessionOf u =>
      setLoading false (saveLocalUserData stored (userDataOf u) (setUser (Some u) st))
  | NoSession =>
      match localData with
      | Some _ => setLoading false st
      | None => setLoading false (setLocalUserData None (setUser None st))
      end
  end.

Inductive AuthEvent := SIGNED_IN | SIGNED_OUT | OTHER_EVENT.

(** The [onAuthStateChange] callback, with [stored] the outcome of the write
    to the storage on a sign-in. *)
Definition onAuthStateChange (event : AuthEvent) (session : option User)
    (stored : bool) (st : AuthState) : AuthState :=
  match event, session with
  | SIGNED_OUT, _ | _, None =>
      setLoading false (clearLocalUserData (setUser None st))
  | SIGNED_IN, Some u =>
      saveLocalUserData stored (userDataOf u) (setLoading false (setUser (Some u) st))
  | OTHER_EVENT, Some u =>
      setLoading false (setUser (Some u) st)
  end.

(** The [User]-shaped object built from the local record. *)
Definition userOfLocal (d : LocalUserData) : User :=
  {| u_id := l_id d; u_email := l_email d;
     u_full_name := l_username d; u_name := l_username d;
     u_avatar_url := l_avatar_url d |}.

(** [user || (localUserData ? {...} : null)] *)
Definition effectiveUser (st : AuthState) : option User :=
  match user st with
  | Some u => Some u
  | None =>
      match localUserData st with
      | Some d => Some (userOfLocal d)
      | None => None
      end
  end.

(** [() => localUserData?.id || user?.id || null] *)
Definition getUserId (st : AuthState) : option string :=
  match localUserData st with
  | Some d =>
      if JS.truthy (l_id d) then Some (l_id d)
      else match user st with
           | Some u => if JS.truthy (u_id u) then Some (u_id u) else None
           | None => None
           end
  | None =>
      match user st with
      | Some u => if JS.truthy (u_id u) then Some (u_id u) else None
      | None => None
      end
  end.

(** [!!(localUserData || user)] *)
Definition isAuthenticated (st : AuthState) : bool :=
  match localUserData st, user st with
  | None, None => false
  | _, _ => true
  end.

End useAuth.

(** ** [src/hooks/useSupabaseData.ts] *)

Module useSupabaseData.

(** *** Records *)

(** A row of the [songs] collection.  A [null] list of tags behaves as the
    empty list at every use ([tags?.map(..) || []], [(tags || [])]), and a
    [null] counter as zero ([views || 0]), so both are held directly. *)
Record DatabaseSong := {
  db_file_id : Z;
  db_img_id : Z;
  db_name : string;
  db_artist : string;
  db_language : string;
  db_tags : list string;
  db_views : Z;
  db_likes : Z
}.

Record Song := {
  file_id : Z;
  img_id : Z;
  name : string;
  artist : string;
  language : string;
  tags : list string;
  views : Z;
  likes : Z;
  id : string;
  image : string;
  isLiked : bool
}.

Record Playlist := {
  p_id : string;
  p_name : string;
  songCount : nat;
  p_image : string;
  p_songs : list Song
}.

(** A row of [history] joined with its song (absent when the join found
    none); [null] minutes count as zero. *)
Record HistoryRow := {
  h_song_id : Z;
  h_minutes_listened : Q;
  h_songs : option DatabaseSong
}.

(** A row of [playlists] with its nested [playlist_songs]. *)
Record PlaylistRow := {
  pr_id : Z;
  pr_name : string;
  pr_playlist_songs : list DatabaseSong
}.

(** What the store answers to a read: [{ data: null, error }] or
    [{ data, error: null }], where [data] itself may be [null]. *)
Inductive Response (A : Type) :=
| Failure
| Data (d : option A).
Arguments Failure {A}.
Arguments Data {A} d.

(** [data || []] *)
Definition rows {A} (d : option (list A)) : list A :=
  match d with Some l => l | None => [] end.

(** A JavaScript number used as a key: an integer, or [NaN] ([None]). *)
Definition number := option Z.

(** The state owned by the hook: the two [useRef] caches, the [useState]
    cells, and the tracker's ref. *)
Record State := {
  songsCache : option (list DatabaseSong);
  likedSongsCache : option (gset Z);
  songs : list Song;
  personalizedSongs : list Song;
  trendingSongs : list Song;
  playlists : list Playlist;
  likedSongs : gset number;
  lastPlayedSong : option Song;
  recentlyPlayedSongs : list Song;
  loading : bool;
  currentSongStartTime : option Z;
  currentSongRef : option string
}.

Definition initialState : State := {|
  songsCache := None; likedSongsCache := None;
  songs := []; personalizedSongs := []; trendingSongs := [];
  playlists := []; likedSongs := ∅; lastPlayedSong := None;
  recentlyPlayedSongs := []; loading := true;
  currentSongStartTime := None; currentSongRef := None |}.

(** [Set<number>.has(n)] for an integer [n]. *)
Definition has (s : gset number) (n : Z) : bool := bool_decide (Some n ∈ s).

Definition hasZ (s : gset Z) (n : Z) : bool := bool_decide (n ∈ s).

Definition hasStr (s : gset string) (k : string) : bool := bool_decide (k ∈ s).

(** [new Set(likedData.map(item => item.song_id))] *)
Definition likedSetOf (likedData : list Z) : gset number :=
  list_to_set (List.map Some likedData).

(** *** [getUserId] *)

(** The session user first, the stored record second.  [null] also when
    reading the item throws. *)
Definition getUserId (user : option useAuth.User) (ls : useAuth.LocalStorage)
  : option string :=
  let fromStorage :=
    match ls with
    | Some (useAuth.Stored d) => Some (useAuth.l_id d)
    | Some useAuth.Unparsable => None
    | None => None
    end in
  match user with
  | Some u => if JS.truthy (useAuth.u_id u) then Some (useAuth.u_id u) else fromStorage
  | None => fromStorage
  end.

(** *** [convertDatabaseSong] *)

Definition defaultImage : string :=
  "https://images.pexels.com/photos/1763075/pexels-photo-1763075.jpeg?auto=compress&cs=tinysrgb&w=300".

Definition imageOf (img : Z) : string :=
  "https://images.pexels.com/photos/" ++ JS.toString img ++ "/pexels-photo-"
    ++ JS.toString img ++ ".jpeg?auto=compress&cs=tinysrgb&w=300".

Definition convertDatabaseSong (dbSong : DatabaseSong) (liked : bool) : Song := {|
  file_id := db_file_id dbSong;
  img_id := db_img_id dbSong;
  name := db_name dbSong;
  artist := db_artist dbSong;
  language := db_language dbSong;
  tags := db_tags dbSong;
  views := db_views dbSong;
  likes := db_likes dbSong;
  id := JS.toString (db_file_id dbSong);
  image := imageOf (db_img_id dbSong);
  isLiked := liked |}.

(** *** State setters *)

Definition setSongsCache (v : option (list DatabaseSong)) (st : State) : State :=
  {| songsCache := v; likedSongsCache := likedSongsCache st; songs := songs st;
     personalizedSongs := personalizedSongs st; trendingSongs := trendingSongs st;
     playlists := playlists st; likedSongs := likedSongs st;
     lastPlayedSong := lastPlayedSong st; recentlyPlayedSongs := recentlyPlayedSongs st;
     loading := loading st; currentSongStartTime := currentSongStartTime st;
     currentSongRef := currentSongRef st |}.

Definition setLikedSongsCache (v : option (gset Z)) (st : State) : State :=
  {| songsCache := songsCache st; likedSongsCache := v; songs := songs st;
     personalizedSongs := personalizedSongs st; trendingSongs := trendingSongs st;
     playlists := playlists st; likedSongs := likedSongs st;
     lastPlayedSong := lastPlayedSong st; recentlyPlayedSongs := recentlyPlayedSongs st;
     loading := loading st; currentSongStartTime := currentSongStartTime st;
     currentSongRef := currentSongRef st |}.

Definition setSongs (v : list Song) (st : State) : State :=
  {| songsCache := songsCache st; likedSongsCache := likedSongsCache st; songs := v;
     personalizedSongs := personalizedSongs st; trendingSongs := trendingSongs st;
     playlists := playlists st; likedSongs := likedSongs st;
     lastPlayedSong := lastPlayedSong st; recentlyPlayedSongs := recentlyPlayedSongs st;
     loading := loading st; currentSongStartTime := currentSongStartTime st;
     currentSongRef := currentSongRef st |}.

Definition setPersonalizedSongs (v : list Song) (st : State) : State :=
  {| songsCache := songsCache st; likedSongsCache := likedSongsCache st; songs := songs st;
     personalizedSongs := v; trendingSongs := trendingSongs st;
     playlists := playlists st; likedSongs := likedSongs st;
     lastPlayedSong := lastPlayedSong st; recentlyPlayedSongs := recentlyPlayedSongs st;
     loading := loading st; currentSongStartTime := currentSongStartTime st;
     currentSongRef := currentSongRef st |}.

Definition setTrendingSongs (v : list Song) (st : State) : State :=
  {| songsCache := songsCache st; likedSongsCache := likedSongsCache st; songs := songs st;
     personalizedSongs := personalizedSongs st; trendingSongs := v;
     playlists := playlists st; likedSongs := likedSongs st;
     lastPlayedSong := lastPlayedSong st; recentlyPlayedSongs := recentlyPlayedSongs st;
     loading := loading st; currentSongStartTime := currentSongStartTime st;
     currentSongRef := currentSongRef st |}.

Definition setPlaylists (v : list Playlist) (st : State) : State :=
  {| songsCache := songsCache st; likedSongsCache := likedSongsCache st; songs := songs st;
     personalizedSongs := personalizedSongs st; trendingSongs := trendingSongs st;
     playlists := v; likedSongs := likedSongs st;
     lastPlayedSong := lastPlayedSong st; recentlyPlayedSongs := recentlyPlayedSongs st;
     loading := loading st; currentSongStartTime := currentSongStartTime st;
     currentSongRef := currentSongRef st |}.

Definition setLikedSongs (v : gset number) (st : State) : State :=
  {| songsCache := songsCache st; likedSongsCache := likedSongsCache st; songs := songs st;
     personalizedSongs := personalizedSongs st; trendingSongs := trendingSongs st;
     playlists := playlists st; likedSongs := v;
     lastPlayedSong := lastPlayedSong st; recentlyPlayedSongs := recentlyPlayedSongs st;
     loading := loading st; currentSongStartTime := currentSongStartTime st;
     currentSongRef := currentSongRef st |}.

Definition setLastPlayedSong (v : option Song) (st : State) : State :=
  {| songsCache := songsCache st; likedSongsCache := likedSongsCache st; songs := songs st;
     personalizedSongs := personalizedSongs st; trendingSongs := trendingSongs st;
     playlists := playlists st; likedSongs := likedSongs st;
     lastPlayedSong := v; recentlyPlayedSongs := recentlyPlayedSongs st;
     loading := loading st; currentSongStartTime := currentSongStartTime st;
     currentSongRef := currentSongRef st |}.

Definition setRecentlyPlayedSongs (v : list Song) (st : State) : State :=
  {| songsCache := songsCache st; likedSongsCache := likedSongsCache st; songs := songs st;
     personalizedSongs := personalizedSongs st; trendingSongs := trendingSongs st;
     playlists := playlists st; likedSongs := likedSongs st;
     lastPlayedSong := lastPlayedSong st; recentlyPlayedSongs := v;
     loading := loading st; currentSongStartTime := currentSongStartTime st;
     currentSongRef := currentSongRef st |}.

Definition setLoading (v : bool) (st : State) : State :=
  {| songsCache := songsCache st; likedSongsCache := likedSongsCache st; songs := songs st;
     personalizedSongs := personalizedSongs st; trendingSongs := trendingSongs st;
     playlists := playlists st; likedSongs := likedSongs st;
     lastPlayedSong := lastPlayedSong st; recentlyPlayedSongs := recentlyPlayedSongs st;
     loading := v; currentSongStartTime := currentSongStartTime st;
     currentSongRef := currentSongRef st |}.

Definition setCurrentSongStartTime (v : option Z) (st : State) : State :=
  {| songsCache := songsCache st; likedSongsCache := likedSongsCache st; songs := songs st;
     personalizedSongs := personalizedSongs st; trendingSongs := trendingSongs st;
     playlists := playlists st; likedSongs := likedSongs st;
     lastPlayedSong := lastPlayedSong st; recentlyPlayedSongs := recentlyPlayedSongs st;
     loading := loading st; currentSongStartTime := v;
     currentSongRef := currentSongRef st |}.

Definition setCurrentSongRef (v : option string) (st : State) : State :=
  {| songsCache := songsCache st; likedSongsCache := likedSongsCache st; songs := songs st;
     personalizedSongs := personalizedSongs st; trendingSongs := trendingSongs st;
     playlists := playlists st; likedSongs := likedSongs st;
     lastPlayedSong := lastPlayedSong st; recentlyPlayedSongs := recentlyPlayedSongs st;
     loading := loading st; currentSongStartTime := currentSongStartTime st;
     currentSongRef := v |}.

(** *** [fetchSongs] *)

(** The answers of the store to the reads of one refresh. *)
Record Remote := {
  r_songs : Response (list DatabaseSong);       (* songs, by views descending *)
  r_liked : Response (list Z);                  (* liked_songs of the user *)
  r_history : Response (list HistoryRow);       (* history, by minutes descending *)
  r_user : Response (option Z);                 (* users.last_song_file_id *)
  r_playlists : Response (list PlaylistRow);
  r_recent : Response (list HistoryRow);        (* history, limit 9 *)
  r_recent_liked : Response (list Z)
}.

(** What a property of a counting record holds.  The record is a plain
    object, [{}], so a key that [Object.prototype] defines is looked up
    there as long as the record has no property of its own under it: the
    value read is then a function, and [+ 1] makes a text of it. *)
Inductive Count :=
| Num (n : Z)
| Text (s : string).

(** The keys [Object.prototype] defines as functions, and how such a
    function prints (in V8; other engines differ in white space). *)
Definition prototypeFunctions : list string :=
  ["constructor"; "hasOwnProperty"; "isPrototypeOf"; "propertyIsEnumerable";
   "toLocaleString"; "toString"; "valueOf"; "__defineGetter__"; "__defineSetter__";
   "__lookupGetter__"; "__lookupSetter__"].

Definition inheritedFunction (k : string) : option string :=
  if JS.includes prototypeFunctions k then
    Some ("function " ++ (if String.eqb k "constructor" then "Object" else k)
            ++ "() { [native code] }")
  else None.

(** [(v || 0) + 1] for the value [v] of an own property. *)
Definition plusOne (v : Count) : Count :=
  match v with
  | Num n => if JS.truthy_num n then Num (n + 1) else Num 1
  | Text t => if JS.truthy t then Text (t ++ "1") else Num 1
  end.

(** [m[k] = (m[k] || 0) + 1] on a [Record<string, number>] that started as
    [{}], the keys kept in the order of their creation.  A first write
    under a key [Object.prototype] defines as a function stores a text;
    under ["__proto__"] the value read is [Object.prototype] itself, the
    text ["[object Object]1"] is handed to the setter of [__proto__], which
    ignores what is not an object, and nothing is stored. *)
Fixpoint bump (k : string) (m : list (string * Count)) : list (string * Count) :=
  match m with
  | [] =>
      if String.eqb k "__proto__" then []
      else match inheritedFunction k with
           | Some f => [(k, Text (f ++ "1"))]
           | None => [(k, Num 1)]
           end
  | (k', v) :: r =>
      if String.eqb k k' then (k', plusOne v) :: r else (k', v) :: bump k r
  end.

(** A key that is a canonical array index: such keys are enumerated
    first, in ascending order. *)
Definition arrayIndex (k : string) : option Z :=
  match JS.read_digits None k with
  | Some n => if String.eqb (JS.toString n) k && (n <=? 4294967294) then Some n else None
  | None => None
  end.

Definition indexOr0 {V} (e : string * V) : Z :=
  match arrayIndex (fst e) with Some n => n | None => 0 end.

Definition isIndex {V} (e : string * V) : bool :=
  match arrayIndex (fst e) with Some _ => true | None => false end.

(** [Object.entries(m)] *)
Definition entries {V} (m : list (string * V)) : list (string * V) :=
  (JS.sort (fun a b => indexOr0 b <? indexOr0 a) (List.filter isIndex m)
     ++ List.filter (fun e => negb (isIndex e)) m)%list.

(** [b[1] - a[1] > 0]: the comparator [(a, b) => b[1] - a[1]] moves [a]
    behind [b].  With a text on either side the difference is [NaN], which
    the sort takes for zero. *)
Definition countBelow (a b : Count) : bool :=
  match a, b with
  | Num x, Num y => x <? y
  | _, _ => false
  end.

(** [Object.entries(m).sort((a, b) => b[1] - a[1]).slice(0, 5).map(([k]) => k)]

    When some count is a text the comparator is not consistent, and the
    language leaves the order of the result to the engine; [JS.sort] then
    gives one of the orders an engine may give. *)
Definition mostCommon (m : list (string * Count)) : list string :=
  List.map fst (firstn 5 (JS.sort (fun a b => countBelow (snd a) (snd b)) (entries m))).

(** [(historyData || []).slice(0, 15).filter(h => h.songs)] *)
Definition topHistory (historyData : list HistoryRow) : list HistoryRow :=
  List.filter (fun h => match h_songs h with Some _ => true | None => false end)
    (firstn 15 historyData).

Definition tagCount (top : list HistoryRow) : list (string * Count) :=
  fold_left (fun m h =>
    match h_songs h with
    | Some songObj => fold_left (fun m tag => bump (JS.toLowerCase tag) m) (db_tags songObj) m
    | None => m
    end) top [].

Definition artistCount (top : list HistoryRow) : list (string * Count) :=
  fold_left (fun m h =>
    match h_songs h with
    | Some songObj =>
        if JS.truthy (db_artist songObj) then bump (JS.toLowerCase (db_artist songObj)) m else m
    | None => m
    end) top [].

(** [new Set((historyData || []).map(h => h.song_id?.toString()))] *)
Definition historySongIds (historyData : list HistoryRow) : gset string :=
  list_to_set (List.map (fun h => JS.toString (h_song_id h)) historyData).

(** The score of the refresh: tag and artist matches, then popularity. *)
Definition refreshScore (commonTags commonArtists : list string) (song : Song) : Z :=
  let score := 0 in
  let songTags := List.map JS.toLowerCase (tags song) in
  let score := score
    + Z.of_nat (length (List.filter (fun t => JS.includes commonTags t) songTags)) * 10 in
  let score :=
    if JS.truthy (artist song) && JS.includes commonArtists (JS.toLowerCase (artist song))
    then score + 20 else score in
  let score := score + (views song + likes song) in
  score.

(** [scoredSongs.sort((a, b) => b.score - a.score)] on integer scores *)
Definition byScoreDesc {A} (l : list (A * Z)) : list (A * Z) :=
  JS.sort (fun a b => snd a <? snd b) l.

Definition personalizedSorted (historyData : list HistoryRow) (convertedSongs : list Song)
  : list Song :=
  let top := topHistory historyData in
  let commonTags := mostCommon (tagCount top) in
  let commonArtists := mostCommon (artistCount top) in
  let ids := historySongIds historyData in
  let filteredSongs := List.filter (fun song => negb (hasStr ids (id song))) convertedSongs in
  let scoredSongs :=
    List.map (fun song => (song, refreshScore commonTags commonArtists song)) filteredSongs in
  List.map fst (byScoreDesc scoredSongs).

(** [[...convertedSongs].sort((a, b) => (b.views + b.likes) - (a.views + a.likes)).slice(0, 15)] *)
Definition trending (convertedSongs : list Song) : list Song :=
  firstn 15
    (JS.sort (fun a b => (views a + likes a) <? (views b + likes b)) convertedSongs).

Definition fetchSongs (userId : option string) (rem : Remote) (st : State) : State :=
  if negb (JS.truthy_opt userId) then
    setTrendingSongs [] (setPersonalizedSongs [] (setSongs [] st))
  else
    match r_songs rem with
    | Failure =>
        (* [throw error], caught by the enclosing [catch] *)
        setTrendingSongs [] (setPersonalizedSongs [] (setSongs [] st))
    | Data songsData =>
        let '(userLikedSongs, st) :=
          match r_liked rem with
          | Failure => (∅, st)
          | Data None => (∅, st)
          | Data (Some likedData) =>
              (likedSetOf likedData, setLikedSongs (likedSetOf likedData) st)
          end in
        let historyData :=
          match r_history rem with
          | Failure => []
          | Data d => rows d
          end in
        let convertedSongs :=
          List.map (fun song => convertDatabaseSong song (has userLikedSongs (db_file_id song)))
            (rows songsData) in
        let st := setSongs convertedSongs st in
        let st := setPersonalizedSongs (personalizedSorted historyData convertedSongs) st in
        let st := setTrendingSongs (trending convertedSongs) st in
        match r_user rem with
        | Failure => st
        | Data None => st
        | Data (Some None) => st
        | Data (Some (Some last_song_file_id)) =>
            if JS.truthy_num last_song_file_id then
              match List.find (fun song => file_id song =? last_song_file_id) convertedSongs with
              | Some lastSong => setLastPlayedSong (Some lastSong) st
              | None => st
              end
            else st
        end
    end.

(** *** [fetchPlaylists] and [fetchRecentlyPlayed] *)

(** [l[0]?.image || fallback] *)
Definition coverOr (l : list Song) (fallback : string) : string :=
  match l with
  | s :: _ => JS.or_else (image s) fallback
  | [] => fallback
  end.

Definition convertPlaylist (liked : gset number) (playlist : PlaylistRow) : Playlist :=
  let playlistSongs :=
    List.map (fun ps => convertDatabaseSong ps (has liked (db_file_id ps)))
      (pr_playlist_songs playlist) in
  {| p_id := JS.toString (pr_id playlist);
     p_name := pr_name playlist;
     songCount := length playlistSongs;
     p_image := coverOr playlistSongs defaultImage;
     p_songs := playlistSongs |}.

(** [liked] is the [likedSongs] cell as the closure of the call sees it. *)
Definition fetchPlaylists (userId : option string) (liked : gset number)
    (rem : Remote) (st : State) : State :=
  if negb (JS.truthy_opt userId) then setPlaylists [] st
  else
    match r_playlists rem with
    | Failure => st                      (* thrown, caught and logged *)
    | Data playlistsData =>
        setPlaylists (List.map (convertPlaylist liked) (rows playlistsData)) st
    end.

Definition fetchRecentlyPlayed (userId : option string) (rem : Remote) (st : State) : State :=
  if negb (JS.truthy_opt userId) then setRecentlyPlayedSongs [] st
  else
    match r_recent rem with
    | Failure => st
    | Data historyData =>
        match rows historyData with
        | [] => setRecentlyPlayedSongs [] st
        | items =>
            let userLikedSongs : gset Z :=
              match r_recent_liked rem with
              | Data (Some likedData) => list_to_set likedData
              | _ => ∅
              end in
            let recentSongs :=
              List.flat_map (fun item =>
                match h_songs item with
                | Some songObj =>
                    [convertDatabaseSong songObj (hasZ userLikedSongs (h_song_id item))]
                | None => []
                end) items in
            setRecentlyPlayedSongs recentSongs st
        end
    end.

(** *** [loadData], the effect that runs when [user] changes *)

(** The three fetches are awaited together.  None of them rejects (each
    catches what it throws), so the [catch] of [loadData] is never entered;
    they write to different cells, and [fetchPlaylists] reads [likedSongs]
    as it was when the effect was created. *)
Definition loadData (user : option useAuth.User) (ls : useAuth.LocalStorage)
    (rem : Remote) (st : State) : State :=
  let userId := getUserId user ls in
  if negb (JS.truthy_opt userId) then
    setLoading false
      (setLastPlayedSong None
        (setRecentlyPlayedSongs []
          (setLikedSongs ∅
            (setPlaylists []
              (setTrendingSongs []
                (setPersonalizedSongs []
                  (setSongs []
                    (setLikedSongsCache None (setSongsCache None st)))))))))
  else
    let liked := likedSongs st in
    let st := setLoading true st in
    let st := fetchSongs userId rem st in
    let st := fetchPlaylists userId liked rem st in
    let st := fetchRecentlyPlayed userId rem st in
    setLoading false st.

(** *** The two scored recommendation functions *)

Definition Qltb (x y : Q) : bool := negb (Qle_bool y x).

(** [scoredSongs.sort((a, b) => b.score - a.score)] on rational scores *)
Definition byScoreDescQ {A} (l : list (A * Q)) : list (A * Q) :=
  JS.sort (fun a b => Qltb (snd a) (snd b)) l.

(** [historyData.forEach(h => historyMap.set(h.song_id, h.minutes_listened || 0))] *)
Definition historyMapOf (historyData : list HistoryRow) : gmap Z Q :=
  fold_left (fun m h => <[h_song_id h := h_minutes_listened h]> m) historyData ∅.

(** [likedData.forEach(item => set.add(item.song_id))], an ignored error
    leaving the set empty. *)
Definition likedOfResponse (r : Response (list Z)) : gset Z :=
  match r with
  | Data (Some likedData) => list_to_set likedData
  | _ => ∅
  end.

(** The cached catalog, or the fetched one, which is then cached; [None]
    when the function returns early with no recommendation. *)
Definition songsFromCache (songsR : Response (list DatabaseSong)) (st : State)
  : option (list DatabaseSong * State) :=
  match songsCache st with
  | Some songsData => Some (songsData, st)
  | None =>
      match songsR with
      | Failure => None
      | Data None => None
      | Data (Some []) => None
      | Data (Some data) => Some (data, setSongsCache (Some data) st)
      end
  end.

Definition likedFromCache (likedR : Response (list Z)) (st : State) : gset Z * State :=
  match likedSongsCache st with
  | Some userLikedSongs => (userLikedSongs, st)
  | None =>
      let userLikedSongs := likedOfResponse likedR in
      (userLikedSongs, setLikedSongsCache (Some userLikedSongs) st)
  end.

Section Scoring.

(** [Math.log], and the values [Math.random()] returns during one call, in
    the order of the calls. *)
Variable Math_log : Q -> Q.
Variable random : nat -> Q.

Definition seedScore (currentSong : Song) (historyMap : gmap Z Q)
    (userLikedSongs : gset Z) (i : nat) (song : DatabaseSong) : Q :=
  let score := 0%Q in
  let matchingTags :=
    List.filter (fun tag => JS.includes (tags currentSong) tag) (db_tags song) in
  let score := (score + inject_Z (Z.of_nat (length matchingTags)) * 15)%Q in
  let score :=
    if String.eqb (db_artist song) (artist currentSong) then (score + 25)%Q else score in
  let score :=
    if String.eqb (db_language song) (language currentSong) then (score + 10)%Q else score in
  let listenedMinutes :=
    match historyMap !! db_file_id song with Some m => m | None => 0%Q end in
  let score := (score + Qmin (listenedMinutes * 2) 20)%Q in
  let score := (score + Math_log (1 + inject_Z (db_likes song)) * 2)%Q in
  let score := (score + Math_log (1 + inject_Z (db_views song)) * 1)%Q in
  let score := if hasZ userLikedSongs (db_file_id song) then (score + 8)%Q else score in
  let score := (score + random i * 3)%Q in
  score.

(** The candidates of seed mode. *)
Definition seedAvailable (currentSong : Song) (listenedSongs : option (gset string))
    (songsData : list DatabaseSong) : list DatabaseSong :=
  List.filter (fun song =>
    if db_file_id song =? file_id currentSong then false
    else if match listenedSongs with
            | Some listened => hasStr listened (JS.toString (db_file_id song))
            | None => false
            end then false
    else if negb (String.eqb (db_language song) (language currentSong)) then false
    else true) songsData.

Definition seedScored (currentSong : Song) (historyMap : gmap Z Q)
    (userLikedSongs : gset Z) (availableSongs : list DatabaseSong) : list (Song * Q) :=
  JS.mapi (fun i song =>
    (convertDatabaseSong song (hasZ userLikedSongs (db_file_id song)),
     seedScore currentSong historyMap userLikedSongs i song)) availableSongs.

Definition getPersonalizedSongs (userId : string) (currentSong : Song)
    (listenedSongs : option (gset string))
    (songsR : Response (list DatabaseSong)) (historyR : Response (list HistoryRow))
    (likedR : Response (list Z)) (st : State) : list Song * State :=
  match songsFromCache songsR st with
  | None => ([], st)
  | Some (songsData, st) =>
      let historyMap :=
        match historyR with
        | Data (Some historyData) => historyMapOf historyData
        | _ => ∅
        end in
      let '(userLikedSongs, st) := likedFromCache likedR st in
      match seedAvailable currentSong listenedSongs songsData with
      | [] => ([], st)
      | availableSongs =>
          let scoredSongs := seedScored currentSong historyMap userLikedSongs availableSongs in
          (List.map fst (firstn 10 (byScoreDescQ scoredSongs)), st)
      end
  end.

Definition preferredTags (listenedSongsInBatch : list Song) : gset string :=
  list_to_set (List.flat_map (fun song => List.map JS.toLowerCase (tags song)) listenedSongsInBatch).

Definition preferredArtists (listenedSongsInBatch : list Song) : gset string :=
  list_to_set (List.map (fun song => JS.toLowerCase (artist song)) listenedSongsInBatch).

Definition smartScore (listenedSongsInBatch : list Song) (userLikedSongs : gset Z)
    (i : nat) (song : DatabaseSong) : Q :=
  let score := 0%Q in
  let songTags := List.map JS.toLowerCase (db_tags song) in
  let matchingTags :=
    List.filter (fun tag => hasStr (preferredTags listenedSongsInBatch) tag) songTags in
  let score := (score + inject_Z (Z.of_nat (length matchingTags)) * 25)%Q in
  let score :=
    if hasStr (preferredArtists listenedSongsInBatch) (JS.toLowerCase (db_artist song))
    then (score + 30)%Q else score in
  let listenedLanguages := List.map language listenedSongsInBatch in
  let score :=
    if JS.includes listenedLanguages (db_language song) then (score + 15)%Q else score in
  let score := (score + Math_log (1 + inject_Z (db_likes song)) * 2)%Q in
  let score := (score + Math_log (1 + inject_Z (db_views song)) * 1)%Q in
  let score := if hasZ userLikedSongs (db_file_id song) then (score + 10)%Q else score in
  let score := (score + random i * 2)%Q in
  score.

Definition smartAvailable (languageFilter : string) (excludeSongs : gset string)
    (songsData : list DatabaseSong) : list DatabaseSong :=
  List.filter (fun song =>
    negb (hasStr excludeSongs (JS.toString (db_file_id song)))
    && String.eqb (db_language song) languageFilter) songsData.

Definition getSmartPersonalizedSongs (userId : string) (listenedSongsInBatch : list Song)
    (excludeSongs : gset string)
    (songsR : Response (list DatabaseSong)) (likedR : Response (list Z)) (st : State)
  : list Song * State :=
  match listenedSongsInBatch with
  | [] => ([], st)
  | first :: _ =>
      match songsFromCache songsR st with
      | None => ([], st)
      | Some (songsData, st) =>
          let '(userLikedSongs, st) := likedFromCache likedR st in
          let languageFilter := language first in
          match smartAvailable languageFilter excludeSongs songsData with
          | [] => ([], st)
          | availableSongs =>
              let scoredSongs :=
                JS.mapi (fun i song =>
                  (convertDatabaseSong song (hasZ userLikedSongs (db_file_id song)),
                   smartScore listenedSongsInBatch userLikedSongs i song)) availableSongs in
              (List.map fst (firstn 15 (byScoreDescQ scoredSongs)), st)
          end
      end
  end.

End Scoring.

(** *** [toggleLike] *)

Definition withLike (song : Song) (liked : bool) (delta : Z) : Song :=
  {| file_id := file_id song; img_id := img_id song; name := name song;
     artist := artist song; language := language song; tags := tags song;
     views := views song; likes := likes song + delta; id := id song;
     image := image song; isLiked := liked |}.

(** The update both projections apply to each of their songs. *)
Definition likeUpdate (songId : string) (isCurrentlyLiked : bool) (song : Song) : Song :=
  if String.eqb (id song) songId
  then withLike song (negb isCurrentlyLiked) (if isCurrentlyLiked then -1 else 1)
  else song.

Definition withSongs (playlist : Playlist) (l : list Song) : Playlist :=
  {| p_id := p_id playlist; p_name := p_name playlist; songCount := songCount playlist;
     p_image := p_image playlist; p_songs := l |}.

(** [mutationOk]: the delete from, or insert into, [liked_songs] reports no
    error; [rpcOk]: the counter call does not reject.  Either failure ends
    in the [catch], before any local update. *)
Definition toggleLike (userId : option string) (songId : string)
    (mutationOk rpcOk : bool) (st : State) : State :=
  if negb (JS.truthy_opt userId) then st
  else
    let songFileId : number := JS.parseInt songId in
    let isCurrentlyLiked := bool_decide (songFileId ∈ likedSongs st) in
    if negb mutationOk then st
    else if negb rpcOk then st
    else
      let st :=
        if isCurrentlyLiked
        then setLikedSongs (likedSongs st ∖ {[songFileId]}) st
        else setLikedSongs (likedSongs st ∪ {[songFileId]}) st in
      let st := setSongs (List.map (likeUpdate songId isCurrentlyLiked) (songs st)) st in
      setPlaylists
        (List.map (fun playlist =>
           withSongs playlist (List.map (likeUpdate songId isCurrentlyLiked) (p_songs playlist)))
          (playlists st)) st.

(** *** Playlist mutations: the remote call first, the local projection
    only when it reported no error *)

Definition createPlaylist (userId : option string) (name : string)
    (resp : Response (Z * string)) (st : State) : State :=
  if negb (JS.truthy_opt userId) then st
  else
    match resp with
    | Failure => st
    | Data None => st                   (* [data.id] throws *)
    | Data (Some (data_id, data_name)) =>
        let newPlaylist :=
          {| p_id := JS.toString data_id; p_name := data_name; songCount := 0;
             p_image := defaultImage; p_songs := [] |} in
        setPlaylists (playlists st ++ [newPlaylist])%list st
    end.

Definition deletePlaylist (userId : option string) (playlistId : string)
    (ok : bool) (st : State) : State :=
  if negb (JS.truthy_opt userId) then st
  else if negb ok then st
  else
    setPlaylists
      (List.filter (fun playlist => negb (String.eqb (p_id playlist) playlistId)) (playlists st))
      st.

Definition renamePlaylist (userId : option string) (playlistId newName : string)
    (ok : bool) (st : State) : State :=
  if negb (JS.truthy_opt userId) then st
  else if negb ok then st
  else
    setPlaylists
      (List.map (fun playlist =>
         if String.eqb (p_id playlist) playlistId
         then {| p_id := p_id playlist; p_name := newName; songCount := songCount playlist;
                 p_image := p_image playlist; p_songs := p_songs playlist |}
         else playlist) (playlists st)) st.

Definition addSongLocal (playlistId : string) (song : Song) (playlist : Playlist) : Playlist :=
  if String.eqb (p_id playlist) playlistId then
    let songExists := existsb (fun s => String.eqb (id s) (id song)) (p_songs playlist) in
    if negb songExists then
      let updatedSongs := (p_songs playlist ++ [song])%list in
      {| p_id := p_id playlist; p_name := p_name playlist;
         songCount := length updatedSongs;
         p_image := coverOr updatedSongs (p_image playlist);
         p_songs := updatedSongs |}
    else playlist
  else playlist.

Definition addSongToPlaylist (userId : option string) (playlistId : string) (song : Song)
    (ok : bool) (st : State) : State :=
  if negb (JS.truthy_opt userId) then st
  else if negb ok then st
  else setPlaylists (List.map (addSongLocal playlistId song) (playlists st)) st.

Definition removeSongLocal (playlistId songId : string) (playlist : Playlist) : Playlist :=
  if String.eqb (p_id playlist) playlistId then
    let updatedSongs :=
      List.filter (fun song => negb (String.eqb (id song) songId)) (p_songs playlist) in
    {| p_id := p_id playlist; p_name := p_name playlist;
       songCount := length updatedSongs;
       p_image := coverOr updatedSongs defaultImage;
       p_songs := updatedSongs |}
  else playlist.

Definition removeSongFromPlaylist (userId : option string) (playlistId songId : string)
    (ok : bool) (st : State) : State :=
  if negb (JS.truthy_opt userId) then st
  else if negb ok then st
  else setPlaylists (List.map (removeSongLocal playlistId songId) (playlists st)) st.

(** *** Listening-time tracking *)

(** The remote writes the tracker issues, in the order of the calls. *)
Inductive Rpc :=
| upsert_history_minutes (user_uuid : string) (song_file_id : number) (minutes : JS.double)
| update_last_song (userId : string) (last_song_file_id : number)
| increment_song_views (song_file_id : number).

(** [(endTime.getTime() - start.getTime()) / (1000 * 60)] *)
Definition minutesBetween (start endTime : Z) : JS.double :=
  JS.divBy 60000 (JS.ofZ (endTime - start)).

(** [Math.round(minutesListened * 100) / 100] *)
Definition roundMinutes (minutesListened : JS.double) : JS.double :=
  JS.divBy 100 (JS.Math_round (JS.mulBy 100 minutesListened)).

(** The literal [0.1]. *)
Definition tenth : JS.double := JS.fl (1 # 10).

(** The write for the song that was playing, when it played for more than
    a tenth of a minute: what a call sends before its first [await].
    [currentSongRef] is a ref, read as it is; [currentSongStartTime] is a
    [useState] cell, and [startSeen] is its value in the render the called
    closure belongs to. *)
Definition flushPrevious (uid : string) (startSeen : option Z) (endTime : Z) (st : State)
  : list Rpc :=
  match currentSongRef st, startSeen with
  | Some current, Some start =>
      if JS.truthy current then
        let minutesListened := minutesBetween start endTime in
        if JS.gt minutesListened tenth then
          let minutes := roundMinutes minutesListened in
          [upsert_history_minutes uid (JS.parseInt current) minutes]
        else []
      else []
  | _, _ => []
  end.

(** What a call does once its write has been awaited: the tracker moves to
    the new song, and the two best-effort writes follow. *)
Definition trackNext (uid : string) (songId : string) (startTime : Z) (st : State)
  : State * list Rpc :=
  (setCurrentSongStartTime (Some startTime) (setCurrentSongRef (Some songId) st),
   [update_last_song uid (JS.parseInt songId); increment_song_views (JS.parseInt songId)]).

(** A call of [recordListeningHistory] that no other call overlaps.
    [endTime] is the clock when the previous song is closed, [startTime]
    the clock when the new one is recorded, after the write was awaited. *)
Definition recordListeningHistoryFrom (startSeen : option Z) (userId : option string)
    (songId : string) (endTime startTime : Z) (st : State) : State * list Rpc :=
  match userId with
  | Some uid =>
      if JS.truthy uid then
        let flushed := flushPrevious uid startSeen endTime st in
        let '(st, writes) := trackNext uid songId startTime st in
        (st, (flushed ++ writes)%list)
      else (st, [])
  | None => (st, [])
  end.

(** The call made through the closure of the latest render, which sees
    the start time last set. *)
Definition recordListeningHistory (userId : option string) (songId : string)
    (endTime startTime : Z) (st : State) : State * list Rpc :=
  recordListeningHistoryFrom (currentSongStartTime st) userId songId endTime startTime st.

(** Two calls through the closure of one render, for [songB] and then
    [songC], the second made while the first awaits its history write:
    [None] when the first has no write to await.  Both read the tracker
    before the first moves it.  A second call that has a write of its own
    awaits it, and the first call goes on first; one that has none moves
    the tracker at once, and the first call moves it again.  The writes are
    listed in the order they are sent when the answers arrive in the order
    of the requests. *)
Definition overlappingCalls (uid : string) (songB songC : string)
    (endB endC startB startC : Z) (st : State) : option (State * list Rpc) :=
  let startSeen := currentSongStartTime st in
  match flushPrevious uid startSeen endB st with
  | [] => None
  | flushedB =>
      let onB := setCurrentSongStartTime (Some startB) in
      let onC := setCurrentSongStartTime (Some startC) in
      match flushPrevious uid startSeen endC st with
      | [] =>
          Some (onB (setCurrentSongRef (Some songB) (onC (setCurrentSongRef (Some songC) st))),
                (flushedB
                 ++ [update_last_song uid (JS.parseInt songC);
                     update_last_song uid (JS.parseInt songB);
                     increment_song_views (JS.parseInt songC);
                     increment_song_views (JS.parseInt songB)])%list)
      | flushedC =>
          Some (onC (setCurrentSongRef (Some songC) (onB (setCurrentSongRef (Some songB) st))),
                (flushedB ++ flushedC
                 ++ [update_last_song uid (JS.parseInt songB);
                     update_last_song uid (JS.parseInt songC);
                     increment_song_views (JS.parseInt songB);
                     increment_song_views (JS.parseInt songC)])%list)
      end
  end.

Definition stopCurrentSongTrackingFrom (startSeen : option Z) (userId : option string)
    (endTime : Z) (st : State) : State * list Rpc :=
  let flushed :=
    match userId with
    | Some uid => if JS.truthy uid then flushPrevious uid startSeen endTime st else []
    | None => []
    end in
  (setCurrentSongStartTime None (setCurrentSongRef None st), flushed).

Definition stopCurrentSongTracking (userId : option string) (endTime : Z) (st : State)
  : State * list Rpc :=
  stopCurrentSongTrackingFrom (currentSongStartTime st) userId endTime st.

End useSupabaseData.

(** * Facts about the embedding *)

(** ** The stable sort *)

Section SortTheory.

Context {A : Type} (after : A -> A -> bool).

(** [after] comes from a comparator that orders by a key: a strict weak
    order. *)
Hypothesis after_irrefl : forall x, after x x = false.
Hypothesis after_trans :
  forall x y z, after x y = true -> after y z = true -> after x z = true.
Hypothesis after_negtrans :
  forall x y z, after x y = false -> after y z = false -> after x z = false.

(** [x] may stand in front of [y]. *)
Definition mayPrecede (x y : A) : Prop := after x y = false.

(** The comparator is zero on [(z, x)]. *)
Definition tie (z x : A) : bool := negb (after z x) && negb (after x z).

Lemma after_asym x y : after x y = true -> after y x = false.
Proof.
  intros Hxy. destruct (after y x) eqn:Hyx; [|reflexivity].
  rewrite <- (after_irrefl x). symmetry. eapply after_trans; eassumption.
Qed.

Lemma insert_perm x l : Permutation (JS.insert after x l) (x :: l).
Proof.
  induction l as [|y r IH]; simpl; [reflexivity|].
  destruct (after x y); [|reflexivity].
  rewrite IH. apply perm_swap.
Qed.

Lemma sort_perm l : Permutation (JS.sort after l) l.
Proof.
  induction l as [|x r IH]; simpl; [constructor|].
  rewrite insert_perm. now constructor.
Qed.

Lemma sort_length l : length (JS.sort after l) = length l.
Proof. apply Permutation_length, sort_perm. Qed.

Lemma insert_sorted x l :
  StronglySorted mayPrecede l -> StronglySorted mayPrecede (JS.insert after x l).
Proof.
  induction 1 as [|y r Hr IH Hy]; simpl.
  - repeat constructor.
  - destruct (after x y) eqn:Hxy.
    + constructor; [exact IH|].
      eapply Permutation_Forall; [symmetry; apply insert_perm|].
      constructor; [now apply after_asym|exact Hy].
    + constructor; [now constructor|].
      constructor; [exact Hxy|].
      eapply List.Forall_impl; [|exact Hy].
      intros z Hyz. eapply after_negtrans; eassumption.
Qed.

Lemma sort_sorted l : StronglySorted mayPrecede (JS.sort after l).
Proof.
  induction l as [|x r IH]; simpl; [constructor|now apply insert_sorted].
Qed.

(** Stability, for any selection [p] of elements the comparator does not
    separate: the sort keeps them in their original order. *)
Lemma insert_filter (p : A -> bool) x l :
  (forall a b, p a = true -> p b = true -> after a b = false) ->
  List.filter p (JS.insert after x l)
  = if p x then x :: List.filter p l else List.filter p l.
Proof.
  intros Hp. induction l as [|y r IH]; simpl; [reflexivity|].
  destruct (after x y) eqn:Hxy; simpl; [|reflexivity].
  rewrite IH. destruct (p y) eqn:Hy, (p x) eqn:Hx; try reflexivity.
  rewrite (Hp x y Hx Hy) in Hxy. discriminate.
Qed.

Lemma sort_filter (p : A -> bool) l :
  (forall a b, p a = true -> p b = true -> after a b = false) ->
  List.filter p (JS.sort after l) = List.filter p l.
Proof.
  intros Hp. induction l as [|x r IH]; simpl; [reflexivity|].
  rewrite insert_filter by exact Hp. now rewrite IH.
Qed.

Lemma tie_refl x : tie x x = true.
Proof. unfold tie. now rewrite after_irrefl. Qed.

Lemma tie_selects z a b : tie z a = true -> tie z b = true -> after a b = false.
Proof.
  unfold tie. intros Ha Hb.
  apply andb_prop in Ha as [_ Ha]. apply andb_prop in Hb as [Hb _].
  apply negb_true_iff in Ha, Hb. eapply after_negtrans; eassumption.
Qed.

Lemma sort_stable z l :
  List.filter (tie z) (JS.sort after l) = List.filter (tie z) l.
Proof. apply sort_filter, tie_selects. Qed.

(** A sorted list is determined by its classes of ties. *)
Lemma sorted_stable_unique l1 :
  forall l2,
    StronglySorted mayPrecede l1 -> StronglySorted mayPrecede l2 ->
    (forall z, List.filter (tie z) l1 = List.filter (tie z) l2) ->
    l1 = l2.
Proof.
  induction l1 as [|a r1 IH]; intros [|b r2] H1 H2 Hf.
  - reflexivity.
  - specialize (Hf b). simpl in Hf. rewrite tie_refl in Hf. discriminate.
  - specialize (Hf a). simpl in Hf. rewrite tie_refl in Hf. discriminate.
  - inversion H1 as [|? ? Hr1 Ha]; subst. inversion H2 as [|? ? Hr2 Hb]; subst.
    assert (Hin : forall x l l', List.filter (tie x) (x :: l) = List.filter (tie x) l' -> In x l').
    { intros x l l' E. simpl in E. rewrite tie_refl in E.
      assert (Hx : In x (List.filter (tie x) l')) by (rewrite <- E; now left).
      apply filter_In in Hx. tauto. }
    assert (Hab : after a b = false).
    { destruct (Hin b r2 (a :: r1) (eq_sym (Hf b))) as [<-|Hb1]; [apply after_irrefl|].
      rewrite List.Forall_forall in Ha. now apply Ha. }
    assert (Hba : after b a = false).
    { destruct (Hin a r1 (b :: r2) (Hf a)) as [<-|Ha2]; [apply after_irrefl|].
      rewrite List.Forall_forall in Hb. now apply Hb. }
    assert (a = b) as <-.
    { specialize (Hf a). simpl in Hf. rewrite tie_refl in Hf.
      unfold tie at 2 in Hf. rewrite Hab, Hba in Hf. simpl in Hf. congruence. }
    f_equal. apply IH; try assumption.
    intros z. specialize (Hf z). simpl in Hf.
    destruct (tie z a); congruence.
Qed.

End SortTheory.

Lemma StronglySorted_weaken {A} (R R' : A -> A -> Prop) l :
  (forall a b, R a b -> R' a b) -> StronglySorted R l -> StronglySorted R' l.
Proof.
  intros HR. induction 1 as [|a r Hr IH Ha]; constructor; [exact IH|].
  eapply List.Forall_impl; [|exact Ha]. intros b. apply HR.
Qed.

Lemma insert_map {A B} (g : A -> B) (afterA : A -> A -> bool) (afterB : B -> B -> bool) x l :
  (forall a b, afterB (g a) (g b) = afterA a b) ->
  JS.insert afterB (g x) (List.map g l) = List.map g (JS.insert afterA x l).
Proof.
  intros Hg. induction l as [|y r IH]; simpl; [reflexivity|].
  rewrite Hg. destruct (afterA x y); simpl; [now rewrite IH|reflexivity].
Qed.

Lemma sort_map {A B} (g : A -> B) (afterA : A -> A -> bool) (afterB : B -> B -> bool) l :
  (forall a b, afterB (g a) (g b) = afterA a b) ->
  JS.sort afterB (List.map g l) = List.map g (JS.sort afterA l).
Proof.
  intros Hg. induction l as [|x r IH]; simpl; [reflexivity|].
  rewrite IH. now apply insert_map.
Qed.

(** Sorting by an integer key, largest first. *)
Section ByKeyZ.

Context {A : Type} (key : A -> Z).

Definition afterZ (x y : A) : bool := key x <? key y.

Lemma afterZ_irrefl x : afterZ x x = false.
Proof. unfold afterZ. lia. Qed.

Lemma afterZ_trans x y z : afterZ x y = true -> afterZ y z = true -> afterZ x z = true.
Proof. unfold afterZ. lia. Qed.

Lemma afterZ_negtrans x y z : afterZ x y = false -> afterZ y z = false -> afterZ x z = false.
Proof. unfold afterZ. lia. Qed.

Lemma tieZ z x : tie afterZ z x = (key x =? key z).
Proof. unfold tie, afterZ. lia. Qed.

Lemma sortZ_sorted l : StronglySorted (fun a b => key b <= key a) (JS.sort afterZ l).
Proof.
  eapply StronglySorted_weaken;
    [|apply sort_sorted; [apply afterZ_irrefl|apply afterZ_trans|apply afterZ_negtrans]].
  unfold mayPrecede, afterZ. intros a b. lia.
Qed.

Lemma sortZ_stable k l :
  List.filter (fun x => key x =? k) (JS.sort afterZ l) = List.filter (fun x => key x =? k) l.
Proof. apply sort_filter. unfold afterZ. intros a b. lia. Qed.

Lemma sortZ_unique l l' :
  StronglySorted (fun a b => key b <= key a) l' ->
  (forall k, List.filter (fun x => key x =? k) l' = List.filter (fun x => key x =? k) l) ->
  l' = JS.sort afterZ l.
Proof.
  intros Hs Hf.
  apply (sorted_stable_unique afterZ afterZ_irrefl).
  - eapply StronglySorted_weaken; [|exact Hs]. unfold mayPrecede, afterZ. intros a b. lia.
  - eapply StronglySorted_weaken; [|apply sortZ_sorted]. unfold mayPrecede, afterZ. intros a b. lia.
  - intros z.
    rewrite (List.filter_ext _ _ (tieZ z) l'), (List.filter_ext _ _ (tieZ z) (JS.sort afterZ l)).
    now rewrite Hf, sortZ_stable.
Qed.

End ByKeyZ.

(** Sorting scored entries by a rational score, largest first. *)
Section ByScoreQ.

Context {A : Type}.

Definition afterQ (a b : A * Q) : bool := useSupabaseData.Qltb (snd a) (snd b).

Lemma Qltb_lt x y : useSupabaseData.Qltb x y = true <-> (x < y)%Q.
Proof.
  unfold useSupabaseData.Qltb. rewrite negb_true_iff.
  destruct (Qle_bool y x) eqn:E.
  - apply Qle_bool_iff in E. split; [discriminate|]. intros H.
    exfalso. eapply Qlt_not_le; eassumption.
  - split; [|reflexivity]. intros _. apply Qnot_le_lt. intros H.
    apply Qle_bool_iff in H. congruence.
Qed.

Lemma Qltb_ge x y : useSupabaseData.Qltb x y = false <-> (y <= x)%Q.
Proof.
  unfold useSupabaseData.Qltb. rewrite negb_false_iff. apply Qle_bool_iff.
Qed.

Lemma afterQ_irrefl x : afterQ x x = false.
Proof. apply Qltb_ge, Qle_refl. Qed.

Lemma afterQ_trans x y z : afterQ x y = true -> afterQ y z = true -> afterQ x z = true.
Proof. unfold afterQ. rewrite !Qltb_lt. apply Qlt_trans. Qed.

Lemma afterQ_negtrans x y z : afterQ x y = false -> afterQ y z = false -> afterQ x z = false.
Proof. unfold afterQ. rewrite !Qltb_ge. intros H1 H2. eapply Qle_trans; eassumption. Qed.

Lemma byScoreDescQ_sorted (l : list (A * Q)) :
  StronglySorted (fun a b => (snd b <= snd a)%Q) (useSupabaseData.byScoreDescQ l).
Proof.
  eapply StronglySorted_weaken;
    [|apply (sort_sorted afterQ afterQ_irrefl afterQ_trans afterQ_negtrans)].
  unfold mayPrecede, afterQ. intros a b. apply Qltb_ge.
Qed.

Lemma byScoreDescQ_perm (l : list (A * Q)) : Permutation (useSupabaseData.byScoreDescQ l) l.
Proof. apply sort_perm. Qed.

End ByScoreQ.

(** ** What a refresh writes *)

Import useSupabaseData.

(** The liked set, the history rows and the converted catalog that
    [fetchSongs] works with, as functions of the store's answers. *)
Definition likedOfRemote (rem : Remote) : gset number :=
  match r_liked rem with
  | Data (Some likedData) => likedSetOf likedData
  | _ => ∅
  end.

Definition historyOfRemote (rem : Remote) : list HistoryRow :=
  match r_history rem with
  | Failure => []
  | Data d => rows d
  end.

Definition convertedOf (rem : Remote) (songsData : option (list DatabaseSong)) : list Song :=
  List.map (fun song => convertDatabaseSong song (has (likedOfRemote rem) (db_file_id song)))
    (rows songsData).

(** [views + likes], the key of the trending view. *)
Definition popularity (s : Song) : Z := views s + likes s.

Lemma fetchSongs_views uid rem st songsData :
  JS.truthy_opt uid = true -> r_songs rem = Data songsData ->
  songs (fetchSongs uid rem st) = convertedOf rem songsData
  /\ personalizedSongs (fetchSongs uid rem st)
     = personalizedSorted (historyOfRemote rem) (convertedOf rem songsData)
  /\ trendingSongs (fetchSongs uid rem st) = trending (convertedOf rem songsData).
Proof.
  intros Hu Hs. unfold fetchSongs, convertedOf, likedOfRemote, historyOfRemote.
  rewrite Hu, Hs. simpl.
  destruct (r_liked rem) as [|[likedData|]], (r_user rem) as [|[[n|]|]]; simpl;
    try (destruct (JS.truthy_num n); simpl);
    try (match goal with |- context [List.find ?f ?l] => destruct (List.find f l) end; simpl);
    repeat split; reflexivity.
Qed.

Lemma fetchSongs_failed uid rem st :
  JS.truthy_opt uid = false \/ r_songs rem = Failure ->
  fetchSongs uid rem st = setTrendingSongs [] (setPersonalizedSongs [] (setSongs [] st)).
Proof.
  unfold fetchSongs. intros [Hu|Hs].
  - now rewrite Hu.
  - rewrite Hs. now destruct (JS.truthy_opt uid).
Qed.

(** ** Trending *)

Lemma trending_sort catalog : trending catalog = firstn 15 (JS.sort (afterZ popularity) catalog).
Proof. reflexivity. Qed.

(** C5.  After a refresh that read the catalog, the trending view is the
    first 15 entries of the ranking of the whole catalog by [views + likes],
    largest first, songs of equal popularity in catalog order.  That
    ranking is the only list with these properties, the view has
    [min 15 (size of the catalog)] songs, and no song left out is more
    popular than a song of the view. *)
Theorem trending_view_top15 uid rem st songsData :
  JS.truthy_opt uid = true -> r_songs rem = Data songsData ->
  let catalog := songs (fetchSongs uid rem st) in
  let view := trendingSongs (fetchSongs uid rem st) in
  length catalog = length (rows songsData)
  /\ length view = Nat.min 15 (length catalog)
  /\ exists ranked,
       view = firstn 15 ranked
       /\ Permutation ranked catalog
       /\ StronglySorted (fun a b => popularity b <= popularity a) ranked
       /\ (forall k, List.filter (fun s => popularity s =? k) ranked
                     = List.filter (fun s => popularity s =? k) catalog)
       /\ (forall ranked',
             StronglySorted (fun a b => popularity b <= popularity a) ranked' ->
             (forall k, List.filter (fun s => popularity s =? k) ranked'
                        = List.filter (fun s => popularity s =? k) catalog) ->
             ranked' = ranked)
       /\ (forall a b, In a view -> In b (skipn 15 ranked) -> popularity b <= popularity a).
Proof.
  intros Hu Hs catalog view.
  destruct (fetchSongs_views uid rem st songsData Hu Hs) as (Hsongs & _ & Htr).
  subst catalog view. rewrite Htr, Hsongs.
  set (catalog := convertedOf rem songsData).
  split; [unfold catalog, convertedOf; now rewrite List.length_map|].
  split.
  { rewrite trending_sort, List.length_firstn, sort_length. reflexivity. }
  exists (JS.sort (afterZ popularity) catalog).
  split; [reflexivity|].
  split; [apply sort_perm|].
  split; [apply sortZ_sorted|].
  split; [intros k; apply sortZ_stable|].
  split; [intros ranked' Hs' Hf; now apply sortZ_unique|].
  intros a b Ha Hb. rewrite trending_sort in Ha.
  pose proof (sortZ_sorted popularity catalog) as Hsorted.
  rewrite <- (firstn_skipn 15 (JS.sort (afterZ popularity) catalog)) in Hsorted.
  revert Ha Hb Hsorted.
  generalize (firstn 15 (JS.sort (afterZ popularity) catalog)) as front.
  generalize (skipn 15 (JS.sort (afterZ popularity) catalog)) as back.
  intros back front. induction front as [|x front IH]; simpl; intros Ha Hb Hsorted; [contradiction|].
  inversion Hsorted as [|? ? Hrest Hx]; subst.
  destruct Ha as [<-|Ha]; [|now apply IH].
  rewrite List.Forall_forall in Hx. apply Hx. apply in_or_app. now right.
Qed.

(** ** Example data *)

Module Ex.

Definition song (i v l : Z) (lang art : string) (tg : list string) : DatabaseSong :=
  {| db_file_id := i; db_img_id := i; db_name := "song"; db_artist := art;
     db_language := lang; db_tags := tg; db_views := v; db_likes := l |}.

Definition played (d : DatabaseSong) (m : Q) : HistoryRow :=
  {| h_song_id := db_file_id d; h_minutes_listened := m; h_songs := Some d |}.

(** A store that answers every read, with the given catalog, liked ids and
    history, no playlist and no last-played song. *)
Definition store (catalog : list DatabaseSong) (liked : list Z) (history : list HistoryRow)
  : Remote :=
  {| r_songs := Data (Some catalog); r_liked := Data (Some liked);
     r_history := Data (Some history); r_user := Data (Some None);
     r_playlists := Data (Some []); r_recent := Data (Some history);
     r_recent_liked := Data (Some liked) |}.

Definition songA := song 1 100 10 "en" "X" ["rock"].
Definition songB := song 2 5 1 "en" "Y" ["rock"].
Definition songC := song 3 50 50 "fr" "Z" ["jazz"].

Definition catalog3 := [songA; songB; songC].

(** Sixteen songs no history mentions. *)
Definition catalog16 : list DatabaseSong :=
  List.map (fun i => song i i 0 "en" "X" []) (List.map Z.of_nat (List.seq 1 16)).

(** Two songs nobody played: the second is liked by the viewer. *)
Definition plain := song 1 0 0 "as" "P" [].
Definition favourite := song 2 0 0 "as" "Q" [].

(** The viewer likes song B. *)
Definition likesB : gset Z := {[2]}.

Definition sessionUser (uid : string) : useAuth.User :=
  {| useAuth.u_id := uid; useAuth.u_email := "a@b.c"; useAuth.u_full_name := None;
     useAuth.u_name := None; useAuth.u_avatar_url := None |}.

Definition localUser (uid : string) : useAuth.LocalUserData :=
  {| useAuth.l_id := uid; useAuth.l_email := "a@b.c"; useAuth.l_username := None;
     useAuth.l_avatar_url := None |}.

End Ex.

Example toString_ex : JS.toString 42 = "42" /\ JS.toString (-7) = "-7" /\ JS.toString 0 = "0".
Proof. repeat split; reflexivity. Qed.

Example parseInt_ex :
  JS.parseInt "42" = Some 42 /\ JS.parseInt " -7px" = Some (-7) /\ JS.parseInt "abc" = None.
Proof. repeat split; reflexivity. Qed.

Example toLowerCase_ex : JS.toLowerCase "Bihu Rock" = "bihu rock".
Proof. reflexivity. Qed.

Example trending_ex :
  List.map id (trendingSongs (fetchSongs (Some "u1") (Ex.store Ex.catalog3 [] []) initialState))
  = ["1"; "3"; "2"].
Proof. reflexivity. Qed.

Lemma trending_view_top15_witness :
  length (trendingSongs (fetchSongs (Some "u1") (Ex.store Ex.catalog3 [] []) initialState))
  = Nat.min 15 (length (songs (fetchSongs (Some "u1") (Ex.store Ex.catalog3 [] []) initialState))).
Proof.
  apply (trending_view_top15 (Some "u1") (Ex.store Ex.catalog3 [] []) initialState
           (Some Ex.catalog3)); reflexivity.
Defined.

(** ** The tag and artist counts of a refresh *)

Lemma includes_In l t : JS.includes l t = true <-> In t l.
Proof.
  unfold JS.includes. rewrite List.existsb_exists. split.
  - intros (x & Hx & E). apply String.eqb_eq in E. now subst.
  - intros H. exists t. split; [exact H|apply String.eqb_refl].
Qed.

Lemma hasStr_list_to_set l t : hasStr (list_to_set l) t = JS.includes l t.
Proof.
  unfold hasStr. destruct (JS.includes l t) eqn:E.
  - apply bool_decide_eq_true. apply elem_of_list_to_set, list_elem_of_In.
    now apply includes_In.
  - apply bool_decide_eq_false. rewrite elem_of_list_to_set, list_elem_of_In.
    intros H. apply includes_In in H. congruence.
Qed.

(** The lower-cased tags, and the lower-cased non-empty artists, of the
    joined songs of some history rows, in the order they are visited. *)
Definition allTags (top : list HistoryRow) : list string :=
  List.flat_map (fun h =>
    match h_songs h with
    | Some songObj => List.map JS.toLowerCase (db_tags songObj)
    | None => []
    end) top.

Definition allArtists (top : list HistoryRow) : list string :=
  List.flat_map (fun h =>
    match h_songs h with
    | Some songObj =>
        if JS.truthy (db_artist songObj) then [JS.toLowerCase (db_artist songObj)] else []
    | None => []
    end) top.

(** A key the counting record treats as a plain object would be expected
    to: not ["__proto__"], and not defined by [Object.prototype]. *)
Definition plainKey (k : string) : Prop :=
  k <> "__proto__" /\ inheritedFunction k = None.

(** Among lower-cased keys the plain ones are all but two. *)
Definition ordinaryKey (k : string) : Prop :=
  k <> "constructor" /\ k <> "__proto__".

(** The number a count stands for; a text stands for none. *)
Definition numOf (c : Count) : Z :=
  match c with Num n => n | Text _ => 0 end.

(** [m[k] || 0], for a numeric count *)
Definition lookupCount (k : string) (m : list (string * Count)) : Z :=
  match List.find (fun e => String.eqb (fst e) k) m with
  | Some e => numOf (snd e)
  | None => 0
  end.

Definition bumpAll (keys : list string) (m : list (string * Count))
  : list (string * Count) :=
  fold_left (fun m k => bump k m) keys m.

(** What an entry of a counting record holds: a positive number, or under
    a key [Object.prototype] defines, a text; never the key ["__proto__"]. *)
Definition held (e : string * Count) : Prop :=
  fst e <> "__proto__"
  /\ match inheritedFunction (fst e) with
     | Some _ => exists t, snd e = Text t /\ JS.truthy t = true
     | None => exists n, snd e = Num n /\ 0 < n
     end.

Definition counted (e : string * Count) : Prop := exists n, snd e = Num n /\ 0 < n.

(** The [n] most frequent of the strings that occur in a list: [n]
    distinct ones, or all when fewer occur, none of which occurs less often
    than one left out. *)
Definition mostFrequent (n : nat) (occurring chosen : list string) : Prop :=
  List.NoDup chosen
  /\ length chosen = Nat.min n (length (List.nodup String.string_dec occurring))
  /\ (forall k, In k chosen -> In k occurring)
  /\ (forall a b, In a chosen -> In b occurring -> ~ In b chosen ->
        (List.count_occ String.string_dec occurring b
         <= List.count_occ String.string_dec occurring a)%nat).

Lemma lower_ascii_idem c : JS.lower_ascii (JS.lower_ascii c) = JS.lower_ascii c.
Proof. destruct c as [[] [] [] [] [] [] [] []]; reflexivity. Qed.

Lemma toLowerCase_idem s : JS.toLowerCase (JS.toLowerCase s) = JS.toLowerCase s.
Proof. induction s as [|c r IH]; simpl; [reflexivity|]. now rewrite lower_ascii_idem, IH. Qed.

Lemma lowered_plain k : JS.toLowerCase k = k -> ordinaryKey k -> plainKey k.
Proof.
  intros Hl [Hc Hp]. split; [exact Hp|].
  unfold inheritedFunction. destruct (JS.includes prototypeFunctions k) eqn:E; [|reflexivity].
  exfalso. apply includes_In in E. unfold prototypeFunctions in E. simpl in E.
  repeat (destruct E as [E|E]; [subst k; try (now apply Hc); discriminate Hl|]).
  exact E.
Qed.

Lemma allTags_lowered top : Forall (fun k => JS.toLowerCase k = k) (allTags top).
Proof.
  apply List.Forall_forall. intros k Hk. unfold allTags in Hk.
  apply List.in_flat_map in Hk as (h & _ & Hk).
  destruct (h_songs h) as [songObj|]; [|contradiction].
  apply List.in_map_iff in Hk as (t & <- & _). apply toLowerCase_idem.
Qed.

Lemma allArtists_lowered top : Forall (fun k => JS.toLowerCase k = k) (allArtists top).
Proof.
  apply List.Forall_forall. intros k Hk. unfold allArtists in Hk.
  apply List.in_flat_map in Hk as (h & _ & Hk).
  destruct (h_songs h) as [songObj|]; [|contradiction].
  destruct (JS.truthy (db_artist songObj)); [|contradiction].
  destruct Hk as [<-|[]]. apply toLowerCase_idem.
Qed.

Lemma ordinary_plain keys :
  Forall (fun k => JS.toLowerCase k = k) keys -> Forall ordinaryKey keys ->
  Forall plainKey keys.
Proof.
  intros Hl Ho. induction Hl as [|k r Hk Hr IH]; constructor; inversion Ho; subst.
  - now apply lowered_plain.
  - now apply IH.
Qed.

Lemma allTags_filter top :
  allTags (List.filter (fun h => match h_songs h with Some _ => true | None => false end) top)
  = allTags top.
Proof.
  induction top as [|h r IH]; simpl; [reflexivity|].
  destruct (h_songs h) as [songObj|] eqn:E; simpl; [now rewrite E, IH|exact IH].
Qed.

Lemma allArtists_filter top :
  allArtists (List.filter (fun h => match h_songs h with Some _ => true | None => false end) top)
  = allArtists top.
Proof.
  induction top as [|h r IH]; simpl; [reflexivity|].
  destruct (h_songs h) as [songObj|] eqn:E; simpl; [now rewrite E, IH|exact IH].
Qed.

Lemma tagCount_bumpAll top : tagCount top = bumpAll (allTags top) [].
Proof.
  unfold tagCount, bumpAll, allTags. generalize (@nil (string * Count)) as m.
  induction top as [|h r IH]; intros m; simpl; [reflexivity|].
  rewrite List.fold_left_app, IH. destruct (h_songs h) as [songObj|]; [|reflexivity].
  f_equal. generalize m. induction (db_tags songObj) as [|t ts IHt]; intros m'; simpl;
    [reflexivity|apply IHt].
Qed.

Lemma artistCount_bumpAll top : artistCount top = bumpAll (allArtists top) [].
Proof.
  unfold artistCount, bumpAll, allArtists. generalize (@nil (string * Count)) as m.
  induction top as [|h r IH]; intros m; simpl; [reflexivity|].
  rewrite List.fold_left_app, IH. destruct (h_songs h) as [songObj|]; [|reflexivity].
  now destruct (JS.truthy (db_artist songObj)).
Qed.

Lemma truthy_app t u : JS.truthy u = true -> JS.truthy (t ++ u) = true.
Proof. destruct t; [now simpl|reflexivity]. Qed.

Lemma plusOne_held k v :
  held (k, v) -> held (k, plusOne v).
Proof.
  unfold held. simpl. intros [Hk H]. split; [exact Hk|].
  destruct (inheritedFunction k).
  - destruct H as (t & -> & Ht). simpl. rewrite Ht. exists (t ++ "1"). split; [reflexivity|].
    now apply truthy_app.
  - destruct H as (n & -> & Hn). simpl.
    replace (JS.truthy_num n) with true by (unfold JS.truthy_num; symmetry; apply negb_true_iff; lia).
    exists (n + 1). split; [reflexivity|lia].
Qed.

Lemma bump_held k m : Forall held m -> Forall held (bump k m).
Proof.
  induction 1 as [|[k1 v] r Hv Hr IH]; simpl.
  - destruct (String.eqb k "__proto__") eqn:Ep; [constructor|].
    apply String.eqb_neq in Ep.
    destruct (inheritedFunction k) as [f|] eqn:Ef;
      (constructor; [|constructor]); unfold held; simpl; rewrite Ef; (split; [exact Ep|]).
    + exists (f ++ "1"). split; [reflexivity|]. now apply truthy_app.
    + exists 1. split; [reflexivity|lia].
  - destruct (String.eqb k k1); constructor; try assumption. now apply plusOne_held.
Qed.

Lemma bump_keys k m :
  List.map fst (bump k m)
  = if JS.includes (List.map fst m) k then List.map fst m
    else if String.eqb k "__proto__" then List.map fst m
    else (List.map fst m ++ [k])%list.
Proof.
  unfold JS.includes. induction m as [|[k1 v] r IH]; simpl.
  - destruct (String.eqb k "__proto__"); [reflexivity|].
    now destruct (inheritedFunction k).
  - destruct (String.eqb k k1) eqn:E; simpl; [reflexivity|].
    rewrite IH. destruct (existsb (String.eqb k) (List.map fst r)); [reflexivity|].
    now destruct (String.eqb k "__proto__").
Qed.

Lemma bump_NoDup k m : List.NoDup (List.map fst m) -> List.NoDup (List.map fst (bump k m)).
Proof.
  intros H. rewrite bump_keys. destruct (JS.includes (List.map fst m) k) eqn:E; [exact H|].
  destruct (String.eqb k "__proto__"); [exact H|].
  eapply Permutation_NoDup; [apply Permutation_cons_append|].
  constructor; [|exact H]. intros Hin. apply includes_In in Hin. congruence.
Qed.

Lemma bump_lookup k k' m :
  Forall held m -> plainKey k ->
  lookupCount k (bump k' m) = lookupCount k m + (if String.eqb k' k then 1 else 0).
Proof.
  intros Hm [Hp Hi]. unfold lookupCount. induction Hm as [|[k1 v] r Hv Hr IH]; simpl.
  - destruct (String.eqb k' k) eqn:E.
    + apply String.eqb_eq in E. subst k'.
      replace (String.eqb k "__proto__") with false by (symmetry; now apply String.eqb_neq).
      rewrite Hi. simpl. now rewrite String.eqb_refl.
    + destruct (String.eqb k' "__proto__"); [reflexivity|].
      destruct (inheritedFunction k'); simpl; now rewrite E.
  - destruct (String.eqb k' k1) eqn:E1; simpl.
    + apply String.eqb_eq in E1. subst k1.
      destruct (String.eqb k' k) eqn:E; [|lia].
      apply String.eqb_eq in E. subst k'. destruct Hv as [_ Hv]. simpl in Hv.
      rewrite Hi in Hv. destruct Hv as (n & -> & Hn). simpl.
      replace (JS.truthy_num n) with true
        by (unfold JS.truthy_num; symmetry; apply negb_true_iff; lia).
      reflexivity.
    + destruct (String.eqb k1 k) eqn:E2; [|exact IH].
      apply String.eqb_eq in E2. subst k1. rewrite E1. lia.
Qed.

Lemma bumpAll_facts keys : forall m,
  List.NoDup (List.map fst m) -> Forall held m ->
  List.NoDup (List.map fst (bumpAll keys m))
  /\ Forall held (bumpAll keys m)
  /\ (forall k, plainKey k ->
        lookupCount k (bumpAll keys m)
        = lookupCount k m + Z.of_nat (List.count_occ String.string_dec keys k))
  /\ (forall k, In k (List.map fst (bumpAll keys m))
                <-> In k (List.map fst m) \/ (In k keys /\ k <> "__proto__")).
Proof.
  unfold bumpAll. induction keys as [|k' r IH]; intros m Hn Hp; simpl.
  - repeat split; try assumption; [intros; lia|tauto|tauto].
  - destruct (IH (bump k' m) (bump_NoDup k' m Hn) (bump_held k' m Hp))
      as (H1 & H2 & H3 & H4).
    repeat split; try assumption.
    + intros k Hk. rewrite (H3 k Hk), (bump_lookup k k' m Hp Hk).
      destruct (String.string_dec k' k) as [->|Hne].
      * rewrite String.eqb_refl. lia.
      * apply String.eqb_neq in Hne. rewrite Hne. lia.
    + intros H. apply H4 in H as [H|H]; [|tauto].
      rewrite bump_keys in H. destruct (JS.includes (List.map fst m) k'); [tauto|].
      destruct (String.eqb k' "__proto__") eqn:Ep; [tauto|].
      apply String.eqb_neq in Ep.
      apply in_app_or in H as [H|[<-|[]]]; [tauto|]. right. split; [now left|exact Ep].
    + intros H. apply H4. rewrite bump_keys.
      destruct (JS.includes (List.map fst m) k') eqn:E.
      * destruct H as [H|[[<-|H] Hk]]; [tauto| |tauto]. left. now apply includes_In.
      * destruct (String.eqb k' "__proto__") eqn:Ep.
        -- apply String.eqb_eq in Ep. destruct H as [H|[[<-|H] Hk]]; [tauto| |tauto].
           now contradiction Hk.
        -- destruct H as [H|[[<-|H] Hk]]; [| |tauto]; left; apply in_or_app; [tauto|].
           right. now left.
Qed.

Lemma held_plain_counted m :
  Forall held m -> Forall plainKey (List.map fst m) -> Forall counted m.
Proof.
  intros Hh Hp. apply List.Forall_forall. intros e He.
  rewrite List.Forall_forall in Hh, Hp.
  destruct (Hh e He) as [_ H]. destruct (Hp (fst e) (List.in_map fst m e He)) as [_ Hi].
  now rewrite Hi in H.
Qed.

Lemma filter_split_perm {A} (f : A -> bool) l :
  Permutation (List.filter f l ++ List.filter (fun x => negb (f x)) l) l.
Proof.
  induction l as [|x r IH]; simpl; [constructor|].
  destruct (f x); simpl.
  - now constructor.
  - symmetry. apply Permutation_cons_app. now symmetry.
Qed.

Lemma entries_perm {V} (m : list (string * V)) : Permutation (entries m) m.
Proof.
  unfold entries. etransitivity; [|apply (filter_split_perm isIndex)].
  apply Permutation_app_tail, sort_perm.
Qed.

Lemma In_firstn {A} n (l : list A) x : In x (firstn n l) -> In x l.
Proof.
  intros H. rewrite <- (firstn_skipn n l). apply in_or_app. now left.
Qed.

Lemma sorted_prefix_dominates {A} (R : A -> A -> Prop) n l a b :
  StronglySorted R l -> In a (firstn n l) -> In b (skipn n l) -> R a b.
Proof.
  intros Hs. rewrite <- (firstn_skipn n l) in Hs. revert Hs.
  generalize (firstn n l) as front. generalize (skipn n l) as back.
  intros back front. induction front as [|x front IH]; simpl; intros Hs Ha Hb; [contradiction|].
  inversion Hs as [|? ? Hrest Hx]; subst.
  destruct Ha as [<-|Ha]; [|now apply IH].
  rewrite List.Forall_forall in Hx. apply Hx, in_or_app. now right.
Qed.

Lemma lookupCount_entry k v m :
  List.NoDup (List.map fst m) -> In (k, v) m -> lookupCount k m = numOf v.
Proof.
  unfold lookupCount. induction m as [|[k1 n1] r IH]; simpl; intros Hn Hin; [contradiction|].
  inversion Hn as [|? ? Hk1 Hr]; subst.
  destruct Hin as [[= -> ->]|Hin].
  - now rewrite String.eqb_refl.
  - destruct (String.eqb k1 k) eqn:E; [|now apply IH].
    apply String.eqb_eq in E. subst k1. exfalso. apply Hk1.
    apply List.in_map_iff. now exists (k, v).
Qed.

(** Two comparators that agree on the elements of a list sort it alike. *)
Lemma insert_ext_in {A} (after after' : A -> A -> bool) x l :
  (forall y, In y l -> after x y = after' x y) ->
  JS.insert after x l = JS.insert after' x l.
Proof.
  induction l as [|y r IH]; intros H; simpl; [reflexivity|].
  rewrite (H y) by now left. destruct (after' x y); [|reflexivity].
  f_equal. apply IH. intros z Hz. apply H. now right.
Qed.

Lemma sort_ext_in {A} (after after' : A -> A -> bool) l :
  (forall x y, In x l -> In y l -> after x y = after' x y) ->
  JS.sort after l = JS.sort after' l.
Proof.
  induction l as [|x r IH]; intros H; simpl; [reflexivity|].
  rewrite IH by (intros a b Ha Hb; apply H; now right).
  apply insert_ext_in. intros y Hy. apply H; [now left|].
  right. eapply Permutation_in; [apply sort_perm|exact Hy].
Qed.

(** The entries of a record of numbers ranked by count, largest first. *)
Definition rankedEntries (m : list (string * Count)) : list (string * Count) :=
  JS.sort (afterZ (fun e => numOf (snd e))) (entries m).

Lemma mostCommon_ranked m :
  Forall counted m -> mostCommon m = List.map fst (firstn 5 (rankedEntries m)).
Proof.
  intros Hc. unfold mostCommon, rankedEntries. do 2 f_equal.
  apply sort_ext_in. intros a b Ha Hb.
  rewrite List.Forall_forall in Hc.
  destruct (Hc a (Permutation_in _ (entries_perm m) Ha)) as (x & Ex & _).
  destruct (Hc b (Permutation_in _ (entries_perm m) Hb)) as (y & Ey & _).
  unfold afterZ. now rewrite Ex, Ey.
Qed.

Lemma rankedEntries_perm m : Permutation (rankedEntries m) m.
Proof. unfold rankedEntries. rewrite sort_perm. apply entries_perm. Qed.

Lemma mostCommon_length m : (length (mostCommon m) <= 5)%nat.
Proof.
  unfold mostCommon. rewrite List.length_map, List.length_firstn. apply Nat.le_min_l.
Qed.

Lemma mostCommon_facts m :
  List.NoDup (List.map fst m) -> Forall counted m ->
  length (mostCommon m) = Nat.min 5 (length m)
  /\ List.NoDup (mostCommon m)
  /\ (forall k, In k (mostCommon m) -> In k (List.map fst m))
  /\ (forall a b, In a (mostCommon m) -> In b (List.map fst m) -> ~ In b (mostCommon m) ->
        lookupCount b m <= lookupCount a m).
Proof.
  intros Hn Hc. rewrite (mostCommon_ranked m Hc).
  pose proof (rankedEntries_perm m) as Hp.
  assert (HnR : List.NoDup (List.map fst (rankedEntries m))).
  { eapply Permutation_NoDup; [|exact Hn]. symmetry. now apply Permutation_map. }
  split.
  { rewrite List.length_map, List.length_firstn. now rewrite (Permutation_length Hp). }
  split.
  { rewrite <- List.firstn_map.
    rewrite <- (firstn_skipn 5 (List.map fst (rankedEntries m))) in HnR.
    eapply List.NoDup_app_remove_r; exact HnR. }
  split.
  { intros k Hk. apply List.in_map_iff in Hk as (e & <- & He).
    apply List.in_map. eapply Permutation_in; [exact Hp|]. eapply In_firstn; exact He. }
  intros a b Ha Hb Hnb.
  apply List.in_map_iff in Ha as ([ka na] & <- & Hea).
  apply List.in_map_iff in Hb as ([kb nb] & <- & Heb). simpl in *.
  assert (HaM : In (ka, na) m).
  { eapply Permutation_in; [exact Hp|]. eapply In_firstn; exact Hea. }
  rewrite (lookupCount_entry ka na m Hn HaM), (lookupCount_entry kb nb m Hn Heb).
  assert (HbR : In (kb, nb) (rankedEntries m)).
  { eapply Permutation_in; [symmetry; exact Hp|exact Heb]. }
  rewrite <- (firstn_skipn 5 (rankedEntries m)) in HbR.
  apply in_app_or in HbR as [HbF|HbS].
  - exfalso. apply Hnb. apply List.in_map_iff. now exists (kb, nb).
  - apply (sorted_prefix_dominates
             (fun x y => numOf (snd y) <= numOf (snd x)) 5 (rankedEntries m)
             (ka, na) (kb, nb)); [apply (sortZ_sorted (fun e => numOf (snd e)))|exact Hea|exact HbS].
Qed.

Lemma distinct_length (l all : list string) :
  List.NoDup l -> (forall k, In k l <-> In k all) ->
  length l = length (List.nodup String.string_dec all).
Proof.
  intros Hn Hi. apply Permutation_length, Permutation.NoDup_Permutation; [exact Hn|apply List.NoDup_nodup|].
  intros k. rewrite List.nodup_In. apply Hi.
Qed.

(** On plain keys the five keys the code picks are five most frequent
    ones. *)
Lemma mostCommon_mostFrequent keys :
  Forall plainKey keys -> mostFrequent 5 keys (mostCommon (bumpAll keys [])).
Proof.
  intros Hk.
  destruct (bumpAll_facts keys [] (List.NoDup_nil _) (List.Forall_nil _))
    as (H1 & H2 & H3 & H4).
  assert (Hin : forall k, In k (List.map fst (bumpAll keys [])) <-> In k keys).
  { intros k. rewrite H4. simpl. split; [tauto|]. intros H. right. split; [exact H|].
    rewrite List.Forall_forall in Hk. apply (Hk k H). }
  assert (Hc : Forall counted (bumpAll keys [])).
  { apply held_plain_counted; [exact H2|]. apply List.Forall_forall. intros k Hkk.
    rewrite List.Forall_forall in Hk. apply Hk, Hin, Hkk. }
  destruct (mostCommon_facts (bumpAll keys []) H1 Hc) as (L & N & I & D).
  split; [exact N|]. split.
  { rewrite L. f_equal. rewrite <- (List.length_map fst). now apply distinct_length. }
  split; [intros k Hkk; apply Hin, I, Hkk|].
  intros a b Ha Hb Hnb.
  assert (Hb' : In b (List.map fst (bumpAll keys []))) by now apply Hin.
  pose proof (D a b Ha Hb' Hnb) as H.
  rewrite List.Forall_forall in Hk.
  assert (Ha' : In a keys) by apply Hin, I, Ha.
  rewrite (H3 a (Hk a Ha')), (H3 b (Hk b Hb)) in H.
  unfold lookupCount in H. simpl in H. lia.
Qed.

(** ** The personalized view of a refresh *)

(** The score the specification words for history-batch mode; [jitter] is
    the random term and [liked] says whether the viewer likes the song. *)
Definition specBatchScore (Math_log : Q -> Q)
    (batchTags batchArtists batchLanguages : list string) (liked : bool) (jitter : Q)
    (c : Song) : Q :=
  (inject_Z (Z.of_nat (length
      (List.filter (fun t => JS.includes batchTags t) (List.map JS.toLowerCase (tags c))))) * 25
   + (if JS.includes batchArtists (JS.toLowerCase (artist c)) then 30 else 0)
   + (if JS.includes batchLanguages (language c) then 15 else 0)
   + Math_log (1 + inject_Z (likes c)) * 2
   + Math_log (1 + inject_Z (views c)) * 1
   + (if liked then 10 else 0)
   + jitter)%Q.

Lemma personalizedSorted_sort history catalog :
  personalizedSorted history catalog
  = JS.sort
      (afterZ (refreshScore (mostCommon (tagCount (topHistory history)))
                            (mostCommon (artistCount (topHistory history)))))
      (List.filter (fun s => negb (hasStr (historySongIds history) (id s))) catalog).
Proof.
  unfold personalizedSorted, byScoreDesc.
  erewrite sort_map; [|intros a b; reflexivity].
  rewrite List.map_map. simpl. apply List.map_id.
Qed.

(** C2, as the claim words it, fails.  With sixteen songs and no history
    the view holds sixteen songs, not fifteen; and of two songs that
    differ only in being liked, the claim's score puts the liked one
    first whatever the logarithm and the random terms are, while the view
    keeps the catalog order. *)
Lemma personalized_view_counterexample :
  length (personalizedSongs
            (fetchSongs (Some "u1") (Ex.store Ex.catalog16 [] []) initialState)) = 16%nat
  /\ List.map id (personalizedSongs
        (fetchSongs (Some "u1") (Ex.store [Ex.plain; Ex.favourite] [2] []) initialState))
     = ["1"; "2"]
  /\ (forall (Math_log : Q -> Q) (j1 j2 : Q),
        (0 <= j1 < 2)%Q -> (0 <= j2 < 2)%Q ->
        (specBatchScore Math_log [] [] [] false j1 (convertDatabaseSong Ex.plain false)
         < specBatchScore Math_log [] [] [] true j2 (convertDatabaseSong Ex.favourite true))%Q).
Proof.
  split; [reflexivity|]. split; [reflexivity|].
  intros Math_log j1 j2 H1 H2. unfold specBatchScore. simpl.
  set (x := Math_log (1 + inject_Z 0)%Q). lra.
Qed.

Lemma refreshScore_eq commonTags commonArtists s :
  refreshScore commonTags commonArtists s
  = 10 * Z.of_nat (length (List.filter (fun t => JS.includes commonTags t)
                             (List.map JS.toLowerCase (tags s))))
    + (if JS.truthy (artist s) && JS.includes commonArtists (JS.toLowerCase (artist s))
       then 20 else 0)
    + views s + likes s.
Proof.
  unfold refreshScore.
  destruct (JS.truthy (artist s) && JS.includes commonArtists (JS.toLowerCase (artist s))); lia.
Qed.

(** C2, amended.  After a refresh that read the catalog, the personalized
    view holds every catalog song whose id is not in the history, none cut
    off, ranked by an integer score, largest first and equal scores in
    catalog order.  The score is 10 for each of the song's lower-cased tags
    among five most frequent tags of the joined songs of the first 15
    history rows (all their tags when fewer than five occur), plus 20 when
    its lower-cased artist is among five most frequent artists of those
    songs, plus views plus likes.  This holds when none of those tags and
    artists is, in lower case, [constructor] or [__proto__], the two keys
    the counting record does not count. *)
Theorem personalized_view_refresh uid rem st songsData :
  JS.truthy_opt uid = true -> r_songs rem = Data songsData ->
  let history := historyOfRemote rem in
  let batchTags := allTags (firstn 15 history) in
  let batchArtists := allArtists (firstn 15 history) in
  Forall ordinaryKey batchTags -> Forall ordinaryKey batchArtists ->
  let catalog := songs (fetchSongs uid rem st) in
  let candidates :=
    List.filter
      (fun s => negb (JS.includes (List.map (fun h => JS.toString (h_song_id h)) history) (id s)))
      catalog in
  let view := personalizedSongs (fetchSongs uid rem st) in
  exists commonTags commonArtists,
    mostFrequent 5 batchTags commonTags
    /\ mostFrequent 5 batchArtists commonArtists
    /\ (let score := fun s =>
          10 * Z.of_nat (length (List.filter (fun t => JS.includes commonTags t)
                                   (List.map JS.toLowerCase (tags s))))
          + (if JS.truthy (artist s) && JS.includes commonArtists (JS.toLowerCase (artist s))
             then 20 else 0)
          + views s + likes s in
        Permutation view candidates
        /\ length view = length candidates
        /\ StronglySorted (fun a b => score b <= score a) view
        /\ (forall k, List.filter (fun s => score s =? k) view
                      = List.filter (fun s => score s =? k) candidates)).
Proof.
  intros Hu Hs history batchTags batchArtists HT HA catalog candidates view.
  destruct (fetchSongs_views uid rem st songsData Hu Hs) as (Hsongs & Hpers & _).
  exists (mostCommon (tagCount (topHistory history))),
         (mostCommon (artistCount (topHistory history))).
  split.
  { rewrite tagCount_bumpAll. unfold topHistory. rewrite allTags_filter.
    apply mostCommon_mostFrequent, ordinary_plain; [apply allTags_lowered|exact HT]. }
  split.
  { rewrite artistCount_bumpAll. unfold topHistory. rewrite allArtists_filter.
    apply mostCommon_mostFrequent, ordinary_plain; [apply allArtists_lowered|exact HA]. }
  intros score.
  assert (Hview : view = JS.sort (afterZ score) candidates).
  { subst view candidates catalog. rewrite Hpers, Hsongs, personalizedSorted_sort.
    fold history. unfold historySongIds.
    rewrite (List.filter_ext _ _
               (fun s => f_equal negb (hasStr_list_to_set
                  (List.map (fun h => JS.toString (h_song_id h)) history) (id s)))).
    apply sort_ext_in. intros a b _ _. unfold afterZ, score. now rewrite !refreshScore_eq. }
  rewrite Hview.
  split; [apply sort_perm|].
  split; [apply sort_length|].
  split; [apply sortZ_sorted|].
  intros k. apply sortZ_stable.
Qed.

Lemma personalized_view_refresh_witness :
  exists commonTags commonArtists,
    mostFrequent 5 ["rock"] commonTags /\ mostFrequent 5 ["x"] commonArtists.
Proof.
  destruct (personalized_view_refresh (Some "u1")
              (Ex.store Ex.catalog3 [2] [Ex.played Ex.songA 3]) initialState
              (Some Ex.catalog3) eq_refl eq_refl)
    as (commonTags & commonArtists & HT & HA & _).
  - repeat constructor; discriminate.
  - repeat constructor; discriminate.
  - exists commonTags, commonArtists. split; assumption.
Defined.

Example personalized_view_ex :
  List.map id (personalizedSongs (fetchSongs (Some "u1")
     (Ex.store Ex.catalog3 [2] [Ex.played Ex.songA 3]) initialState)) = ["3"; "2"]
  /\ List.map (refreshScore ["rock"] ["x"])
       (songs (fetchSongs (Some "u1")
          (Ex.store Ex.catalog3 [2] [Ex.played Ex.songA 3]) initialState)) = [140; 16; 100].
Proof. split; reflexivity. Qed.

(** Fifteen history rows count, the sixteenth does not.  Song 1 carries
    the tag [zeta] and song 2 is the more viewed one; the history holds
    sixteen other songs, one of them tagged [zeta]. *)
Definition untagged (n : nat) : list HistoryRow :=
  List.map (fun i => Ex.played (Ex.song (100 + Z.of_nat i) 0 0 "en" "" []) 1) (List.seq 1 n).

Definition tagged : HistoryRow := Ex.played (Ex.song 200 0 0 "en" "" ["Zeta"]) 1.

Example top15_ex :
  let catalog := [Ex.song 1 0 0 "en" "P" ["zeta"]; Ex.song 2 5 0 "en" "Q" []] in
  List.map id (personalizedSongs (fetchSongs (Some "u1")
     (Ex.store catalog [] (untagged 14 ++ [tagged] ++ untagged 1)) initialState)) = ["1"; "2"]
  /\ List.map id (personalizedSongs (fetchSongs (Some "u1")
       (Ex.store catalog [] (untagged 15 ++ [tagged])) initialState)) = ["2"; "1"].
Proof. split; reflexivity. Qed.

(** The two keys a plain object does not count.  A tag [__proto__] is never
    stored, and a tag [constructor] is stored once, with a text for a
    count, however often either occurs. *)
Example special_keys_ex :
  tagCount [Ex.played (Ex.song 1 0 0 "en" "X" ["__proto__"; "Constructor"; "rock"]) 1;
            Ex.played (Ex.song 2 0 0 "en" "Y" ["constructor"; "__proto__"; "Rock"]) 1]
  = [("constructor", Text "function Object() { [native code] }11"); ("rock", Num 2)].
Proof. reflexivity. Qed.

(** ** Seed-song mode *)

Lemma mapi_from_length {A B} (f : nat -> A -> B) l :
  forall i, length (JS.mapi_from i f l) = length l.
Proof. induction l as [|x r IH]; intros i; simpl; [reflexivity|now rewrite IH]. Qed.

Lemma mapi_from_Forall2 {A B} (R : A -> B -> Prop) (f : nat -> A -> B) l :
  (forall i x, In x l -> R x (f i x)) ->
  forall i, Forall2 R l (JS.mapi_from i f l).
Proof.
  induction l as [|x r IH]; intros H i; simpl; constructor.
  - apply H. now left.
  - apply IH. intros j y Hy. apply H. now right.
Qed.

(** The catalog, the liked set and the minutes a recommendation call works
    with: the caches when they are filled, the store's answers otherwise. *)
Definition catalogUsed (songsR : Response (list DatabaseSong)) (st : State)
  : list DatabaseSong :=
  match songsFromCache songsR st with
  | Some (songsData, _) => songsData
  | None => []
  end.

Definition likedUsed (likedR : Response (list Z)) (st : State) : gset Z :=
  match likedSongsCache st with
  | Some userLikedSongs => userLikedSongs
  | None => likedOfResponse likedR
  end.

Definition minutesUsed (historyR : Response (list HistoryRow)) : gmap Z Q :=
  match historyR with
  | Data (Some historyData) => historyMapOf historyData
  | _ => ∅
  end.





Lemma likedFromCache_fst likedR songsR st songsData st1 :
  songsFromCache songsR st = Some (songsData, st1) ->
  fst (likedFromCache likedR st1) = likedUsed likedR st.
Proof.
  unfold songsFromCache, likedFromCache, likedUsed.
  destruct (songsCache st) as [cached|].
  - intros [= <- <-]. now destruct (likedSongsCache st).
  - destruct songsR as [|[[|d0 dr]|]]; try discriminate.
    intros [= <- <-]. simpl. now destruct (likedSongsCache st).
Qed.

Lemma getPersonalizedSongs_result Math_log random userId currentSong listened
    songsR historyR likedR st :
  fst (getPersonalizedSongs Math_log random userId currentSong listened songsR historyR likedR st)
  = List.map fst (firstn 10 (byScoreDescQ
      (seedScored Math_log random currentSong (minutesUsed historyR) (likedUsed likedR st)
         (seedAvailable currentSong listened (catalogUsed songsR st))))).
Proof.
  unfold getPersonalizedSongs, catalogUsed.
  destruct (songsFromCache songsR st) as [[songsData st1]|] eqn:Hc; [|reflexivity].
  rewrite <- (likedFromCache_fst likedR songsR st songsData st1 Hc).
  destruct (likedFromCache likedR st1) as [userLikedSongs st2]. simpl.
  fold (minutesUsed historyR).
  destruct (seedAvailable currentSong listened songsData); reflexivity.
Qed.





(** What a recommendation call works with, from what the caches hold and
    the store answers. *)
Lemma catalogUsed_eq songsR st catalog :
  songsCache st = Some catalog
  \/ (songsCache st = None /\ songsR = Data (Some catalog) /\ catalog <> []) ->
  catalogUsed songsR st = catalog.
Proof.
  unfold catalogUsed, songsFromCache. intros [->|(-> & -> & Hne)]; [reflexivity|].
  destruct catalog; [contradiction|reflexivity].
Qed.





Example seed_score_ex :
  List.map (fun e => (id (fst e), isLiked (fst e), snd e))
    (seedScored (fun q => q) (fun _ => 1 # 2) (convertDatabaseSong Ex.songA false)
       (historyMapOf [Ex.played Ex.songB 1; Ex.played Ex.songB 3]) {[2]} [Ex.songB])
  = [("2", true, (15 + 10 + 6 + (1 + 1) * 2 + (1 + 5) * 1 + 8 + (1 # 2) * 3)%Q)].
Proof. vm_compute. reflexivity. Qed.

(** The end-to-end example of the specification: with seed A, song C is
    dropped for its language and A for being the seed. *)
Example seed_mode_ex :
  List.map id (fst (getPersonalizedSongs (fun q => q) (fun _ => 1 # 2) "u1"
                      (convertDatabaseSong Ex.songA false) None
                      (Data (Some Ex.catalog3)) (Data (Some [])) (Data (Some [])) initialState))
  = ["2"].
Proof. reflexivity. Qed.

(** ** The hard filters *)

Lemma mapi_from_In {A B} (f : nat -> A -> B) l e :
  forall i, In e (JS.mapi_from i f l) -> exists j x, In x l /\ e = f j x.
Proof.
  induction l as [|x r IH]; intros i; simpl; [contradiction|].
  intros [<-|H].
  - exists i, x. split; [now left|reflexivity].
  - destruct (IH _ H) as (j & y & Hy & ->). exists j, y. split; [now right|reflexivity].
Qed.

(** A song of [map fst (firstn n (sort (mapi f l)))] is the first component
    of [f j x] for some [x] of [l]. *)
Lemma ranked_In {A} (f : nat -> A -> Song * Q) n l s :
  In s (List.map fst (firstn n (byScoreDescQ (JS.mapi f l)))) ->
  exists j x, In x l /\ s = fst (f j x).
Proof.
  intros H. apply List.in_map_iff in H as (e & <- & He).
  apply In_firstn in He.
  apply (Permutation_in _ (byScoreDescQ_perm _)) in He.
  destruct (mapi_from_In f l e 0 He) as (j & x & Hx & ->). eauto.
Qed.

Lemma seedAvailable_In currentSong listened songsData c :
  In c (seedAvailable currentSong listened songsData) ->
  In c songsData
  /\ db_language c = language currentSong
  /\ db_file_id c <> file_id currentSong
  /\ match listened with
     | Some excluded => JS.toString (db_file_id c) ∉ excluded
     | None => True
     end.
Proof.
  unfold seedAvailable. rewrite List.filter_In. intros [Hin H].
  split; [exact Hin|].
  destruct (db_file_id c =? file_id currentSong) eqn:Hid; [discriminate|].
  destruct (String.eqb (db_language c) (language currentSong)) eqn:Hl;
    [|destruct listened as [excluded|];
      [destruct (hasStr excluded (JS.toString (db_file_id c)))|]; discriminate].
  apply String.eqb_eq in Hl. apply Z.eqb_neq in Hid.
  split; [exact Hl|]. split; [exact Hid|].
  destruct listened as [excluded|]; [|exact I].
  unfold hasStr in H. destruct (bool_decide (JS.toString (db_file_id c) ∈ excluded)) eqn:Hb;
    [discriminate|].
  now apply bool_decide_eq_false in Hb.
Qed.

Lemma smartAvailable_In languageFilter excludeSongs songsData c :
  In c (smartAvailable languageFilter excludeSongs songsData) ->
  In c songsData
  /\ db_language c = languageFilter
  /\ JS.toString (db_file_id c) ∉ excludeSongs.
Proof.
  unfold smartAvailable. rewrite List.filter_In. intros [Hin H].
  apply andb_prop in H as [Hx Hl]. apply String.eqb_eq in Hl.
  apply negb_true_iff in Hx. unfold hasStr in Hx. apply bool_decide_eq_false in Hx.
  auto.
Qed.

Lemma getSmartPersonalizedSongs_result Math_log random userId batch excludeSongs
    songsR likedR st :
  fst (getSmartPersonalizedSongs Math_log random userId batch excludeSongs songsR likedR st)
  = match batch with
    | [] => []
    | first :: _ =>
        List.map fst (firstn 15 (byScoreDescQ
          (JS.mapi (fun i song =>
             (convertDatabaseSong song (hasZ (likedUsed likedR st) (db_file_id song)),
              smartScore Math_log random batch (likedUsed likedR st) i song))
             (smartAvailable (language first) excludeSongs (catalogUsed songsR st)))))
    end.
Proof.
  unfold getSmartPersonalizedSongs, catalogUsed.
  destruct batch as [|first rest]; [reflexivity|].
  destruct (songsFromCache songsR st) as [[songsData st1]|] eqn:Hc; [|reflexivity].
  rewrite <- (likedFromCache_fst likedR songsR st songsData st1 Hc).
  destruct (likedFromCache likedR st1) as [userLikedSongs st2]. simpl.
  destruct (smartAvailable (language first) excludeSongs songsData); reflexivity.
Qed.

Lemma personalizedSorted_In history catalog s :
  In s (personalizedSorted history catalog) ->
  In s catalog /\ id s ∉ historySongIds history.
Proof.
  rewrite personalizedSorted_sort. intros H.
  apply (Permutation_in _ (sort_perm _ _)) in H.
  apply List.filter_In in H as [Hin Hx]. split; [exact Hin|].
  apply negb_true_iff in Hx. unfold hasStr in Hx. now apply bool_decide_eq_false in Hx.
Qed.

(** C4, as the claim words it, fails.  The personalized view of a refresh
    applies no language filter: with song A (language en) as the only
    history entry, the view holds song C (language fr).  And seed-song mode
    does not exclude what is in the stored history: song B, played for 3
    minutes, is returned for seed A. *)
Lemma personalized_filter_counterexample :
  List.map language
    (personalizedSongs (fetchSongs (Some "u1")
       (Ex.store Ex.catalog3 [] [Ex.played Ex.songA 3]) initialState)) = ["fr"; "en"]
  /\ db_language Ex.songA = "en"
  /\ List.map id
       (fst (getPersonalizedSongs (fun q => q) (fun _ => 1 # 2) "u1"
               (convertDatabaseSong Ex.songA false) None
               (Data (Some Ex.catalog3)) (Data (Some [Ex.played Ex.songB 3]))
               (Data (Some [])) initialState)) = ["2"]
  /\ "2" ∈ historySongIds [Ex.played Ex.songB 3].
Proof.
  split; [reflexivity|]. split; [reflexivity|]. split; [reflexivity|].
  unfold historySongIds. simpl. set_solver.
Qed.

(** C4, amended.  Seed-song mode returns only songs in the seed's language,
    other than the seed, and outside the exclusion set the caller passed;
    the batch mode returns only songs in the language of the first song of
    the batch and outside its exclusion set; in both, every returned song
    is a candidate that passed the filter, which runs before scoring.  The
    personalized view of a refresh holds only songs whose id is not in the
    history. *)
Theorem personalized_filters Math_log random userId currentSong listened
    batch excludeSongs songsR historyR likedR uid rem st :
  Forall (fun s =>
            language s = language currentSong
            /\ file_id s <> file_id currentSong
            /\ match listened with Some excluded => id s ∉ excluded | None => True end
            /\ exists c, In c (seedAvailable currentSong listened (catalogUsed songsR st))
                 /\ s = convertDatabaseSong c (hasZ (likedUsed likedR st) (db_file_id c)))
    (fst (getPersonalizedSongs Math_log random userId currentSong listened
            songsR historyR likedR st))
  /\ Forall (fun s =>
               (id s ∉ excludeSongs)
               /\ exists first, List.head batch = Some first
                    /\ language s = language first
                    /\ exists c, In c (smartAvailable (language first) excludeSongs
                                         (catalogUsed songsR st))
                         /\ s = convertDatabaseSong c (hasZ (likedUsed likedR st) (db_file_id c)))
       (fst (getSmartPersonalizedSongs Math_log random userId batch excludeSongs
               songsR likedR st))
  /\ Forall (fun s => id s ∉ historySongIds (historyOfRemote rem))
       (personalizedSongs (fetchSongs uid rem st)).
Proof.
  split; [|split]; apply List.Forall_forall; intros s Hs.
  - rewrite getPersonalizedSongs_result in Hs.
    apply ranked_In in Hs as (j & c & Hc & ->). simpl.
    destruct (seedAvailable_In _ _ _ _ Hc) as (_ & Hl & Hid & Hx).
    repeat split; try assumption. now exists c.
  - rewrite getSmartPersonalizedSongs_result in Hs.
    destruct batch as [|first rest]; [contradiction|].
    apply ranked_In in Hs as (j & c & Hc & ->). simpl.
    destruct (smartAvailable_In _ _ _ _ Hc) as (_ & Hl & Hx).
    split; [exact Hx|]. exists first. repeat split; try assumption. now exists c.
  - destruct (JS.truthy_opt uid) eqn:Hu; [destruct (r_songs rem) as [|songsData] eqn:Hr|].
    + rewrite fetchSongs_failed in Hs by now right. contradiction.
    + destruct (fetchSongs_views uid rem st songsData Hu Hr)
        as (_ & Hp & _).
      rewrite Hp in Hs. now apply personalizedSorted_In in Hs.
    + rewrite fetchSongs_failed in Hs by now left. contradiction.
Qed.

(** ** Doubles *)

(** 2^53 *)
Definition two53 : Q := 9007199254740992.

Lemma pow2_pos e : (0 < JS.pow2 e)%Q.
Proof. unfold JS.pow2. apply Qpower_0_lt. reflexivity. Qed.

Lemma pow2_add a b : (JS.pow2 (a + b) == JS.pow2 a * JS.pow2 b)%Q.
Proof. unfold JS.pow2. apply Qpower_plus. discriminate. Qed.

Lemma pow2_Z a : 0 <= a -> (JS.pow2 a == inject_Z (2 ^ a))%Q.
Proof. intros H. unfold JS.pow2. now rewrite Zpower_Qpower. Qed.

Lemma Qle_bool_false x y : Qle_bool x y = false -> (y < x)%Q.
Proof.
  intros H. apply Qnot_le_lt. intros Hle. apply Qle_bool_iff in Hle. congruence.
Qed.

Lemma ilog2_le q : (0 < q)%Q -> (JS.pow2 (JS.ilog2 q) <= q)%Q.
Proof.
  intros Hq. unfold JS.ilog2.
  set (a := Z.log2 (Qnum q)). set (b := Z.log2 (Zpos (Qden q))).
  destruct (Qle_bool (JS.pow2 (a - b)) q) eqn:E; [now apply Qle_bool_iff|].
  assert (Hn : 0 < Qnum q).
  { unfold Qlt in Hq. simpl in Hq. lia. }
  assert (Ha : 2 ^ a <= Qnum q) by (apply Z.log2_spec; exact Hn).
  assert (Hb : Zpos (Qden q) < 2 ^ (b + 1)).
  { replace (b + 1) with (Z.succ b) by lia. apply Z.log2_spec. lia. }
  assert (H0a : 0 <= a) by apply Z.log2_nonneg.
  assert (H0b : 0 <= b) by apply Z.log2_nonneg.
  replace (a - b - 1) with (a + - (b + 1)) by lia.
  rewrite pow2_add. unfold JS.pow2 at 2. rewrite Qpower_opp. fold (JS.pow2 (b + 1)).
  rewrite (pow2_Z a H0a), (pow2_Z (b + 1)) by lia.
  assert (Hp : 0 < 2 ^ (b + 1)) by (apply Z.pow_pos_nonneg; lia).
  assert (Hpa : 0 < 2 ^ a) by (apply Z.pow_pos_nonneg; lia).
  apply Qle_shift_div_r; [unfold Qlt; simpl; lia|].
  destruct q as [n d]. unfold Qle, Qmult, inject_Z. simpl in *. nia.
Qed.

Lemma nearestEven_near r :
  (- (1 # 2) <= inject_Z (JS.nearestEven r) - r <= 1 # 2)%Q.
Proof.
  unfold JS.nearestEven.
  pose proof (Qfloor_le r) as Hl. pose proof (Qlt_floor r) as Hu.
  rewrite inject_Z_plus in Hu. change (inject_Z 1) with 1%Q in Hu.
  destruct (r - inject_Z (Qfloor r) ?= 1 # 2)%Q eqn:E.
  - apply Qeq_alt in E.
    destruct (Z.even (Qfloor r)); [|rewrite inject_Z_plus; change (inject_Z 1) with 1%Q]; lra.
  - apply Qlt_alt in E. lra.
  - apply Qgt_alt in E. rewrite inject_Z_plus. change (inject_Z 1) with 1%Q. lra.
Qed.

Lemma nearestEven_nonneg r : (0 <= r)%Q -> 0 <= JS.nearestEven r.
Proof.
  intros Hr. unfold JS.nearestEven.
  assert (0 <= Qfloor r).
  { change 0 with (Qfloor 0). now apply Qfloor_resp_le. }
  destruct (r - inject_Z (Qfloor r) ?= 1 # 2)%Q; [destruct (Z.even (Qfloor r))| |]; lia.
Qed.

Lemma roundedValue_error q :
  (0 < q)%Q -> (JS.pow2 (-1022) <= q)%Q ->
  (- q <= (JS.roundedValue q - q) * two53 <= q)%Q.
Proof.
  intros Hq Hmin. unfold JS.roundedValue.
  set (e := Z.max (JS.ilog2 q) (-1022)).
  assert (He : (JS.pow2 e <= q)%Q).
  { unfold e. destruct (Z.max_spec (JS.ilog2 q) (-1022)) as [[_ ->]|[_ ->]];
      [exact Hmin|now apply ilog2_le]. }
  set (u := JS.pow2 (e - 52)).
  assert (Hu : (0 < u)%Q) by apply pow2_pos.
  assert (Hue : (u * two53 == 2 * JS.pow2 e)%Q).
  { unfold u. replace (e - 52) with (e + -52) by lia. rewrite pow2_add.
    unfold two53. change (JS.pow2 (-52)) with (1 # 4503599627370496)%Q. field. }
  pose proof (nearestEven_near (q / u)) as Hn.
  set (m := inject_Z (JS.nearestEven (q / u))) in *.
  assert (Hr : (q / u * u == q)%Q) by (field; lra).
  set (r := (q / u)%Q) in *.
  assert (H1 : ((m - r) * u <= (1 # 2) * u)%Q).
  { apply Qmult_le_compat_r; lra. }
  assert (H2 : (- (1 # 2) * u <= (m - r) * u)%Q).
  { apply Qmult_le_compat_r; lra. }
  assert (H3 : ((m * u - q) * two53 == (m - r) * u * two53)%Q).
  { rewrite <- Hr at 1. ring. }
  rewrite H3.
  assert (H4 : ((m - r) * u * two53 <= (1 # 2) * u * two53)%Q).
  { apply Qmult_le_compat_r; [exact H1|unfold two53; lra]. }
  assert (H5 : (- (1 # 2) * u * two53 <= (m - r) * u * two53)%Q).
  { apply Qmult_le_compat_r; [exact H2|unfold two53; lra]. }
  assert (H6 : ((1 # 2) * u * two53 == JS.pow2 e)%Q).
  { rewrite <- Qmult_assoc, Hue. field. }
  assert (H7 : (- (1 # 2) * u * two53 == - JS.pow2 e)%Q).
  { rewrite <- Qmult_assoc, Hue. field. }
  lra.
Qed.

Lemma roundedValue_nonneg q : (0 < q)%Q -> (0 <= JS.roundedValue q)%Q.
Proof.
  intros Hq. unfold JS.roundedValue.
  set (u := JS.pow2 (Z.max (JS.ilog2 q) (-1022) - 52)).
  assert (Hu : (0 < u)%Q) by apply pow2_pos.
  apply Qmult_le_0_compat; [|lra].
  change 0%Q with (inject_Z 0). rewrite <- Zle_Qle. apply nearestEven_nonneg.
  apply Qle_shift_div_l; lra.
Qed.

Lemma fl_positive q : (0 < q)%Q -> JS.fl q = JS.roundPositive q.
Proof.
  intros Hq. unfold JS.fl. destruct q as [[|n|n] d]; [| reflexivity |];
    unfold Qlt in Hq; simpl in Hq; lia.
Qed.

Lemma pow2_1024_large : (two53 * two53 <= JS.pow2 1024)%Q.
Proof.
  change (two53 * two53)%Q with (JS.pow2 106). unfold JS.pow2.
  apply Qpower_le_compat_l; [lia|lra].
Qed.

Lemma pow2_1022_small : (JS.pow2 (-1022) <= 1 # 1000000000)%Q.
Proof.
  apply Qle_trans with (JS.pow2 (-30)); [|unfold JS.pow2, Qle; simpl; lia].
  unfold JS.pow2. apply Qpower_le_compat_l; [lia|lra].
Qed.

(** A positive number in the normal range is rounded to a JS.double within
    one part in 2^53 of it, or beyond the largest JS.double to infinity. *)
Lemma fl_normal q :
  (0 < q)%Q -> (JS.pow2 (-1022) <= q)%Q ->
  (JS.fl q = JS.Infinity false /\ (two53 * two53 <= 2 * q)%Q)
  \/ exists v, JS.fl q = JS.Finite v /\ (- q <= (v - q) * two53 <= q)%Q.
Proof.
  intros Hq Hmin. rewrite (fl_positive q Hq). unfold JS.roundPositive.
  pose proof (roundedValue_error q Hq Hmin) as He.
  destruct (Qle_bool (JS.pow2 1024) (JS.roundedValue q)) eqn:E.
  - left. split; [reflexivity|]. apply Qle_bool_iff in E.
    pose proof pow2_1024_large. unfold two53 in *. lra.
  - right. exists (Qred (JS.roundedValue q)). split; [reflexivity|].
    now rewrite Qred_correct.
Qed.

(** What is known of a JS.double: it is at most [hi], or at least [lo]. *)
Definition atMost (hi : Q) (x : JS.double) : Prop :=
  match x with
  | JS.Finite v => (v <= hi)%Q
  | JS.Infinity s => s = true
  | JS.NaN => False
  end.

Definition atLeast (lo : Q) (x : JS.double) : Prop :=
  match x with
  | JS.Finite v => (lo <= v)%Q
  | JS.Infinity s => s = false
  | JS.NaN => False
  end.

Lemma fl_nonpositive q : (q <= 0)%Q -> atMost 0 (JS.fl q).
Proof.
  intros Hq. unfold JS.fl. destruct q as [[|n|n] d].
  - simpl. lra.
  - unfold Qle in Hq. simpl in Hq. lia.
  - assert (Hp : (0 < - (Z.neg n # d))%Q) by reflexivity.
    unfold JS.roundPositive.
    pose proof (roundedValue_nonneg _ Hp) as Hv.
    destruct (Qle_bool (JS.pow2 1024) (JS.roundedValue (- (Z.neg n # d))));
      unfold JS.negate, atMost; [reflexivity|].
    apply Qle_trans with (- JS.roundedValue (- (Z.neg n # d)))%Q; [|lra].
    rewrite !Qred_correct. apply Qle_refl.
Qed.

Lemma fl_atLeast q : (0 < q)%Q -> (JS.pow2 (-1022) <= q)%Q ->
  atLeast (q * (two53 - 1) / two53) (JS.fl q).
Proof.
  intros Hq Hmin. destruct (fl_normal q Hq Hmin) as [[-> _]|(v & -> & Hv)]; simpl; [reflexivity|].
  apply Qle_shift_div_r; [reflexivity|]. lra.
Qed.

Lemma fl_atMost q : (0 < q)%Q -> (JS.pow2 (-1022) <= q)%Q -> (2 * q < two53 * two53)%Q ->
  exists v, JS.fl q = JS.Finite v /\ (v <= q * (two53 + 1) / two53)%Q
            /\ (q * (two53 - 1) / two53 <= v)%Q.
Proof.
  intros Hq Hmin Hmax. destruct (fl_normal q Hq Hmin) as [[_ Hbig]|(v & -> & Hv)]; [lra|].
  exists v. split; [reflexivity|].
  split; [apply Qle_shift_div_l|apply Qle_shift_div_r]; try reflexivity; lra.
Qed.

Lemma gt_atMost x b hi : atMost hi x -> (hi <= b)%Q -> JS.gt x (JS.Finite b) = false.
Proof.
  destruct x as [v|[|]|]; simpl; try reflexivity; try discriminate; try contradiction.
  intros Hv Hb. apply negb_false_iff, Qle_bool_iff. lra.
Qed.

Lemma gt_atLeast x b lo : atLeast lo x -> (b < lo)%Q -> JS.gt x (JS.Finite b) = true.
Proof.
  destruct x as [v|[|]|]; simpl; try reflexivity; try discriminate; try contradiction.
  intros Hv Hb. apply negb_true_iff. destruct (Qle_bool v b) eqn:E; [|reflexivity].
  apply Qle_bool_iff in E. lra.
Qed.

Lemma divBy_atMost0 c x : (0 < c)%Q -> atMost 0 x -> atMost 0 (JS.divBy c x).
Proof.
  intros Hc. destruct x as [v|[|]|]; simpl; try tauto.
  intros Hv. apply fl_nonpositive.
  unfold Qdiv. rewrite <- (Qmult_0_l (/ c)). apply Qmult_le_compat_r; [exact Hv|].
  apply Qlt_le_weak, Qinv_lt_0_compat, Hc.
Qed.

Lemma tenth_value : tenth = JS.Finite (3602879701896397 # 36028797018963968).
Proof. vm_compute. reflexivity. Qed.

Lemma inject_Z_pos z : 0 < z -> (0 < inject_Z z)%Q.
Proof. intros H. unfold Qlt. simpl. lia. Qed.

Lemma Qdiv_le_compat a b c : (0 < c)%Q -> (a <= b)%Q -> (a / c <= b / c)%Q.
Proof.
  intros Hc Hab. apply Qle_shift_div_l; [exact Hc|].
  assert (E : (a / c * c == a)%Q) by (field; lra). now rewrite E.
Qed.

Lemma scaled_le a b k : (0 <= k)%Q -> (a <= b)%Q -> (a * k / two53 <= b * k / two53)%Q.
Proof.
  intros Hk Hab. apply Qdiv_le_compat; [reflexivity|]. now apply Qmult_le_compat_r.
Qed.

Lemma atLeast_weaken lo lo' x : atLeast lo x -> (lo' <= lo)%Q -> atLeast lo' x.
Proof. destruct x as [v|[|]|]; unfold atLeast; try tauto. intros. lra. Qed.

Lemma atMost_weaken hi hi' x : atMost hi x -> (hi <= hi')%Q -> atMost hi' x.
Proof. destruct x as [v|[|]|]; unfold atMost; try tauto. intros. lra. Qed.

(** One operation on a JS.double that is at least [lo]: the result is at
    least the exact result on [lo], less one part in 2^53. *)
Lemma divBy_atLeast c lo x :
  (0 < c)%Q -> (0 < lo)%Q -> (JS.pow2 (-1022) <= lo / c)%Q -> atLeast lo x ->
  atLeast (lo / c * (two53 - 1) / two53) (JS.divBy c x).
Proof.
  intros Hc Hlo Hmin. destruct x as [v|[|]|]; unfold atLeast, JS.divBy; try tauto.
  intros Hv.
  assert (Hq : (lo / c <= v / c)%Q) by now apply Qdiv_le_compat.
  assert (H0 : (0 < lo / c)%Q) by (apply Qlt_shift_div_l; lra).
  eapply atLeast_weaken; [apply fl_atLeast; lra|].
  apply scaled_le; [unfold two53; lra|exact Hq].
Qed.

Lemma fl_atMost' q hi :
  (0 < q)%Q -> (JS.pow2 (-1022) <= q)%Q -> (q <= hi)%Q -> (2 * hi < two53 * two53)%Q ->
  atMost (hi * (two53 + 1) / two53) (JS.fl q).
Proof.
  intros Hq Hmin Hhi Hmax.
  destruct (fl_atMost q Hq Hmin ltac:(lra)) as (v & -> & Hv & _). unfold atMost.
  eapply Qle_trans; [exact Hv|]. apply scaled_le; [unfold two53; lra|exact Hhi].
Qed.

Lemma minutes_over_tenth elapsed :
  JS.gt (JS.divBy 60000 (JS.ofZ elapsed)) tenth = (6000 <? elapsed).
Proof.
  rewrite tenth_value. unfold JS.ofZ.
  pose proof pow2_1022_small as Hs.
  destruct (Z.ltb_spec 6000 elapsed) as [H|H].
  - assert (Hq : (6001 <= inject_Z elapsed)%Q)
      by (change (inject_Z 6001 <= inject_Z elapsed)%Q; rewrite <- Zle_Qle; lia).
    assert (Ha : atLeast (6001 * (two53 - 1) / two53) (JS.fl (inject_Z elapsed))).
    { eapply atLeast_weaken; [apply fl_atLeast; lra|].
      apply scaled_le; [unfold two53; lra|exact Hq]. }
    eapply gt_atLeast; [apply divBy_atLeast; [| | |exact Ha]|]; try reflexivity.
    eapply Qle_trans; [exact Hs|]. vm_compute. discriminate.
  - destruct (Z.eq_dec elapsed 6000) as [->|Hne]; [vm_compute; reflexivity|].
    destruct (Z.le_gt_cases elapsed 0) as [Hneg|Hpos].
    + eapply gt_atMost with (hi := 0%Q); [|discriminate].
      apply divBy_atMost0; [reflexivity|]. apply fl_nonpositive.
      change (inject_Z elapsed <= inject_Z 0)%Q. now rewrite <- Zle_Qle.
    + assert (Hq1 : (1 <= inject_Z elapsed)%Q)
        by (change (inject_Z 1 <= inject_Z elapsed)%Q; rewrite <- Zle_Qle; lia).
      assert (Hq2 : (inject_Z elapsed <= 5999)%Q)
        by (change (inject_Z elapsed <= inject_Z 5999)%Q; rewrite <- Zle_Qle; lia).
      destruct (fl_atMost (inject_Z elapsed) ltac:(lra) ltac:(lra)) as (v & -> & Hv & Hv').
      { unfold two53. lra. }
      unfold JS.divBy.
      assert (Hv1 : (v <= 5999 * (two53 + 1) / two53)%Q).
      { eapply Qle_trans; [exact Hv|]. apply scaled_le; [unfold two53; lra|exact Hq2]. }
      assert (Hv2 : (1 * (two53 - 1) / two53 <= v)%Q).
      { eapply Qle_trans; [|exact Hv']. apply scaled_le; [unfold two53; lra|exact Hq1]. }
      assert (Hc1 : (5999 * (two53 + 1) / two53 <= 6000)%Q) by (vm_compute; discriminate).
      assert (Hc2 : (1 # 2 <= 1 * (two53 - 1) / two53)%Q) by (vm_compute; discriminate).
      assert (Hx1 : (v / 60000 <= 1 # 10)%Q) by (apply Qle_shift_div_r; lra).
      assert (Hx2 : (1 # 120000 <= v / 60000)%Q) by (apply Qle_shift_div_l; lra).
      eapply gt_atMost; [apply (fl_atMost' (v / 60000) (5999 * (two53 + 1) / two53 / 60000))|].
      * lra.
      * lra.
      * apply Qdiv_le_compat; [reflexivity|exact Hv1].
      * vm_compute. reflexivity.
      * vm_compute. discriminate.
Qed.

Lemma fl_finite q :
  (0 < q)%Q -> (JS.pow2 (-1022) <= q)%Q -> (2 * q < two53 * two53)%Q ->
  exists v, JS.fl q = JS.Finite v /\ (- q <= (v - q) * two53 <= q)%Q.
Proof.
  intros Hq Hmin Hmax. destruct (fl_normal q Hq Hmin) as [[_ Hbig]|H]; [lra|exact H].
Qed.

Lemma hundredths_nearest elapsed :
  0 < elapsed <= 2 ^ 51 ->
  exists k, JS.Math_round (JS.mulBy 100 (JS.divBy 60000 (JS.ofZ elapsed)))
            = JS.Finite (inject_Z k)
            /\ 600 * k - 300 <= elapsed <= 600 * k + 300.
Proof.
  intros [Hpos Hmax]. unfold JS.ofZ.
  pose proof pow2_1022_small as Hs.
  assert (HE1 : (1 <= inject_Z elapsed)%Q)
    by (change (inject_Z 1 <= inject_Z elapsed)%Q; rewrite <- Zle_Qle; lia).
  assert (HE2 : (inject_Z elapsed <= 2251799813685248)%Q)
    by (change (inject_Z elapsed <= inject_Z (2 ^ 51))%Q; rewrite <- Zle_Qle; lia).
  set (E := inject_Z elapsed) in *.
  destruct (fl_finite E) as (a & -> & Ha); [lra|lra|unfold two53; lra|].
  unfold two53 in Ha. unfold JS.divBy.
  assert (Hq1 : (a / 60000 * 60000 == a)%Q) by (field; discriminate).
  set (q1 := (a / 60000)%Q) in *.
  destruct (fl_finite q1) as (x & -> & Hx); [lra|lra|unfold two53; lra|].
  unfold two53 in Hx. unfold JS.mulBy.
  destruct (fl_finite (x * 100)) as (y & -> & Hy); [lra|lra|unfold two53; lra|].
  unfold two53 in Hy. unfold JS.Math_round.
  exists (Qfloor (y + (1 # 2))). split; [reflexivity|].
  pose proof (Qfloor_le (y + (1 # 2))) as Hl. pose proof (Qlt_floor (y + (1 # 2))) as Hu.
  rewrite inject_Z_plus in Hu. change (inject_Z 1) with 1%Q in Hu.
  set (k := Qfloor (y + (1 # 2))) in *.
  split.
  - destruct (Z.le_gt_cases (600 * k - 300) elapsed) as [H|H]; [exact H|exfalso].
    assert (HQ : (E <= 600 * inject_Z k - 301)%Q).
    { change (inject_Z elapsed <= inject_Z 600 * inject_Z k - inject_Z 301)%Q.
      unfold Qminus. rewrite <- inject_Z_mult, <- inject_Z_opp, <- inject_Z_plus, <- Zle_Qle. lia. }
    lra.
  - destruct (Z.le_gt_cases elapsed (600 * k + 300)) as [H|H]; [exact H|exfalso].
    assert (HQ : (600 * inject_Z k + 301 <= E)%Q).
    { change (inject_Z 600 * inject_Z k + inject_Z 301 <= inject_Z elapsed)%Q.
      rewrite <- inject_Z_mult, <- inject_Z_plus, <- Zle_Qle. lia. }
    lra.
Qed.


(** The rounding against the Standard Library's specification of IEEE
    754 arithmetic, at precision 53 and exponent bound 1024: the minutes
    the tracker writes are the same double, for every whole number of
    milliseconds up to 3000 and for a thousand longer times. *)
Definition ofSpec (x : spec_float) : JS.double :=
  match x with
  | S754_zero _ => JS.Finite 0
  | S754_infinity s => JS.Infinity s
  | S754_nan => JS.NaN
  | S754_finite s m e =>
      JS.Finite (Qred ((if s then -1 else 1) * inject_Z (Zpos m) * JS.pow2 e))
  end.

Definition specOfZ (z : Z) : spec_float := binary_normalize 53 1024 z 0 false.

Definition specRound (x : spec_float) : spec_float :=
  match ofSpec x with
  | JS.Finite q => specOfZ (Qfloor (q + (1 # 2)))
  | _ => x
  end.

Definition specMinutes (elapsed : Z) : spec_float :=
  SFdiv 53 1024
    (specRound (SFmul 53 1024 (SFdiv 53 1024 (specOfZ elapsed) (specOfZ 60000)) (specOfZ 100)))
    (specOfZ 100).

Definition sameDouble (x y : JS.double) : bool :=
  match x, y with
  | JS.Finite a, JS.Finite b => (Qnum a =? Qnum b) && (Zpos (Qden a) =? Zpos (Qden b))
  | JS.Infinity a, JS.Infinity b => Bool.eqb a b
  | JS.NaN, JS.NaN => true
  | _, _ => false
  end.

Example rounding_agrees :
  forallb (fun n => sameDouble (roundMinutes (minutesBetween 0 (Z.of_nat n)))
                      (ofSpec (specMinutes (Z.of_nat n)))) (List.seq 0 3001) = true
  /\ forallb (fun n => sameDouble (roundMinutes (minutesBetween 3000 (Z.of_nat n * 1234567)))
                         (ofSpec (specMinutes (Z.of_nat n * 1234567 - 3000))))
       (List.seq 0 1000) = true
  /\ sameDouble tenth (ofSpec (SFdiv 53 1024 (specOfZ 1) (specOfZ 10))) = true.
Proof. vm_compute. repeat split; reflexivity. Qed.

(** ** Listening-time tracking *)

Lemma flushPrevious_tracking uid current start endTime st :
  JS.truthy current = true -> currentSongRef st = Some current ->
  flushPrevious uid (Some start) endTime st
  = if 6000 <? endTime - start
    then [upsert_history_minutes uid (JS.parseInt current)
            (roundMinutes (minutesBetween start endTime))]
    else [].
Proof.
  intros Ht Hc. unfold flushPrevious. rewrite Hc, Ht.
  unfold minutesBetween. now rewrite minutes_over_tenth.
Qed.

(** A state that tracks song 1 since time 0. *)
Definition trackingOne : State :=
  setCurrentSongStartTime (Some 0) (setCurrentSongRef (Some "1") initialState).

(** C6, as the claim words it, fails.  With no user id (no session, nothing
    stored), starting song 2 a whole minute after song 1 writes nothing and
    leaves the tracker on song 1. *)
Lemma tracker_counterexample :
  getUserId None None = None
  /\ recordListeningHistory (getUserId None None) "2" 60000 60000 trackingOne
     = (trackingOne, [])
  /\ currentSongRef trackingOne = Some "1"
  /\ currentSongStartTime trackingOne = Some 0.
Proof. repeat split; reflexivity. Qed.

(** C6, amended.  Let the tracker be on a song A (a non-empty id) since
    [tA], and let a call run that no other call overlaps, through the
    closure of the latest render.  With a user id: starting B when the
    clock reads [tEnd] writes one history delta for A exactly when
    [tEnd - tA] exceeds 6000 ms (0.1 minute), and none otherwise.  The
    delta is the double [Math.round(m * 100) / 100] for the elapsed minutes
    [m], themselves the double quotient of the elapsed milliseconds by
    60000: for a time of up to 2^51 ms it is the double nearest to a whole
    number of hundredths that lies within half a hundredth of the elapsed
    time.  The tracker then is on B since [tStart], the clock when the
    write has been awaited.  Stopping writes under the same guard and
    leaves the tracker idle.  With no user id, starting changes nothing and
    stopping leaves the tracker idle, and neither writes. *)
Theorem tracker_transitions userId A tA B tEnd tStart st :
  JS.truthy A = true ->
  currentSongRef st = Some A -> currentSongStartTime st = Some tA ->
  let elapsed := tEnd - tA in
  let minutes :=
    JS.divBy 100 (JS.Math_round (JS.mulBy 100 (JS.divBy 60000 (JS.ofZ elapsed)))) in
  let flush uid :=
    if 6000 <? elapsed
    then [upsert_history_minutes uid (JS.parseInt A) minutes]
    else [] in
  let started := recordListeningHistory userId B tEnd tStart st in
  let stopped := stopCurrentSongTracking userId tEnd st in
  (0 < elapsed <= 2 ^ 51 ->
     exists hundredths,
       minutes = JS.fl (inject_Z hundredths / 100)
       /\ 600 * hundredths - 300 <= elapsed <= 600 * hundredths + 300)
  /\ currentSongRef (fst stopped) = None
  /\ currentSongStartTime (fst stopped) = None
  /\ (forall uid, userId = Some uid -> JS.truthy uid = true ->
        currentSongRef (fst started) = Some B
        /\ currentSongStartTime (fst started) = Some tStart
        /\ snd started
           = (flush uid ++ [update_last_song uid (JS.parseInt B);
                            increment_song_views (JS.parseInt B)])%list
        /\ snd stopped = flush uid)
  /\ (JS.truthy_opt userId = false ->
        started = (st, []) /\ snd stopped = []).
Proof.
  intros HA Hc Hs elapsed minutes flush started stopped.
  split.
  { intros He. destruct (hundredths_nearest elapsed He) as (k & Hk & Hnear).
    exists k. split; [|exact Hnear]. unfold minutes. now rewrite Hk. }
  split; [reflexivity|]. split; [reflexivity|]. split.
  - intros uid -> Hu. subst started stopped flush.
    unfold recordListeningHistory, recordListeningHistoryFrom,
      stopCurrentSongTracking, stopCurrentSongTrackingFrom.
    rewrite Hu, Hs. simpl.
    rewrite (flushPrevious_tracking uid A tA tEnd st HA Hc). auto.
  - intros Hu. subst started stopped.
    unfold recordListeningHistory, recordListeningHistoryFrom,
      stopCurrentSongTracking, stopCurrentSongTrackingFrom.
    destruct userId as [uid|]; simpl in *; [rewrite Hu|]; auto.
Qed.

Lemma tracker_transitions_witness :
  snd (recordListeningHistory (Some "u1") "2" 70000 70001 trackingOne)
  = [upsert_history_minutes "u1" (Some 1) (JS.fl (117 # 100));
     update_last_song "u1" (Some 2); increment_song_views (Some 2)].
Proof.
  etransitivity;
    [apply (tracker_transitions (Some "u1") "1" 0 "2" 70000 70001 trackingOne
              eq_refl eq_refl eq_refl); reflexivity|].
  vm_compute. reflexivity.
Defined.

(** From idle nothing is written for a previous song. *)
Lemma tracker_idle_start uid B tEnd tStart st :
  JS.truthy uid = true -> currentSongRef st = None ->
  snd (recordListeningHistory (Some uid) B tEnd tStart st)
  = [update_last_song uid (JS.parseInt B); increment_song_views (JS.parseInt B)].
Proof.
  intros Hu Hc. unfold recordListeningHistory, recordListeningHistoryFrom, flushPrevious.
  rewrite Hu. simpl. now rewrite Hc.
Qed.

Example tracker_quick_switch :
  snd (recordListeningHistory (Some "u1") "2" 6000 6000 trackingOne)
  = [update_last_song "u1" (Some 2); increment_song_views (Some 2)]
  /\ snd (stopCurrentSongTracking (Some "u1") 6000 trackingOne) = [].
Proof. vm_compute. split; reflexivity. Qed.

(** After 8700 ms the exact number of hundredths is 14.5, and the doubles
    give 14.499999999999998: the delta written is 0.14. *)
Example tracker_half_hundredth :
  snd (stopCurrentSongTracking (Some "u1") 8700 trackingOne)
  = [upsert_history_minutes "u1" (Some 1) (JS.fl (14 # 100))]
  /\ JS.mulBy 100 (minutesBetween 0 8700)
     = JS.Finite (8162774324609023 # 562949953421312)
  /\ (8162774324609023 # 562949953421312 < 145 # 10)%Q.
Proof. vm_compute. repeat split; reflexivity. Qed.

(** ** The caches across a change of user *)

(** Splits on every [match] and [if] of the goal. *)
Ltac split_cases :=
  repeat match goal with
         | |- context [match ?x with _ => _ end] => destruct x eqn:?; simpl
         end.

Lemma fetchSongs_caches uid rem st :
  songsCache (fetchSongs uid rem st) = songsCache st
  /\ likedSongsCache (fetchSongs uid rem st) = likedSongsCache st.
Proof.
  unfold fetchSongs.
  destruct (negb (JS.truthy_opt uid)); [split; reflexivity|].
  destruct (r_songs rem) as [|songsData]; [split; reflexivity|].
  destruct (r_liked rem) as [|[likedData|]], (r_user rem) as [|[[n|]|]]; simpl;
    split_cases; split; reflexivity.
Qed.

Lemma fetchPlaylists_caches uid liked rem st :
  songsCache (fetchPlaylists uid liked rem st) = songsCache st
  /\ likedSongsCache (fetchPlaylists uid liked rem st) = likedSongsCache st.
Proof. unfold fetchPlaylists. split_cases; split; reflexivity. Qed.

Lemma fetchRecentlyPlayed_caches uid rem st :
  songsCache (fetchRecentlyPlayed uid rem st) = songsCache st
  /\ likedSongsCache (fetchRecentlyPlayed uid rem st) = likedSongsCache st.
Proof. unfold fetchRecentlyPlayed. split_cases; split; reflexivity. Qed.

(** The effect clears the caches only when there is no user id: with one,
    whatever it is, both caches outlive the reload. *)
Lemma loadData_keeps_caches user ls rem st :
  JS.truthy_opt (getUserId user ls) = true ->
  songsCache (loadData user ls rem st) = songsCache st
  /\ likedSongsCache (loadData user ls rem st) = likedSongsCache st.
Proof.
  intros Hu. unfold loadData. rewrite Hu. simpl.
  destruct (fetchRecentlyPlayed_caches (getUserId user ls) rem
              (fetchPlaylists (getUserId user ls) (likedSongs st) rem
                 (fetchSongs (getUserId user ls) rem (setLoading true st)))) as [-> ->].
  destruct (fetchPlaylists_caches (getUserId user ls) (likedSongs st) rem
              (fetchSongs (getUserId user ls) rem (setLoading true st))) as [-> ->].
  destruct (fetchSongs_caches (getUserId user ls) rem (setLoading true st)) as [-> ->].
  split; reflexivity.
Qed.

Lemma loadData_clears_caches user ls rem st :
  JS.truthy_opt (getUserId user ls) = false ->
  songsCache (loadData user ls rem st) = None
  /\ likedSongsCache (loadData user ls rem st) = None.
Proof. intros Hu. unfold loadData. rewrite Hu. split; reflexivity. Qed.

Module Switch.

(** User u1 likes song 2; user u2 likes nothing. *)
Definition storeU1 := Ex.store Ex.catalog3 [2] [].
Definition storeU2 := Ex.store Ex.catalog3 [] [].

Definition seed := convertDatabaseSong Ex.songA false.

(** u1 signs in, the data loads, and a recommendation for seed A fills both
    caches. *)
Definition afterU1 : State :=
  snd (getPersonalizedSongs (fun q => q) (fun _ => 1 # 2) "u1" seed None
         (r_songs storeU1) (r_history storeU1) (r_liked storeU1)
         (loadData (Some (Ex.sessionUser "u1")) None storeU1 initialState)).

(** The session changes to u2 without passing through a signed-out state,
    and the effect reloads. *)
Definition afterSwitch : State :=
  loadData (Some (Ex.sessionUser "u2")) None storeU2 afterU1.

(** What u2 is then recommended for seed A. *)
Definition recommendedToU2 (st : State) : list Song :=
  fst (getPersonalizedSongs (fun q => q) (fun _ => 1 # 2) "u2" seed None
         (r_songs storeU2) (r_history storeU2) (r_liked storeU2) st).

End Switch.

(** C7 on the code.  After the switch from u1 to u2 the liked-set cache
    still holds u1's set, and the recommendation served to u2 marks song 2
    as liked, which only u1 likes; with the caches cleared, the same call
    marks it as not liked. *)
Theorem cache_survives_user_switch :
  getUserId (Some (Ex.sessionUser "u2")) None = Some "u2"
  /\ likedSongsCache Switch.afterU1 = Some {[2]}
  /\ likedSongsCache Switch.afterSwitch = Some {[2]}
  /\ songsCache Switch.afterSwitch = Some Ex.catalog3
  /\ List.map (fun s => (id s, isLiked s)) (Switch.recommendedToU2 Switch.afterSwitch)
     = [("2", true)]
  /\ List.map (fun s => (id s, isLiked s))
       (Switch.recommendedToU2
          (setLikedSongsCache None (setSongsCache None Switch.afterSwitch)))
     = [("2", false)].
Proof. repeat split; reflexivity. Qed.

(** ** Failures during a refresh *)

Lemma fetchPlaylists_keeps uid liked rem st :
  songs (fetchPlaylists uid liked rem st) = songs st
  /\ personalizedSongs (fetchPlaylists uid liked rem st) = personalizedSongs st
  /\ trendingSongs (fetchPlaylists uid liked rem st) = trendingSongs st
  /\ lastPlayedSong (fetchPlaylists uid liked rem st) = lastPlayedSong st
  /\ recentlyPlayedSongs (fetchPlaylists uid liked rem st) = recentlyPlayedSongs st.
Proof. unfold fetchPlaylists. split_cases; repeat split; reflexivity. Qed.

Lemma fetchRecentlyPlayed_keeps uid rem st :
  songs (fetchRecentlyPlayed uid rem st) = songs st
  /\ personalizedSongs (fetchRecentlyPlayed uid rem st) = personalizedSongs st
  /\ trendingSongs (fetchRecentlyPlayed uid rem st) = trendingSongs st
  /\ lastPlayedSong (fetchRecentlyPlayed uid rem st) = lastPlayedSong st
  /\ playlists (fetchRecentlyPlayed uid rem st) = playlists st.
Proof. unfold fetchRecentlyPlayed. split_cases; repeat split; reflexivity. Qed.

Lemma fetchSongs_keeps uid rem st :
  playlists (fetchSongs uid rem st) = playlists st
  /\ recentlyPlayedSongs (fetchSongs uid rem st) = recentlyPlayedSongs st.
Proof.
  unfold fetchSongs.
  destruct (negb (JS.truthy_opt uid)); [split; reflexivity|].
  destruct (r_songs rem) as [|songsData]; [split; reflexivity|].
  destruct (r_liked rem) as [|[likedData|]], (r_user rem) as [|[[n|]|]]; simpl;
    split_cases; split; reflexivity.
Qed.

(** With a user id, the three views of a reload are those [fetchSongs]
    writes. *)
Lemma loadData_views user ls rem st :
  JS.truthy_opt (getUserId user ls) = true ->
  let inner := fetchSongs (getUserId user ls) rem (setLoading true st) in
  songs (loadData user ls rem st) = songs inner
  /\ personalizedSongs (loadData user ls rem st) = personalizedSongs inner
  /\ trendingSongs (loadData user ls rem st) = trendingSongs inner
  /\ lastPlayedSong (loadData user ls rem st) = lastPlayedSong inner.
Proof.
  intros Hu inner. unfold loadData. rewrite Hu. simpl. fold inner.
  destruct (fetchRecentlyPlayed_keeps (getUserId user ls) rem
              (fetchPlaylists (getUserId user ls) (likedSongs st) rem inner))
    as (-> & -> & -> & -> & _).
  destruct (fetchPlaylists_keeps (getUserId user ls) (likedSongs st) rem inner)
    as (-> & -> & -> & -> & _).
  repeat split; reflexivity.
Qed.

Module Failing.

(** The store answers every read but the history one. *)
Definition historyDown : Remote :=
  {| r_songs := Data (Some Ex.catalog3); r_liked := Data (Some [2]);
     r_history := Failure; r_user := Data (Some (Some 3));
     r_playlists := Data (Some []); r_recent := Failure;
     r_recent_liked := Data (Some [2]) |}.

(** A store in order, song 3 being the last one played. *)
Definition allUp : Remote :=
  {| r_songs := Data (Some Ex.catalog3); r_liked := Data (Some [2]);
     r_history := Data (Some []); r_user := Data (Some (Some 3));
     r_playlists := Data (Some []); r_recent := Data (Some []);
     r_recent_liked := Data (Some [2]) |}.

(** The songs read fails. *)
Definition songsDown : Remote :=
  {| r_songs := Failure; r_liked := Data (Some [2]);
     r_history := Data (Some []); r_user := Data (Some (Some 3));
     r_playlists := Data (Some []); r_recent := Data (Some []);
     r_recent_liked := Data (Some [2]) |}.

Definition u1 := Some (Ex.sessionUser "u1").

End Failing.

(** C8, as the claim words it, fails.  When only the history read fails,
    the refresh surfaces the whole catalog, the ranking and the last-played
    song.  And when a refresh whose songs read fails follows a good one,
    three views are emptied while the last-played song stays. *)
Lemma refresh_failure_counterexample :
  r_history Failing.historyDown = Failure
  /\ List.map id (songs (loadData Failing.u1 None Failing.historyDown initialState))
     = ["1"; "2"; "3"]
  /\ List.map id (trendingSongs (loadData Failing.u1 None Failing.historyDown initialState))
     = ["1"; "3"; "2"]
  /\ option_map id (lastPlayedSong (loadData Failing.u1 None Failing.historyDown initialState))
     = Some "3"
  /\ r_songs Failing.songsDown = Failure
  /\ songs (loadData Failing.u1 None Failing.songsDown
              (loadData Failing.u1 None Failing.allUp initialState)) = []
  /\ option_map id
       (lastPlayedSong (loadData Failing.u1 None Failing.songsDown
                          (loadData Failing.u1 None Failing.allUp initialState)))
     = Some "3".
Proof. repeat split; reflexivity. Qed.

(** C8, amended.  In a reload with a user id: when the songs read fails,
    the catalog view, the personalized view and the trending view are all
    emptied; when it succeeds, the three are computed from the catalog
    whatever the other reads did, a failed liked-songs read counting as an
    empty liked set and a failed history read as an empty history; a
    failed playlists or recently-played read leaves that projection as it
    was; and loading ends. *)
Theorem refresh_failure_handling user ls rem st :
  JS.truthy_opt (getUserId user ls) = true ->
  let st' := loadData user ls rem st in
  loading st' = false
  /\ (r_songs rem = Failure ->
        songs st' = [] /\ personalizedSongs st' = [] /\ trendingSongs st' = [])
  /\ (forall songsData, r_songs rem = Data songsData ->
        songs st' = convertedOf rem songsData
        /\ personalizedSongs st'
           = personalizedSorted (historyOfRemote rem) (convertedOf rem songsData)
        /\ trendingSongs st' = trending (convertedOf rem songsData))
  /\ (r_playlists rem = Failure -> playlists st' = playlists st)
  /\ (r_recent rem = Failure -> recentlyPlayedSongs st' = recentlyPlayedSongs st).
Proof.
  intros Hu st'. subst st'.
  destruct (loadData_views user ls rem st Hu) as (Hs & Hp & Ht & _).
  split; [unfold loadData; rewrite Hu; reflexivity|].
  split.
  { intros Hf. rewrite Hs, Hp, Ht, fetchSongs_failed by now right. repeat split; reflexivity. }
  split.
  { intros songsData Hd. rewrite Hs, Hp, Ht.
    apply (fetchSongs_views _ rem (setLoading true st) songsData Hu Hd). }
  split.
  - intros Hf. unfold loadData. rewrite Hu. simpl.
    destruct (fetchRecentlyPlayed_keeps (getUserId user ls) rem
                (fetchPlaylists (getUserId user ls) (likedSongs st) rem
                   (fetchSongs (getUserId user ls) rem (setLoading true st))))
      as (_ & _ & _ & _ & ->).
    unfold fetchPlaylists. rewrite Hu, Hf. simpl.
    now destruct (fetchSongs_keeps (getUserId user ls) rem (setLoading true st)) as [-> _].
  - intros Hf. unfold loadData. rewrite Hu. simpl.
    unfold fetchRecentlyPlayed at 1. rewrite Hu, Hf. simpl.
    destruct (fetchPlaylists_keeps (getUserId user ls) (likedSongs st) rem
                (fetchSongs (getUserId user ls) rem (setLoading true st)))
      as (_ & _ & _ & _ & ->).
    now destruct (fetchSongs_keeps (getUserId user ls) rem (setLoading true st)) as [_ ->].
Qed.

Lemma refresh_failure_handling_witness :
  songs (loadData Failing.u1 None Failing.songsDown
           (loadData Failing.u1 None Failing.allUp initialState)) = []
  /\ personalizedSongs (loadData Failing.u1 None Failing.songsDown
           (loadData Failing.u1 None Failing.allUp initialState)) = []
  /\ trendingSongs (loadData Failing.u1 None Failing.songsDown
           (loadData Failing.u1 None Failing.allUp initialState)) = [].
Proof.
  apply (refresh_failure_handling Failing.u1 None Failing.songsDown
           (loadData Failing.u1 None Failing.allUp initialState)); reflexivity.
Defined.

(** With no user id the reload empties every view and both caches. *)
Lemma loadData_without_user user ls rem st :
  JS.truthy_opt (getUserId user ls) = false ->
  let st' := loadData user ls rem st in
  songs st' = [] /\ personalizedSongs st' = [] /\ trendingSongs st' = []
  /\ lastPlayedSong st' = None /\ playlists st' = [] /\ recentlyPlayedSongs st' = []
  /\ likedSongs st' = ∅ /\ songsCache st' = None /\ likedSongsCache st' = None.
Proof. intros Hu. unfold loadData. rewrite Hu. repeat split; reflexivity. Qed.

(** ** [toggleLike] twice *)

Lemma toggleLike_ok uid songId st :
  JS.truthy_opt uid = true ->
  likedSongs (toggleLike uid songId true true st)
  = (if bool_decide (JS.parseInt songId ∈ likedSongs st)
     then likedSongs st ∖ {[JS.parseInt songId]}
     else likedSongs st ∪ {[JS.parseInt songId]})
  /\ songs (toggleLike uid songId true true st)
     = List.map (likeUpdate songId (bool_decide (JS.parseInt songId ∈ likedSongs st)))
         (songs st)
  /\ playlists (toggleLike uid songId true true st)
     = List.map (fun playlist =>
                   withSongs playlist
                     (List.map (likeUpdate songId
                                  (bool_decide (JS.parseInt songId ∈ likedSongs st)))
                        (p_songs playlist)))
         (playlists st).
Proof.
  intros Hu. unfold toggleLike. rewrite Hu. cbv [negb].
  repeat case_bool_decide; try contradiction; repeat split; reflexivity.
Qed.

Lemma toggled_membership (k : number) (liked : gset number) :
  bool_decide (k ∈ (if bool_decide (k ∈ liked) then liked ∖ {[k]} else liked ∪ {[k]}))
  = negb (bool_decide (k ∈ liked)).
Proof.
  destruct (decide (k ∈ liked)) as [Hin|Hout].
  - rewrite (bool_decide_eq_true_2 _ Hin). simpl.
    apply bool_decide_eq_false. rewrite elem_of_difference, elem_of_singleton. tauto.
  - rewrite (bool_decide_eq_false_2 _ Hout). simpl.
    apply bool_decide_eq_true. rewrite elem_of_union, elem_of_singleton. tauto.
Qed.

Lemma toggled_set_back (k : number) (liked : gset number) :
  (if negb (bool_decide (k ∈ liked))
   then (if bool_decide (k ∈ liked) then liked ∖ {[k]} else liked ∪ {[k]}) ∖ {[k]}
   else (if bool_decide (k ∈ liked) then liked ∖ {[k]} else liked ∪ {[k]}) ∪ {[k]})
  = liked.
Proof.
  destruct (decide (k ∈ liked)) as [Hin|Hout].
  - rewrite (bool_decide_eq_true_2 _ Hin). simpl. apply set_eq. intros x.
    rewrite elem_of_union, elem_of_difference, elem_of_singleton.
    destruct (decide (x = k)) as [->|]; tauto.
  - rewrite (bool_decide_eq_false_2 _ Hout). simpl. apply set_eq. intros x.
    rewrite elem_of_difference, elem_of_union, elem_of_singleton.
    destruct (decide (x = k)) as [->|]; tauto.
Qed.

(** Two updates in a row: the like count is back, the flag is what the
    liked set said before the first one. *)
Lemma likeUpdate_twice songId wasLiked s :
  likeUpdate songId (negb wasLiked) (likeUpdate songId wasLiked s)
  = if String.eqb (id s) songId then withLike s wasLiked 0 else s.
Proof.
  unfold likeUpdate. destruct (String.eqb (id s) songId) eqn:E; simpl.
  - rewrite E. unfold withLike. simpl. rewrite negb_involutive.
    f_equal. destruct wasLiked; simpl; lia.
  - now rewrite E.
Qed.

Lemma likeUpdate_twice_likes songId wasLiked l :
  List.map likes (List.map (likeUpdate songId (negb wasLiked))
                    (List.map (likeUpdate songId wasLiked) l))
  = List.map likes l.
Proof.
  rewrite !List.map_map. apply List.map_ext. intros s.
  rewrite likeUpdate_twice. destruct (String.eqb (id s) songId); simpl; lia.
Qed.

Lemma likeUpdate_twice_flag songId wasLiked l :
  Forall (fun s => id s = songId -> isLiked s = wasLiked)
    (List.map (likeUpdate songId (negb wasLiked)) (List.map (likeUpdate songId wasLiked) l)).
Proof.
  rewrite List.map_map. apply List.Forall_forall. intros s' Hs'.
  apply List.in_map_iff in Hs' as (s & <- & _). rewrite likeUpdate_twice.
  destruct (String.eqb (id s) songId) eqn:E; simpl; [reflexivity|].
  apply String.eqb_neq in E. intros; contradiction.
Qed.

Lemma likeUpdate_twice_id songId wasLiked l :
  Forall (fun s => id s = songId -> isLiked s = wasLiked) l ->
  List.map (likeUpdate songId (negb wasLiked)) (List.map (likeUpdate songId wasLiked) l) = l.
Proof.
  intros H. rewrite List.map_map. rewrite <- (List.map_id l) at 2.
  apply List.map_ext_in. intros s Hs. rewrite likeUpdate_twice.
  destruct (String.eqb (id s) songId) eqn:E; [|reflexivity].
  apply String.eqb_eq in E. rewrite List.Forall_forall in H. specialize (H s Hs E).
  destruct s. unfold withLike. simpl in *. subst. f_equal. lia.
Qed.

(** The first load of a user who likes song 1 and has it in a playlist:
    [fetchPlaylists] runs with the liked set as it was before the load, the
    empty one, so the playlist's copy of song 1 is flagged as not liked. *)
Definition firstLoad : State :=
  loadData (Some (Ex.sessionUser "u1")) None
    {| r_songs := Data (Some Ex.catalog3); r_liked := Data (Some [1]);
       r_history := Data (Some []); r_user := Data (Some None);
       r_playlists := Data (Some [ {| pr_id := 7; pr_name := "mix";
                                      pr_playlist_songs := [Ex.songA] |} ]);
       r_recent := Data (Some []); r_recent_liked := Data (Some [1]) |}
    initialState.

(** C9, as the claim words it, fails.  After the first load song 1 is in
    the liked set and flagged as not liked in the playlist; two successful
    toggles leave the playlist's copy flagged as liked, while its like count
    and the liked set are back. *)
Lemma toggleLike_counterexample :
  likedSongs firstLoad = {[Some 1]}
  /\ List.map (fun p => List.map (fun s => (id s, isLiked s, likes s)) (p_songs p))
       (playlists firstLoad) = [[("1", false, 10)]]
  /\ List.map (fun p => List.map (fun s => (id s, isLiked s, likes s)) (p_songs p))
       (playlists (toggleLike (Some "u1") "1" true true
                     (toggleLike (Some "u1") "1" true true firstLoad)))
     = [[("1", true, 10)]]
  /\ likedSongs (toggleLike (Some "u1") "1" true true
                   (toggleLike (Some "u1") "1" true true firstLoad)) = {[Some 1]}.
Proof. repeat split; reflexivity. Qed.

(** C9, amended.  With a user id and both remote calls succeeding, two
    calls of [toggleLike] on the same id restore the liked-id set and the
    like count of every song of both projections.  The isLiked flag of the
    songs with that id ends equal to the membership of the id in the liked
    set before the first call; so the projections are restored entirely
    exactly where the flags agreed with the liked set to begin with. *)
Theorem toggleLike_twice uid songId st :
  JS.truthy_opt uid = true ->
  let st2 := toggleLike uid songId true true (toggleLike uid songId true true st) in
  let wasLiked := bool_decide (JS.parseInt songId ∈ likedSongs st) in
  let agrees := fun s => id s = songId -> isLiked s = wasLiked in
  likedSongs st2 = likedSongs st
  /\ List.map likes (songs st2) = List.map likes (songs st)
  /\ List.map (fun p => List.map likes (p_songs p)) (playlists st2)
     = List.map (fun p => List.map likes (p_songs p)) (playlists st)
  /\ Forall agrees (songs st2)
  /\ Forall (fun p => Forall agrees (p_songs p)) (playlists st2)
  /\ (Forall agrees (songs st) -> songs st2 = songs st)
  /\ (Forall (fun p => Forall agrees (p_songs p)) (playlists st) ->
        playlists st2 = playlists st).
Proof.
  intros Hu st2 wasLiked agrees.
  destruct (toggleLike_ok uid songId st Hu) as (Hl1 & Hs1 & Hp1).
  destruct (toggleLike_ok uid songId (toggleLike uid songId true true st) Hu)
    as (Hl2 & Hs2 & Hp2).
  fold wasLiked in Hl1, Hs1, Hp1. fold st2 in Hl2, Hs2, Hp2.
  assert (Hm : bool_decide (JS.parseInt songId ∈ likedSongs (toggleLike uid songId true true st))
               = negb wasLiked).
  { rewrite Hl1. apply toggled_membership. }
  rewrite Hm in Hl2, Hs2, Hp2. rewrite Hs1 in Hs2. rewrite Hp1 in Hp2.
  rewrite List.map_map in Hp2. simpl in Hp2.
  split.
  { rewrite Hl2, Hl1. apply toggled_set_back. }
  split; [rewrite Hs2; apply likeUpdate_twice_likes|].
  split.
  { rewrite Hp2, List.map_map. apply List.map_ext. intros p. simpl.
    apply likeUpdate_twice_likes. }
  split; [rewrite Hs2; apply likeUpdate_twice_flag|].
  split.
  { rewrite Hp2. apply List.Forall_forall. intros p' Hp'.
    apply List.in_map_iff in Hp' as (p & <- & _). simpl. apply likeUpdate_twice_flag. }
  split; [intros Ha; rewrite Hs2; now apply likeUpdate_twice_id|].
  intros Ha. rewrite Hp2. rewrite <- (List.map_id (playlists st)) at 2.
  apply List.map_ext_in. intros p Hp. rewrite List.Forall_forall in Ha.
  rewrite (likeUpdate_twice_id songId wasLiked (p_songs p) (Ha p Hp)).
  now destruct p.
Qed.

Lemma toggleLike_twice_witness :
  List.map likes (songs (toggleLike (Some "u1") "1" true true
                           (toggleLike (Some "u1") "1" true true firstLoad)))
  = List.map likes (songs firstLoad).
Proof. apply (toggleLike_twice (Some "u1") "1" firstLoad); reflexivity. Defined.

(** A failed remote call changes nothing locally. *)
Lemma toggleLike_failed uid songId mutationOk rpcOk st :
  mutationOk && rpcOk = false -> toggleLike uid songId mutationOk rpcOk st = st.
Proof.
  unfold toggleLike. intros H. destruct (negb (JS.truthy_opt uid)); [reflexivity|].
  destruct mutationOk, rpcOk; simpl in *; try reflexivity. discriminate.
Qed.

(** ** Playlists *)

(** The operations on the playlist projection, each with the user id it
    runs under and the outcome of its remote call. *)
Inductive Op :=
| OpFetch (userId : option string) (liked : gset number) (rem : Remote)
| OpCreate (userId : option string) (name : string) (resp : Response (Z * string))
| OpDelete (userId : option string) (playlistId : string) (ok : bool)
| OpRename (userId : option string) (playlistId newName : string) (ok : bool)
| OpAdd (userId : option string) (playlistId : string) (song : Song) (ok : bool)
| OpRemove (userId : option string) (playlistId songId : string) (ok : bool)
| OpToggleLike (userId : option string) (songId : string) (mutationOk rpcOk : bool).

Definition step (st : State) (op : Op) : State :=
  match op with
  | OpFetch userId liked rem => fetchPlaylists userId liked rem st
  | OpCreate userId name resp => createPlaylist userId name resp st
  | OpDelete userId playlistId ok => deletePlaylist userId playlistId ok st
  | OpRename userId playlistId newName ok => renamePlaylist userId playlistId newName ok st
  | OpAdd userId playlistId song ok => addSongToPlaylist userId playlistId song ok st
  | OpRemove userId playlistId songId ok => removeSongFromPlaylist userId playlistId songId ok st
  | OpToggleLike userId songId mutationOk rpcOk => toggleLike userId songId mutationOk rpcOk st
  end.

Definition run (ops : list Op) (st : State) : State := fold_left step ops st.

(** The count is the length, and the cover is what [songs[0]?.image ||
    default] gives. *)
Definition playlistOk (p : Playlist) : Prop :=
  songCount p = length (p_songs p) /\ p_image p = coverOr (p_songs p) defaultImage.

Lemma coverOr_nested l : coverOr l (coverOr l defaultImage) = coverOr l defaultImage.
Proof.
  destruct l as [|s r]; simpl; [reflexivity|].
  unfold JS.or_else. now destruct (JS.truthy (image s)).
Qed.

Lemma coverOr_snoc l song fallback :
  coverOr (l ++ [song]) fallback
  = match l with [] => JS.or_else (image song) fallback | _ => coverOr l fallback end.
Proof. now destruct l. Qed.

Lemma addSongLocal_ok playlistId song p : playlistOk p -> playlistOk (addSongLocal playlistId song p).
Proof.
  intros [Hc Hi]. unfold addSongLocal.
  destruct (String.eqb (p_id p) playlistId); [|now split].
  destruct (existsb (fun s => String.eqb (id s) (id song)) (p_songs p)); simpl; [now split|].
  split; simpl; [reflexivity|].
  rewrite Hi. destruct (p_songs p) as [|s r]; simpl; [reflexivity|].
  unfold JS.or_else. now destruct (JS.truthy (image s)).
Qed.

Lemma removeSongLocal_ok playlistId songId p : playlistOk (removeSongLocal playlistId songId p) \/
  removeSongLocal playlistId songId p = p.
Proof.
  unfold removeSongLocal. destruct (String.eqb (p_id p) playlistId); [left|now right].
  split; reflexivity.
Qed.

Lemma likeUpdate_image songId b s : image (likeUpdate songId b s) = image s.
Proof. unfold likeUpdate. now destruct (String.eqb (id s) songId). Qed.

Lemma likeUpdate_id songId b s : id (likeUpdate songId b s) = id s.
Proof. unfold likeUpdate. now destruct (String.eqb (id s) songId). Qed.

Lemma withSongs_likeUpdate_ok songId b p :
  playlistOk p -> playlistOk (withSongs p (List.map (likeUpdate songId b) (p_songs p))).
Proof.
  intros [Hc Hi]. split; simpl.
  - now rewrite List.length_map.
  - rewrite Hi. destruct (p_songs p) as [|s r]; simpl; [reflexivity|].
    now rewrite likeUpdate_image.
Qed.

Lemma convertPlaylist_ok liked row : playlistOk (convertPlaylist liked row).
Proof. split; reflexivity. Qed.

Lemma Forall_map_ok (f : Playlist -> Playlist) l :
  (forall p, playlistOk p -> playlistOk (f p)) ->
  Forall playlistOk l -> Forall playlistOk (List.map f l).
Proof.
  intros Hf H. induction H as [|p r Hp Hr IH]; simpl; constructor; auto.
Qed.

Lemma step_ok st op :
  Forall playlistOk (playlists st) -> Forall playlistOk (playlists (step st op)).
Proof.
  intros H. destruct op; simpl.
  - unfold fetchPlaylists. destruct (negb (JS.truthy_opt userId)); simpl; [constructor|].
    destruct (r_playlists rem) as [|d]; simpl; [exact H|].
    apply List.Forall_forall. intros p Hp. apply List.in_map_iff in Hp as (row & <- & _).
    apply convertPlaylist_ok.
  - unfold createPlaylist. destruct (negb (JS.truthy_opt userId)); [exact H|].
    destruct resp as [|[[data_id data_name]|]]; simpl; try exact H.
    apply List.Forall_app. split; [exact H|]. constructor; [|constructor]. split; reflexivity.
  - unfold deletePlaylist. destruct (negb (JS.truthy_opt userId)); [exact H|].
    destruct ok; simpl; [|exact H].
    apply List.Forall_forall. intros p Hp. apply List.filter_In in Hp as [Hp _].
    rewrite List.Forall_forall in H. now apply H.
  - unfold renamePlaylist. destruct (negb (JS.truthy_opt userId)); [exact H|].
    destruct ok; simpl; [|exact H].
    apply Forall_map_ok; [|exact H]. intros p Hp.
    destruct (String.eqb (p_id p) playlistId); [|exact Hp]. exact Hp.
  - unfold addSongToPlaylist. destruct (negb (JS.truthy_opt userId)); [exact H|].
    destruct ok; simpl; [|exact H].
    apply Forall_map_ok; [|exact H]. intros p. apply addSongLocal_ok.
  - unfold removeSongFromPlaylist. destruct (negb (JS.truthy_opt userId)); [exact H|].
    destruct ok; simpl; [|exact H].
    apply Forall_map_ok; [|exact H]. intros p Hp.
    destruct (removeSongLocal_ok playlistId songId p) as [Hr| ->]; assumption.
  - unfold toggleLike. destruct (negb (JS.truthy_opt userId)); [exact H|].
    destruct mutationOk, rpcOk; simpl; try exact H.
    repeat case_bool_decide; simpl;
      (apply Forall_map_ok; [|exact H]); intros p; apply withSongs_likeUpdate_ok.
Qed.

Lemma run_ok ops : forall st,
  Forall playlistOk (playlists st) -> Forall playlistOk (playlists (run ops st)).
Proof.
  induction ops as [|op r IH]; intros st H; simpl; [exact H|].
  apply IH. now apply step_ok.
Qed.

Lemma existsb_id_false song l :
  existsb (fun s => String.eqb (id s) (id song)) l = false -> ~ In (id song) (List.map id l).
Proof.
  intros He Hin. apply List.in_map_iff in Hin as (s & Hs & Hin).
  assert (existsb (fun s => String.eqb (id s) (id song)) l = true) as Ht.
  { apply List.existsb_exists. exists s. split; [exact Hin|]. now apply String.eqb_eq. }
  congruence.
Qed.

Lemma addSongLocal_no_copy playlistId song p :
  (existsb (fun s => String.eqb (id s) (id song)) (p_songs p) = true ->
     addSongLocal playlistId song p = p)
  /\ (List.NoDup (List.map id (p_songs p)) ->
        List.NoDup (List.map id (p_songs (addSongLocal playlistId song p)))).
Proof.
  unfold addSongLocal. split.
  - intros ->. now destruct (String.eqb (p_id p) playlistId).
  - intros Hn. destruct (String.eqb (p_id p) playlistId); [|exact Hn].
    destruct (existsb (fun s => String.eqb (id s) (id song)) (p_songs p)) eqn:He;
      simpl; [exact Hn|].
    rewrite List.map_app. simpl.
    eapply Permutation_NoDup; [apply Permutation_cons_append|].
    constructor; [now apply existsb_id_false|exact Hn].
Qed.

Lemma convertDatabaseSong_image d b : JS.truthy (image (convertDatabaseSong d b)) = true.
Proof. reflexivity. Qed.

(** Every song the operations add carries an image, as every song the
    hook hands out does. *)
Definition addsWithImage (ops : list Op) : Prop :=
  Forall (fun op =>
            match op with
            | OpAdd _ _ song _ => JS.truthy (image song) = true
            | _ => True
            end) ops.

Definition allWithImage (p : Playlist) : Prop :=
  Forall (fun s => JS.truthy (image s) = true) (p_songs p).

Lemma likeUpdate_withImage songId b l :
  Forall (fun s => JS.truthy (image s) = true) l ->
  Forall (fun s => JS.truthy (image s) = true) (List.map (likeUpdate songId b) l).
Proof.
  intros H. apply List.Forall_forall. intros s' Hs'.
  apply List.in_map_iff in Hs' as (s & <- & Hs). rewrite likeUpdate_image.
  rewrite List.Forall_forall in H. now apply H.
Qed.

Lemma Forall_map_image (f : Playlist -> Playlist) l :
  (forall p, allWithImage p -> allWithImage (f p)) ->
  Forall allWithImage l -> Forall allWithImage (List.map f l).
Proof.
  intros Hf H. induction H as [|p r Hp Hr IH]; simpl; constructor; auto.
Qed.

Lemma step_withImage st op :
  match op with
  | OpAdd _ _ song _ => JS.truthy (image song) = true
  | _ => True
  end ->
  Forall allWithImage (playlists st) -> Forall allWithImage (playlists (step st op)).
Proof.
  intros Hop H. destruct op; simpl.
  - unfold fetchPlaylists. destruct (negb (JS.truthy_opt userId)); simpl; [constructor|].
    destruct (r_playlists rem) as [|d]; simpl; [exact H|].
    apply List.Forall_forall. intros p Hp. apply List.in_map_iff in Hp as (row & <- & _).
    unfold allWithImage. simpl. apply List.Forall_forall. intros s Hs.
    apply List.in_map_iff in Hs as (d0 & <- & _). reflexivity.
  - unfold createPlaylist. destruct (negb (JS.truthy_opt userId)); [exact H|].
    destruct resp as [|[[data_id data_name]|]]; simpl; try exact H.
    apply List.Forall_app. split; [exact H|]. repeat constructor.
  - unfold deletePlaylist. destruct (negb (JS.truthy_opt userId)); [exact H|].
    destruct ok; simpl; [|exact H].
    apply List.Forall_forall. intros p Hp. apply List.filter_In in Hp as [Hp _].
    rewrite List.Forall_forall in H. now apply H.
  - unfold renamePlaylist. destruct (negb (JS.truthy_opt userId)); [exact H|].
    destruct ok; simpl; [|exact H].
    apply Forall_map_image; [|exact H]. intros p Hp.
    destruct (String.eqb (p_id p) playlistId); exact Hp.
  - unfold addSongToPlaylist. destruct (negb (JS.truthy_opt userId)); [exact H|].
    destruct ok; simpl; [|exact H].
    apply Forall_map_image; [|exact H]. intros p Hp. unfold addSongLocal.
    destruct (String.eqb (p_id p) playlistId); [|exact Hp].
    destruct (existsb (fun s => String.eqb (id s) (id song)) (p_songs p)); [exact Hp|].
    unfold allWithImage. simpl. apply List.Forall_app. split; [exact Hp|].
    constructor; [exact Hop|constructor].
  - unfold removeSongFromPlaylist. destruct (negb (JS.truthy_opt userId)); [exact H|].
    destruct ok; simpl; [|exact H].
    apply Forall_map_image; [|exact H]. intros p Hp. unfold removeSongLocal.
    destruct (String.eqb (p_id p) playlistId); [|exact Hp].
    unfold allWithImage. simpl. apply List.Forall_forall. intros s Hs.
    apply List.filter_In in Hs as [Hs _]. unfold allWithImage in Hp.
    rewrite List.Forall_forall in Hp. now apply Hp.
  - unfold toggleLike. destruct (negb (JS.truthy_opt userId)); [exact H|].
    destruct mutationOk, rpcOk; simpl; try exact H.
    repeat case_bool_decide; simpl;
      (apply Forall_map_image; [|exact H]); intros p Hp; unfold allWithImage; simpl;
      now apply likeUpdate_withImage.
Qed.

Lemma run_withImage ops : forall st,
  addsWithImage ops ->
  Forall allWithImage (playlists st) -> Forall allWithImage (playlists (run ops st)).
Proof.
  induction ops as [|op r IH]; intros st Ha H; simpl; [exact H|].
  inversion Ha as [|? ? Hop Hr]; subst. apply IH; [exact Hr|]. now apply step_withImage.
Qed.

(** C10.  After every sequence of fetches, creations, deletions,
    renamings, additions, removals and like toggles, whatever their remote
    outcomes, every playlist of the projection has a count equal to the
    length of its list and, as cover, the image of its first song, or the
    placeholder when it has no song; the songs that are added carry an
    image, as every song [convertDatabaseSong] builds does, a like toggle
    leaving the image as it is.  An addition leaves a playlist that holds
    the id as it is, and keeps ids distinct where they were. *)
Theorem playlist_invariants :
  (forall ops,
     addsWithImage ops ->
     Forall (fun p =>
               songCount p = length (p_songs p)
               /\ p_image p
                  = match p_songs p with
                    | [] => defaultImage
                    | s :: _ => image s
                    end)
       (playlists (run ops initialState)))
  /\ (forall d b songId liked,
        JS.truthy (image (convertDatabaseSong d b)) = true
        /\ image (likeUpdate songId liked (convertDatabaseSong d b))
           = image (convertDatabaseSong d b))
  /\ (forall userId playlistId song ok st,
        Forall2 (fun p p' =>
                   (existsb (fun s => String.eqb (id s) (id song)) (p_songs p) = true -> p' = p)
                   /\ (List.NoDup (List.map id (p_songs p)) -> List.NoDup (List.map id (p_songs p'))))
          (playlists st) (playlists (addSongToPlaylist userId playlistId song ok st))).
Proof.
  split; [|split].
  - intros ops Ha.
    pose proof (run_ok ops initialState (List.Forall_nil _)) as Hok.
    pose proof (run_withImage ops initialState Ha (List.Forall_nil _)) as Him.
    apply List.Forall_forall. intros p Hp. rewrite List.Forall_forall in Hok, Him.
    destruct (Hok p Hp) as [Hc Hi]. specialize (Him p Hp).
    split; [exact Hc|]. rewrite Hi. unfold allWithImage in Him.
    destruct (p_songs p) as [|s r]; [reflexivity|]. simpl.
    inversion Him as [|? ? Hs _]; subst. unfold JS.or_else. now rewrite Hs.
  - intros d b songId liked. split; [reflexivity|apply likeUpdate_image].
  - intros userId playlistId song ok st.
    assert (Hid : Forall2 (fun p p' =>
                   (existsb (fun s => String.eqb (id s) (id song)) (p_songs p) = true -> p' = p)
                   /\ (List.NoDup (List.map id (p_songs p)) -> List.NoDup (List.map id (p_songs p'))))
                    (playlists st) (playlists st)).
    { induction (playlists st); constructor; auto. }
    unfold addSongToPlaylist. destruct (negb (JS.truthy_opt userId)); [exact Hid|].
    destruct ok; simpl; [|exact Hid].
    clear Hid. induction (playlists st) as [|p r IH]; simpl; constructor; [|exact IH].
    apply addSongLocal_no_copy.
Qed.

(** ** Which identity is used *)

Module Identity.

(** The storage holds the record of u1.  The session check times out,
    and a notification that is neither a sign-in nor a sign-out (a
    refreshed token, say) then delivers a session of user s2. *)
Definition stale : useAuth.AuthState :=
  useAuth.onAuthStateChange useAuth.OTHER_EVENT (Some (Ex.sessionUser "s2")) true
    (useAuth.getInitialSession (Some (Ex.localUser "u1")) useAuth.SessionError true
       (useAuth.initial (Some (useAuth.Stored (Ex.localUser "u1"))))).

(** The storage holds the record of u1; user s2 signs in, and the write of
    the new record to the storage throws. *)
Definition unsaved : useAuth.AuthState :=
  useAuth.onAuthStateChange useAuth.SIGNED_IN (Some (Ex.sessionUser "s2")) false
    (useAuth.initial (Some (useAuth.Stored (Ex.localUser "u1")))).

End Identity.

Example stale_state :
  option_map useAuth.u_id (useAuth.user Identity.stale) = Some "s2"
  /\ option_map useAuth.l_id (useAuth.localUserData Identity.stale) = Some "u1".
Proof. split; reflexivity. Qed.

(** The data hook and the effective user give the session user the
    priority: with a session user whose id is not empty, that id is the one
    the data hook uses, whatever is stored; with no session user, the
    effective user is built from the local record and the hook uses the
    stored id. *)
Lemma data_hook_prefers_session (st : useAuth.AuthState) :
  (forall u, useAuth.user st = Some u ->
     useAuth.effectiveUser st = Some u
     /\ (JS.truthy (useAuth.u_id u) = true ->
           forall ls,
             getUserId (useAuth.user st) ls = Some (useAuth.u_id u)
             /\ getUserId (useAuth.effectiveUser st) ls = Some (useAuth.u_id u)))
  /\ (useAuth.user st = None ->
        useAuth.effectiveUser st = option_map useAuth.userOfLocal (useAuth.localUserData st)
        /\ getUserId (useAuth.user st) (useAuth.storage st)
           = option_map useAuth.l_id (useAuth.getLocalUserData (useAuth.storage st))).
Proof.
  split.
  - intros u Hu. unfold useAuth.effectiveUser. rewrite Hu.
    split; [reflexivity|]. intros Ht ls. unfold getUserId. now rewrite Ht.
  - intros Hu. unfold useAuth.effectiveUser, getUserId. rewrite Hu.
    split; [now destruct (useAuth.localUserData st)|].
    now destruct (useAuth.storage st) as [[|d]|].
Qed.

(** C1 on the code.  The [getUserId] that [useAuth] returns looks at the
    local record first: whenever that record carries a non-empty id it
    answers this id, whatever the session user is.  So in the two states
    above, where a session of s2 is present next to the stored record of
    u1, it answers u1, while the effective user and the [getUserId] of the
    data hook answer s2. *)
Theorem useAuth_getUserId_ignores_session :
  (forall st u d,
     useAuth.user st = Some u -> useAuth.localUserData st = Some d ->
     JS.truthy (useAuth.l_id d) = true ->
     useAuth.getUserId st = Some (useAuth.l_id d))
  /\ option_map useAuth.u_id (useAuth.user Identity.stale) = Some "s2"
  /\ option_map useAuth.u_id (useAuth.effectiveUser Identity.stale) = Some "s2"
  /\ getUserId (useAuth.effectiveUser Identity.stale) (useAuth.storage Identity.stale)
     = Some "s2"
  /\ useAuth.getUserId Identity.stale = Some "u1"
  /\ option_map useAuth.u_id (useAuth.user Identity.unsaved) = Some "s2"
  /\ option_map useAuth.u_id (useAuth.effectiveUser Identity.unsaved) = Some "s2"
  /\ getUserId (useAuth.effectiveUser Identity.unsaved) (useAuth.storage Identity.unsaved)
     = Some "s2"
  /\ useAuth.getUserId Identity.unsaved = Some "u1".
Proof.
  split; [|repeat split; reflexivity].
  intros st u d _ Hd Ht. unfold useAuth.getUserId. now rewrite Hd, Ht.
Qed.

(** A session check that fails or times out falls back to the stored
    record, and loading ends. *)
Lemma session_timeout_falls_back d stored :
  let st := useAuth.getInitialSession (Some d) useAuth.SessionError stored
              (useAuth.initial (Some (useAuth.Stored d))) in
  option_map useAuth.u_id (useAuth.effectiveUser st) = Some (useAuth.l_id d)
  /\ useAuth.loading st = false
  /\ useAuth.isAuthenticated st = true.
Proof. repeat split; reflexivity. Qed.

Lemma personalized_filters_witness :
  Forall (fun s => id s ∉ historySongIds
                     (historyOfRemote (Ex.store Ex.catalog3 [] [Ex.played Ex.songA 3])))
    (personalizedSongs
       (fetchSongs (Some "u1") (Ex.store Ex.catalog3 [] [Ex.played Ex.songA 3]) initialState)).
Proof.
  apply (personalized_filters (fun q => q) (fun _ => 1 # 2) "u1"
           (convertDatabaseSong Ex.songA false) None [] ∅
           (Data (Some Ex.catalog3)) (Data (Some [])) (Data (Some []))
           (Some "u1") (Ex.store Ex.catalog3 [] [Ex.played Ex.songA 3]) initialState).
Defined.

Lemma playlist_invariants_witness :
  Forall (fun p =>
            songCount p = length (p_songs p)
            /\ p_image p
               = match p_songs p with
                 | [] => defaultImage
                 | s :: _ => image s
                 end)
    (playlists (run [OpCreate (Some "u1") "mix" (Data (Some (7, "mix")));
                     OpAdd (Some "u1") "7" (convertDatabaseSong Ex.songA false) true;
                     OpAdd (Some "u1") "7" (convertDatabaseSong Ex.songB true) true;
                     OpToggleLike (Some "u1") "1" true true;
                     OpRemove (Some "u1") "7" "1" true] initialState)).
Proof. apply (proj1 playlist_invariants). repeat constructor. Defined.

Example playlist_run_ex :
  List.map (fun p => (p_name p, songCount p, List.map id (p_songs p),
                      String.eqb (p_image p) (imageOf 2)))
    (playlists (run [OpCreate (Some "u1") "mix" (Data (Some (7, "mix")));
                     OpAdd (Some "u1") "7" (convertDatabaseSong Ex.songA false) true;
                     OpAdd (Some "u1") "7" (convertDatabaseSong Ex.songB true) true;
                     OpAdd (Some "u1") "7" (convertDatabaseSong Ex.songB true) true;
                     OpRename (Some "u1") "7" "road" true;
                     OpRemove (Some "u1") "7" "1" true] initialState))
  = [("road", 1%nat, ["2"], true)].
Proof. reflexivity. Qed.

(** * More of the two hooks *)

(** ** [useAuth]: signing in and out, and the wrapper that reads the hook *)

(** How the provider's [signOut] call ends: no error, an error in the
    answer (logged), or a rejection (caught). *)
Inductive SignOutOutcome := SignedOut | SignOutError | SignOutThrew.

(** How [localStorage.clear()] and [sessionStorage.clear()] end: both
    return, the first throws, or the second throws after the first has
    emptied the storage. *)
Inductive ClearOutcome := Cleared | LocalClearThrew | SessionClearThrew.

(** [localStorage.clear()] *)
Definition clearStorage (st : useAuth.AuthState) : useAuth.AuthState :=
  {| useAuth.user := useAuth.user st; useAuth.localUserData := useAuth.localUserData st;
     useAuth.loading := useAuth.loading st; useAuth.storage := None |}.

(** [signOut]: one [try] holds the provider call, the two [clear()] calls,
    [clearLocalUserData()] and [setUser(null)], in this order; whatever
    throws skips the rest, and the [catch] only ends loading. *)
Definition signOut (r : SignOutOutcome) (c : ClearOutcome) (st : useAuth.AuthState)
  : useAuth.AuthState :=
  let st := useAuth.setLoading true st in
  match r with
  | SignOutThrew => useAuth.setLoading false st
  | SignedOut | SignOutError =>
      match c with
      | LocalClearThrew => useAuth.setLoading false st
      | SessionClearThrew => useAuth.setLoading false (clearStorage st)
      | Cleared =>
          useAuth.setLoading false
            (useAuth.setUser None (useAuth.clearLocalUserData (clearStorage st)))
      end
  end.

(** [signInWithGoogle]: loading starts, and ends here only when the
    provider refuses ([initiated = false]). *)
Definition signInWithGoogle (initiated : bool) (st : useAuth.AuthState) : useAuth.AuthState :=
  let st := useAuth.setLoading true st in
  if initiated then st else useAuth.setLoading false st.

(** What [AuthWrapper] renders. *)
Inductive Screen := LoadingSpinner | LoginPage | Children.

Definition AuthWrapper (st : useAuth.AuthState) : Screen :=
  if useAuth.loading st then LoadingSpinner
  else if negb (useAuth.isAuthenticated st) then LoginPage
  else Children.

(** One notification of the session provider: the event, the session it
    carries, and whether the storage accepts a write. *)
Definition Notification : Type := useAuth.AuthEvent * option useAuth.User * bool.

Definition notify (st : useAuth.AuthState) (e : Notification) : useAuth.AuthState :=
  useAuth.onAuthStateChange (fst (fst e)) (snd (fst e)) (snd e) st.

(** The hook from its start: the stored item is read, the session check
    settles, then notifications arrive. *)
Definition authRun (ls : useAuth.LocalStorage) (r : useAuth.SessionCheck) (stored : bool)
    (events : list Notification) : useAuth.AuthState :=
  fold_left notify events
    (useAuth.getInitialSession (useAuth.getLocalUserData ls) r stored (useAuth.initial ls)).

(** The local record of the state is the one the store holds. *)
Definition mirrors (st : useAuth.AuthState) : Prop :=
  useAuth.localUserData st = useAuth.getLocalUserData (useAuth.storage st).

(** X1.  However the session check settles and whatever notification
    arrives, in whatever state and whether or not the storage accepts a
    write, loading is over afterwards; this holds also after a sign-in was
    initiated, which itself leaves loading on. *)
Theorem auth_loading_ends localData r event session stored st :
  useAuth.loading (useAuth.getInitialSession localData r stored st) = false
  /\ useAuth.loading (useAuth.onAuthStateChange event session stored st) = false
  /\ useAuth.loading (signInWithGoogle true st) = true
  /\ useAuth.loading
       (useAuth.onAuthStateChange event session stored (signInWithGoogle true st)) = false
  /\ useAuth.loading (signInWithGoogle false st) = false.
Proof.
  repeat split.
  - destruct r, localData, stored; reflexivity.
  - destruct event, session, stored; reflexivity.
  - destruct event, session, stored; reflexivity.
Qed.

Lemma notify_mirrors st e : mirrors st -> mirrors (notify st e).
Proof.
  unfold mirrors, notify. destruct e as [[[| |] [u|]] [|]]; simpl; auto.
Qed.

Lemma notify_loading st e : useAuth.loading (notify st e) = false.
Proof. unfold notify. destruct e as [[[| |] [u|]] [|]]; reflexivity. Qed.

Lemma fold_notify_mirrors events : forall st,
  mirrors st -> useAuth.loading st = false ->
  mirrors (fold_left notify events st)
  /\ useAuth.loading (fold_left notify events st) = false.
Proof.
  induction events as [|e r IH]; intros st Hm Hl; simpl; [now split|].
  apply IH; [now apply notify_mirrors|apply notify_loading].
Qed.

(** X2.  When the session check settles before the notifications, the
    local record of the state always is the record the store holds, so the
    id the data hook falls back to is the id of the state's local record;
    and loading is over.  This is so whether or not the storage accepts
    the writes. *)
Theorem auth_local_record_mirrors_storage ls r stored events :
  let st := authRun ls r stored events in
  useAuth.localUserData st = useAuth.getLocalUserData (useAuth.storage st)
  /\ getUserId None (useAuth.storage st)
     = option_map useAuth.l_id (useAuth.localUserData st)
  /\ useAuth.loading st = false.
Proof.
  intros st.
  assert (H : mirrors st /\ useAuth.loading st = false).
  { subst st. unfold authRun. apply fold_notify_mirrors.
    - unfold mirrors. destruct r, stored, ls as [[|d]|]; reflexivity.
    - destruct r, stored, ls as [[|d]|]; reflexivity. }
  destruct H as [Hm Hl]. split; [exact Hm|]. split; [|exact Hl].
  unfold mirrors in Hm. rewrite Hm. unfold getUserId.
  now destruct (useAuth.storage st) as [[|d]|].
Qed.

(** X3.  A session check that fails, times out or finds no session leaves
    what the store held: with a stored record the effective user is built
    from it and the user counts as authenticated, without one there is no
    effective user; the store is not written. *)
Theorem auth_check_falls_back ls stored :
  let failed := useAuth.getInitialSession (useAuth.getLocalUserData ls)
                  useAuth.SessionError stored (useAuth.initial ls) in
  let absent := useAuth.getInitialSession (useAuth.getLocalUserData ls)
                  useAuth.NoSession stored (useAuth.initial ls) in
  let expected := option_map useAuth.userOfLocal (useAuth.getLocalUserData ls) in
  useAuth.effectiveUser failed = expected
  /\ useAuth.effectiveUser absent = expected
  /\ useAuth.storage failed = ls /\ useAuth.storage absent = ls
  /\ useAuth.user failed = None /\ useAuth.user absent = None
  /\ useAuth.isAuthenticated failed
     = match useAuth.getLocalUserData ls with Some _ => true | None => false end
  /\ useAuth.isAuthenticated absent
     = match useAuth.getLocalUserData ls with Some _ => true | None => false end.
Proof. destruct ls as [[|d]|]; repeat split; reflexivity. Qed.

(** The three holders of the identity carry [u], and the three ways to
    ask for the id answer it when it is not empty. *)
Definition agreesOn (u : useAuth.User) (st : useAuth.AuthState) : Prop :=
  useAuth.user st = Some u
  /\ useAuth.localUserData st = Some (useAuth.userDataOf u)
  /\ useAuth.storage st = Some (useAuth.Stored (useAuth.userDataOf u))
  /\ useAuth.effectiveUser st = Some u
  /\ (JS.truthy (useAuth.u_id u) = true ->
        useAuth.getUserId st = Some (useAuth.u_id u)
        /\ getUserId (useAuth.effectiveUser st) (useAuth.storage st)
           = Some (useAuth.u_id u)).

(** The session user is [u], while the local record and the stored item
    are those of [st]. *)
Definition sessionOnly (u : useAuth.User) (st st' : useAuth.AuthState) : Prop :=
  useAuth.user st' = Some u
  /\ useAuth.effectiveUser st' = Some u
  /\ useAuth.localUserData st' = useAuth.localUserData st
  /\ useAuth.storage st' = useAuth.storage st
  /\ (JS.truthy (useAuth.u_id u) = true ->
        getUserId (useAuth.effectiveUser st') (useAuth.storage st') = Some (useAuth.u_id u)).

(** X4.  After a session check that found user [u], and after a sign-in
    notification for [u], the session user is [u].  When the storage
    accepts the write, the local record and the stored item carry the id of
    [u] as well, whatever was there before, and when that id is not empty
    the accessor of [useAuth], the effective user and the data hook agree
    on it.  When the write throws, the local record and the stored item
    stay as they were; the effective user and the data hook still answer
    [u]. *)
Theorem auth_signed_in_agree localData u st :
  useAuth.l_id (useAuth.userDataOf u) = useAuth.u_id u
  /\ agreesOn u (useAuth.getInitialSession localData (useAuth.SessionOf u) true st)
  /\ agreesOn u (useAuth.onAuthStateChange useAuth.SIGNED_IN (Some u) true st)
  /\ sessionOnly u st (useAuth.getInitialSession localData (useAuth.SessionOf u) false st)
  /\ sessionOnly u st (useAuth.onAuthStateChange useAuth.SIGNED_IN (Some u) false st).
Proof.
  split; [reflexivity|].
  split; [|split; [|split]]; unfold agreesOn, sessionOnly;
    (split; [reflexivity|]); (split; [reflexivity|]);
    (split; [reflexivity|]); (split; [reflexivity|]);
    intros Ht; unfold useAuth.getUserId, getUserId; simpl; now rewrite Ht.
Qed.

Lemma auth_signed_in_agree_witness :
  useAuth.getUserId
    (useAuth.onAuthStateChange useAuth.SIGNED_IN (Some (Ex.sessionUser "s2")) true
       Identity.stale)
  = Some "s2".
Proof.
  apply (proj1 (proj2 (proj2 (auth_signed_in_agree None (Ex.sessionUser "s2") Identity.stale)))).
  reflexivity.
Defined.

(** X5.  [signOut] always ends loading.  When the provider call does not
    reject (also when it answers with an error) and both storages are
    cleared, the session user, the local record and the stored item are
    gone, the wrapper shows the login page and the data hook finds no user
    id.  When the call rejects, or [localStorage.clear()] throws, the
    identity is left as it was, session user included.  When only
    [sessionStorage.clear()] throws, the stored item is gone while the
    session user and the local record stay. *)
Theorem signOut_clears_identity r c st :
  useAuth.loading (signOut r c st) = false
  /\ (r <> SignOutThrew -> c = Cleared ->
        useAuth.user (signOut r c st) = None
        /\ useAuth.localUserData (signOut r c st) = None
        /\ useAuth.storage (signOut r c st) = None
        /\ AuthWrapper (signOut r c st) = LoginPage
        /\ getUserId (useAuth.effectiveUser (signOut r c st))
             (useAuth.storage (signOut r c st)) = None)
  /\ (r = SignOutThrew \/ c = LocalClearThrew ->
        useAuth.user (signOut r c st) = useAuth.user st
        /\ useAuth.localUserData (signOut r c st) = useAuth.localUserData st
        /\ useAuth.storage (signOut r c st) = useAuth.storage st)
  /\ (r <> SignOutThrew -> c = SessionClearThrew ->
        useAuth.user (signOut r c st) = useAuth.user st
        /\ useAuth.localUserData (signOut r c st) = useAuth.localUserData st
        /\ useAuth.storage (signOut r c st) = None).
Proof.
  split; [now destruct r, c|]. split; [|split].
  - intros Hr ->. destruct r; try contradiction; repeat split; reflexivity.
  - intros [-> | ->]; [|destruct r]; repeat split; reflexivity.
  - intros Hr ->. destruct r; try contradiction; repeat split; reflexivity.
Qed.

Lemma signOut_clears_identity_witness :
  AuthWrapper (signOut SignOutError Cleared Identity.stale) = LoginPage.
Proof.
  apply (signOut_clears_identity SignOutError Cleared Identity.stale);
    [discriminate|reflexivity].
Defined.

(** A session user outlives a sign-out whose [localStorage.clear()]
    throws: the wrapper goes on showing the application. *)
Example signOut_storage_throws :
  option_map useAuth.u_id
    (useAuth.user (signOut SignedOut LocalClearThrew Identity.unsaved)) = Some "s2"
  /\ AuthWrapper (signOut SignedOut LocalClearThrew Identity.unsaved) = Children.
Proof. split; reflexivity. Qed.

(** X6.  A sign-out notification, or any notification without a session,
    leaves no effective user and nothing stored; the reload that the data
    hook then runs finds no user id and clears both caches, the liked set
    and every view. *)
Theorem signed_out_reload_clears event session stored authSt rem st :
  event = useAuth.SIGNED_OUT \/ session = None ->
  let a := useAuth.onAuthStateChange event session stored authSt in
  let st' := loadData (useAuth.effectiveUser a) (useAuth.storage a) rem st in
  useAuth.effectiveUser a = None
  /\ useAuth.storage a = None
  /\ songsCache st' = None /\ likedSongsCache st' = None
  /\ likedSongs st' = ∅
  /\ songs st' = [] /\ personalizedSongs st' = [] /\ trendingSongs st' = []
  /\ playlists st' = [] /\ recentlyPlayedSongs st' = [] /\ lastPlayedSong st' = None
  /\ loading st' = false.
Proof.
  intros H a st'.
  assert (Ha : a = useAuth.setLoading false
                     (useAuth.clearLocalUserData (useAuth.setUser None authSt))).
  { subst a. destruct H as [-> | ->]; [reflexivity|now destruct event]. }
  subst st'. rewrite Ha. repeat split; reflexivity.
Qed.

Lemma signed_out_reload_clears_witness :
  likedSongsCache
    (loadData
       (useAuth.effectiveUser
          (useAuth.onAuthStateChange useAuth.SIGNED_OUT None true Identity.stale))
       (useAuth.storage
          (useAuth.onAuthStateChange useAuth.SIGNED_OUT None true Identity.stale))
       Switch.storeU2 Switch.afterU1) = None.
Proof.
  apply (signed_out_reload_clears useAuth.SIGNED_OUT None true Identity.stale
           Switch.storeU2 Switch.afterU1). now left.
Defined.

(** X7.  The wrapper renders its children exactly when loading is over and
    there is an effective user, the login page exactly when loading is over
    and there is none, and the spinner exactly while loading;
    [isAuthenticated] says whether there is an effective user. *)
Theorem AuthWrapper_screens st :
  (AuthWrapper st = Children
   <-> useAuth.loading st = false /\ exists u, useAuth.effectiveUser st = Some u)
  /\ (AuthWrapper st = LoginPage
      <-> useAuth.loading st = false /\ useAuth.effectiveUser st = None)
  /\ (AuthWrapper st = LoadingSpinner <-> useAuth.loading st = true)
  /\ (useAuth.isAuthenticated st = true <-> exists u, useAuth.effectiveUser st = Some u).
Proof.
  unfold AuthWrapper, useAuth.isAuthenticated, useAuth.effectiveUser.
  destruct (useAuth.loading st), (useAuth.user st) as [u|],
           (useAuth.localUserData st) as [d|]; simpl;
    repeat split; try discriminate; try reflexivity; eauto;
    try (intros [H1 H2]; try discriminate; destruct H2; discriminate);
    try (intros [u' H]; discriminate).
Qed.

(** ** The batch mode, and both modes around their caches *)

(** The tags, artists and languages of a batch, as the specification's
    score takes them. *)
Definition batchTags (batch : list Song) : list string :=
  List.flat_map (fun song => List.map JS.toLowerCase (tags song)) batch.

Definition batchArtists (batch : list Song) : list string :=
  List.map (fun song => JS.toLowerCase (artist song)) batch.

Definition batchLanguages (batch : list Song) : list string := List.map language batch.

(** The candidates of the batch mode: none for an empty batch. *)
Definition smartCandidates (batch : list Song) (excludeSongs : gset string)
    (catalog : list DatabaseSong) : list DatabaseSong :=
  match batch with
  | [] => []
  | first :: _ => smartAvailable (language first) excludeSongs catalog
  end.

Lemma smartScore_spec Math_log random batch liked i c b :
  (smartScore Math_log random batch liked i c
   == specBatchScore Math_log (batchTags batch) (batchArtists batch) (batchLanguages batch)
        (hasZ liked (db_file_id c)) (random i * 2) (convertDatabaseSong c b))%Q.
Proof.
  unfold smartScore, specBatchScore, preferredTags, preferredArtists,
    batchTags, batchArtists, batchLanguages. simpl.
  rewrite hasStr_list_to_set.
  rewrite (List.filter_ext _ _ (hasStr_list_to_set _)).
  set (n := inject_Z (Z.of_nat (length (List.filter (JS.includes _) _)))).
  change (inject_Z (Z.of_nat (length (List.filter (fun t => JS.includes _ t) _)))) with n.
  destruct (JS.includes (List.map (fun song => JS.toLowerCase (artist song)) batch)
              (JS.toLowerCase (db_artist c))),
           (JS.includes (List.map language batch) (db_language c)),
           (hasZ liked (db_file_id c)); lra.
Qed.

Lemma smart_result Math_log random userId batch excludeSongs songsR likedR st :
  fst (getSmartPersonalizedSongs Math_log random userId batch excludeSongs songsR likedR st)
  = List.map fst (firstn 15 (byScoreDescQ
      (JS.mapi (fun i song =>
         (convertDatabaseSong song (hasZ (likedUsed likedR st) (db_file_id song)),
          smartScore Math_log random batch (likedUsed likedR st) i song))
         (smartCandidates batch excludeSongs (catalogUsed songsR st))))).
Proof.
  rewrite getSmartPersonalizedSongs_result. now destruct batch.
Qed.

(** X8.  Let the call work with [catalog] (cached, or read when nothing
    is cached) and with the liked set [likedSet]: the one an earlier
    recommendation call cached, or else the ids it reads now, none when
    that read fails.  Then the batch mode returns the songs of the first 15
    entries of the ranking, by score and largest first, of the catalog
    songs that are not excluded and have the language of the first song of
    the batch.  The score of a candidate is 25 for each of its lower-cased
    tags among the batch's, plus 30 when its lower-cased artist is among
    the batch's, plus 15 when its language is among the batch's, plus twice
    the logarithm of 1 + likes, plus the logarithm of 1 + views, plus 10
    when its id is in [likedSet], plus a random term in [0, 2). *)
Theorem smart_mode_top15 Math_log random userId first rest excludeSongs songsR likedR st
    (catalog : list DatabaseSong) (likedSet : gset Z) :
  (forall i, 0 <= random i < 1)%Q ->
  songsCache st = Some catalog
  \/ (songsCache st = None /\ songsR = Data (Some catalog) /\ catalog <> []) ->
  likedSongsCache st = Some likedSet
  \/ (likedSongsCache st = None
      /\ likedSet = match likedR with
                    | Data (Some ids) => list_to_set ids
                    | _ => ∅
                    end) ->
  let batch := first :: rest in
  let candidates :=
    List.filter (fun c => negb (bool_decide (JS.toString (db_file_id c) ∈ excludeSongs))
                          && String.eqb (db_language c) (language first)) catalog in
  let result :=
    fst (getSmartPersonalizedSongs Math_log random userId batch excludeSongs
           songsR likedR st) in
  exists scored ranked : list (Song * Q),
    Forall2 (fun c e =>
               fst e = convertDatabaseSong c (bool_decide (db_file_id c ∈ likedSet))
               /\ exists jitter, (0 <= jitter < 2)%Q
                    /\ (snd e == specBatchScore Math_log (batchTags batch)
                                   (batchArtists batch) (batchLanguages batch)
                                   (bool_decide (db_file_id c ∈ likedSet)) jitter (fst e))%Q)
            candidates scored
    /\ Permutation ranked scored
    /\ StronglySorted (fun a b => (snd b <= snd a)%Q) ranked
    /\ result = List.map fst (firstn 15 ranked)
    /\ length result = Nat.min 15 (length candidates).
Proof.
  intros Hr Hcat Hliked batch candidates result.
  assert (Hl : likedUsed likedR st = likedSet).
  { unfold likedUsed, likedOfResponse. now destruct Hliked as [->|(-> & ->)]. }
  set (scored := JS.mapi (fun i song =>
         (convertDatabaseSong song (hasZ likedSet (db_file_id song)),
          smartScore Math_log random batch likedSet i song)) candidates).
  assert (Hresult : result = List.map fst (firstn 15 (byScoreDescQ scored))).
  { subst result. rewrite smart_result, Hl, (catalogUsed_eq songsR st catalog Hcat).
    reflexivity. }
  exists scored, (byScoreDescQ scored).
  split.
  { unfold scored, JS.mapi. apply mapi_from_Forall2. intros i c _. simpl.
    split; [reflexivity|]. exists (random i * 2)%Q.
    split; [specialize (Hr i); lra|apply smartScore_spec]. }
  split; [apply byScoreDescQ_perm|].
  split; [apply byScoreDescQ_sorted|].
  split; [exact Hresult|].
  rewrite Hresult, List.length_map, List.length_firstn.
  unfold byScoreDescQ. rewrite sort_length.
  unfold scored, JS.mapi. now rewrite mapi_from_length.
Qed.

(** The batch is song A; A itself is excluded, and song B, which the
    viewer likes, is the one candidate. *)
Lemma smart_mode_top15_witness :
  exists scored ranked : list (Song * Q),
    Forall2 (fun c e =>
               fst e = convertDatabaseSong c (bool_decide (db_file_id c ∈ Ex.likesB)))
            [Ex.songB] scored
    /\ Permutation ranked scored
    /\ fst (getSmartPersonalizedSongs (fun q => q) (fun _ => 1 # 2) "u1"
              [convertDatabaseSong Ex.songA false] {["1"]}
              (Data (Some Ex.catalog3)) (Data (Some [2])) initialState)
       = List.map fst (firstn 15 ranked).
Proof.
  destruct (smart_mode_top15 (fun q => q) (fun _ => 1 # 2) "u1"
              (convertDatabaseSong Ex.songA false) [] {["1"]}
              (Data (Some Ex.catalog3)) (Data (Some [2])) initialState
              Ex.catalog3 Ex.likesB)
    as (scored & ranked & Hscored & Hperm & _ & Hresult & _).
  - intros i. split; [discriminate|reflexivity].
  - right. repeat split; discriminate.
  - right. split; [reflexivity|]. unfold Ex.likesB. simpl. now rewrite union_empty_r_L.
  - exists scored, ranked. split; [|split; assumption].
    eapply Forall2_impl; [exact Hscored|]. intros c e [He _]. exact He.
Defined.

Example smart_mode_ex :
  List.map (fun s => (id s, isLiked s))
    (fst (getSmartPersonalizedSongs (fun q => q) (fun _ => 1 # 2) "u1"
            [convertDatabaseSong Ex.songA false] {["1"]}
            (Data (Some Ex.catalog3)) (Data (Some [2])) initialState))
  = [("2", true)].
Proof. reflexivity. Qed.

(** The catalog cannot be had: nothing cached, and the read fails, answers
    [null] or answers no row. *)
Definition unavailable (songsR : Response (list DatabaseSong)) : Prop :=
  songsR = Failure \/ songsR = Data None \/ songsR = Data (Some []).

(** X9.  When nothing is cached and the catalog cannot be had, both modes
    return no song and leave the state, caches included, as it was, so that
    the next call reads again; the liked songs are not even asked for.  The
    batch mode does the same for an empty batch, whatever the store says. *)
Theorem recommendations_unavailable Math_log random userId currentSong listened
    batch excludeSongs songsR historyR likedR st :
  getSmartPersonalizedSongs Math_log random userId [] excludeSongs songsR likedR st
  = ([], st)
  /\ (songsCache st = None -> unavailable songsR ->
        getPersonalizedSongs Math_log random userId currentSong listened
          songsR historyR likedR st = ([], st)
        /\ getSmartPersonalizedSongs Math_log random userId batch excludeSongs
             songsR likedR st = ([], st)).
Proof.
  split; [reflexivity|]. intros Hc Hu.
  assert (Hn : songsFromCache songsR st = None).
  { unfold songsFromCache. rewrite Hc. destruct Hu as [-> | [-> | ->]]; reflexivity. }
  unfold getPersonalizedSongs, getSmartPersonalizedSongs. rewrite Hn.
  split; [reflexivity|now destruct batch].
Qed.

Lemma recommendations_unavailable_witness :
  getPersonalizedSongs (fun q => q) (fun _ => 1 # 2) "u1"
    (convertDatabaseSong Ex.songA false) None Failure (Data (Some [])) (Data (Some [2]))
    initialState = ([], initialState).
Proof.
  apply (recommendations_unavailable (fun q => q) (fun _ => 1 # 2) "u1"
           (convertDatabaseSong Ex.songA false) None [] ∅ Failure (Data (Some []))
           (Data (Some [2])) initialState); [reflexivity|now left].
Defined.

(** X10.  With both caches filled, neither mode reads the catalog or the
    liked songs: whatever the store would answer to those reads, the result
    is the same, and the state is left as it is.  With both caches empty, a
    seed-mode call that reads a catalog with at least one song caches that
    catalog and the liked set it read (the empty set when that read failed),
    and changes nothing else. *)
Theorem recommendations_use_caches Math_log random userId currentSong listened
    batch excludeSongs historyR st :
  (forall cached likedSet,
     songsCache st = Some cached -> likedSongsCache st = Some likedSet ->
     forall songsR likedR songsR' likedR',
       getPersonalizedSongs Math_log random userId currentSong listened
         songsR historyR likedR st
       = getPersonalizedSongs Math_log random userId currentSong listened
           songsR' historyR likedR' st
       /\ snd (getPersonalizedSongs Math_log random userId currentSong listened
                 songsR historyR likedR st) = st
       /\ getSmartPersonalizedSongs Math_log random userId batch excludeSongs
            songsR likedR st
          = getSmartPersonalizedSongs Math_log random userId batch excludeSongs
              songsR' likedR' st
       /\ snd (getSmartPersonalizedSongs Math_log random userId batch excludeSongs
                 songsR likedR st) = st)
  /\ (forall song rest likedR,
        songsCache st = None -> likedSongsCache st = None ->
        snd (getPersonalizedSongs Math_log random userId currentSong listened
               (Data (Some (song :: rest))) historyR likedR st)
        = setLikedSongsCache (Some (likedOfResponse likedR))
            (setSongsCache (Some (song :: rest)) st)).
Proof.
  split.
  - intros cached likedSet Hc Hl songsR likedR songsR' likedR'.
    unfold getPersonalizedSongs, getSmartPersonalizedSongs, songsFromCache, likedFromCache.
    rewrite Hc, Hl.
    destruct (seedAvailable currentSong listened cached), batch as [|first more];
      try destruct (smartAvailable (language first) excludeSongs cached);
      repeat split; reflexivity.
  - intros song rest likedR Hc Hl.
    unfold getPersonalizedSongs, songsFromCache, likedFromCache.
    rewrite Hc. remember (seedAvailable currentSong listened (song :: rest)) as av.
    simpl. rewrite Hl. now destruct av.
Qed.

Lemma recommendations_use_caches_witness :
  snd (getPersonalizedSongs (fun q => q) (fun _ => 1 # 2) "u2" Switch.seed None
         Failure (Data None) Failure Switch.afterSwitch) = Switch.afterSwitch.
Proof.
  apply (proj1 (recommendations_use_caches (fun q => q) (fun _ => 1 # 2) "u2" Switch.seed
                  None [] ∅ (Data None) Switch.afterSwitch) Ex.catalog3 {[2]} eq_refl eq_refl
           Failure Failure Failure Failure).
Defined.

(** X11.  The language term of either score is the same for every
    candidate: a song that survives the seed-mode filter has the seed's
    language, and a song that survives the batch-mode filter has the
    language of the first song of the batch, which is one of the batch's
    languages.  So the +10, respectively +15, never changes the order. *)
Theorem language_bonus_constant currentSong listened first rest excludeSongs catalog :
  Forall (fun c => String.eqb (db_language c) (language currentSong) = true)
    (seedAvailable currentSong listened catalog)
  /\ Forall (fun c => JS.includes (List.map language (first :: rest)) (db_language c) = true)
       (smartAvailable (language first) excludeSongs catalog).
Proof.
  split; apply List.Forall_forall; intros c Hc.
  - apply seedAvailable_In in Hc as (_ & Hl & _). apply String.eqb_eq, Hl.
  - apply smartAvailable_In in Hc as (_ & Hl & _). apply includes_In. left. now symmetry.
Qed.

(** A row, and a song, with one more tag. *)
Definition withTag (t : string) (d : DatabaseSong) : DatabaseSong :=
  {| db_file_id := db_file_id d; db_img_id := db_img_id d; db_name := db_name d;
     db_artist := db_artist d; db_language := db_language d; db_tags := t :: db_tags d;
     db_views := db_views d; db_likes := db_likes d |}.

Definition withSongTag (t : string) (s : Song) : Song :=
  {| file_id := file_id s; img_id := img_id s; name := name s; artist := artist s;
     language := language s; tags := t :: tags s; views := views s; likes := likes s;
     id := id s; image := image s; isLiked := isLiked s |}.

Lemma inject_Z_succ n : (inject_Z (Z.of_nat (S n)) == inject_Z (Z.of_nat n) + 1)%Q.
Proof. rewrite Nat2Z.inj_succ. unfold Z.succ. now rewrite inject_Z_plus. Qed.

(** X12.  The scores are additive in the tags: one more tag on a candidate
    adds 15 to its seed-mode score when the seed carries that tag, 25 to
    its batch-mode score when a song of the batch carries it in lower case,
    10 to its refresh score when it is, in lower case, one of the common
    tags, and nothing otherwise; so no score decreases when a tag is added,
    all else equal. *)
Theorem scores_additive_in_tags Math_log random t :
  (forall seed historyMap liked i d,
     (seedScore Math_log random seed historyMap liked i (withTag t d)
      == seedScore Math_log random seed historyMap liked i d
         + (if JS.includes (tags seed) t then 15 else 0))%Q)
  /\ (forall batch liked i d,
        (smartScore Math_log random batch liked i (withTag t d)
         == smartScore Math_log random batch liked i d
            + (if JS.includes (batchTags batch) (JS.toLowerCase t) then 25 else 0))%Q)
  /\ (forall commonTags commonArtists s,
        refreshScore commonTags commonArtists (withSongTag t s)
        = refreshScore commonTags commonArtists s
          + (if JS.includes commonTags (JS.toLowerCase t) then 10 else 0)).
Proof.
  split; [|split].
  - intros seed historyMap liked i d. unfold seedScore.
    cbn [withTag db_tags db_artist db_language db_file_id db_likes db_views List.filter].
    destruct (JS.includes (tags seed) t); cbn [length];
      destruct (String.eqb (db_artist d) (artist seed)),
               (String.eqb (db_language d) (language seed)),
               (hasZ liked (db_file_id d)); try rewrite inject_Z_succ; lra.
  - intros batch liked i d. unfold smartScore.
    cbn [withTag db_tags db_artist db_language db_file_id db_likes db_views List.map
         List.filter].
    unfold preferredTags. rewrite hasStr_list_to_set. fold (batchTags batch).
    destruct (JS.includes (batchTags batch) (JS.toLowerCase t)); cbn [length];
      destruct (hasStr (preferredArtists batch) (JS.toLowerCase (db_artist d))),
               (JS.includes (List.map language batch) (db_language d)),
               (hasZ liked (db_file_id d)); try rewrite inject_Z_succ; lra.
  - intros commonTags commonArtists s. rewrite !refreshScore_eq.
    cbn [withSongTag tags artist views likes List.map List.filter].
    destruct (JS.includes commonTags (JS.toLowerCase t)); cbn [length];
      [rewrite Nat2Z.inj_succ|];
      destruct (JS.truthy (artist s) && JS.includes commonArtists (JS.toLowerCase (artist s)));
      lia.
Qed.

(** ** The tag and artist counts of a refresh, again *)

(** X13.  The two records a refresh builds are histograms on the keys a
    plain object counts: for every key but [__proto__] and the names
    [Object.prototype] defines (of lower-cased strings, [constructor]
    alone), the count held is the number of times the key occurs among the
    lower-cased tags, respectively the lower-cased non-empty artists, of
    the joined songs of the rows.  The keys are the strings that occur,
    each held once, except [__proto__], which is never stored; a key
    [Object.prototype] defines holds a text, every other a positive
    number. *)
Theorem refresh_counts_are_histograms top :
  (forall k, plainKey k ->
     lookupCount k (tagCount top)
     = Z.of_nat (List.count_occ String.string_dec (allTags top) k)
     /\ lookupCount k (artistCount top)
        = Z.of_nat (List.count_occ String.string_dec (allArtists top) k))
  /\ (forall k, In k (allTags top) \/ In k (allArtists top) ->
        k <> "constructor" -> k <> "__proto__" -> plainKey k)
  /\ (forall k, In k (List.map fst (tagCount top)) <-> In k (allTags top) /\ k <> "__proto__")
  /\ (forall k, In k (List.map fst (artistCount top))
                <-> In k (allArtists top) /\ k <> "__proto__")
  /\ List.NoDup (List.map fst (tagCount top))
  /\ List.NoDup (List.map fst (artistCount top))
  /\ Forall (fun e =>
               fst e <> "__proto__"
               /\ match inheritedFunction (fst e) with
                  | Some _ => exists t, snd e = Text t /\ JS.truthy t = true
                  | None => exists n, snd e = Num n /\ 0 < n
                  end) (tagCount top ++ artistCount top).
Proof.
  rewrite tagCount_bumpAll, artistCount_bumpAll.
  destruct (bumpAll_facts (allTags top) [] (List.NoDup_nil _) (List.Forall_nil _))
    as (T1 & T2 & T3 & T4).
  destruct (bumpAll_facts (allArtists top) [] (List.NoDup_nil _) (List.Forall_nil _))
    as (A1 & A2 & A3 & A4).
  split.
  { intros k Hk. rewrite (T3 k Hk), (A3 k Hk). now split. }
  split.
  { intros k Hin Hc Hp. apply lowered_plain; [|now split].
    pose proof (allTags_lowered top) as HT. pose proof (allArtists_lowered top) as HA.
    rewrite List.Forall_forall in HT, HA. destruct Hin as [Hin|Hin]; auto. }
  split; [intros k; rewrite T4; simpl; tauto|].
  split; [intros k; rewrite A4; simpl; tauto|].
  split; [exact T1|]. split; [exact A1|].
  apply List.Forall_app. split; assumption.
Qed.

Example tagCount_ex :
  tagCount [Ex.played (Ex.song 1 0 0 "en" "X" ["Rock"; "pop"]) 1;
            Ex.played (Ex.song 2 0 0 "en" "Y" ["rock"]) 1]
  = [("rock", Num 2); ("pop", Num 1)].
Proof. reflexivity. Qed.

(** X14.  When none of the lower-cased tags of the joined songs of the
    rows is [constructor] or [__proto__], the common tags of a refresh are
    most frequent ones: at most five distinct tags that occur, all of them
    when fewer than five occur, and any tag that occurs and is not among
    them occurs no more often than each of them.  The same holds for the
    common artists. *)
Theorem common_tags_most_frequent top :
  Forall ordinaryKey (allTags top) -> Forall ordinaryKey (allArtists top) ->
  let commonTags := mostCommon (tagCount top) in
  let commonArtists := mostCommon (artistCount top) in
  let occurrences := fun l k => List.count_occ String.string_dec l k in
  (length commonTags <= 5 /\ length commonArtists <= 5)%nat
  /\ length commonTags = Nat.min 5 (length (List.nodup String.string_dec (allTags top)))
  /\ length commonArtists
     = Nat.min 5 (length (List.nodup String.string_dec (allArtists top)))
  /\ List.NoDup commonTags /\ List.NoDup commonArtists
  /\ (forall k, In k commonTags -> In k (allTags top))
  /\ (forall k, In k commonArtists -> In k (allArtists top))
  /\ (forall a b, In a commonTags -> In b (allTags top) -> ~ In b commonTags ->
        (occurrences (allTags top) b <= occurrences (allTags top) a)%nat)
  /\ (forall a b, In a commonArtists -> In b (allArtists top) -> ~ In b commonArtists ->
        (occurrences (allArtists top) b <= occurrences (allArtists top) a)%nat).
Proof.
  intros HT HA commonTags commonArtists occurrences.
  assert (FT : mostFrequent 5 (allTags top) commonTags).
  { unfold commonTags. rewrite tagCount_bumpAll.
    apply mostCommon_mostFrequent, ordinary_plain; [apply allTags_lowered|exact HT]. }
  assert (FA : mostFrequent 5 (allArtists top) commonArtists).
  { unfold commonArtists. rewrite artistCount_bumpAll.
    apply mostCommon_mostFrequent, ordinary_plain; [apply allArtists_lowered|exact HA]. }
  destruct FT as (T1 & T2 & T3 & T4). destruct FA as (A1 & A2 & A3 & A4).
  split; [split; apply mostCommon_length|].
  repeat split; assumption.
Qed.

Lemma common_tags_most_frequent_witness :
  List.NoDup (mostCommon
                (tagCount [Ex.played (Ex.song 1 0 0 "en" "X" ["Rock"; "pop"]) 1;
                           Ex.played (Ex.song 2 0 0 "en" "Y" ["rock"]) 1])).
Proof.
  apply (common_tags_most_frequent
           [Ex.played (Ex.song 1 0 0 "en" "X" ["Rock"; "pop"]) 1;
            Ex.played (Ex.song 2 0 0 "en" "Y" ["rock"]) 1]);
    repeat constructor; discriminate.
Defined.

(** ** Playlist mutations one by one *)

(** Two states that differ at most in the playlist projection. *)
Definition sameButPlaylists (st st' : State) : Prop :=
  st' = setPlaylists (playlists st') st.

Lemma setPlaylists_same st : setPlaylists (playlists st) st = st.
Proof. now destruct st. Qed.

Lemma setPlaylists_twice l l' st : setPlaylists l (setPlaylists l' st) = setPlaylists l st.
Proof. reflexivity. Qed.

(** X15.  No mutation updates the local state unless there is a user id
    and the remote call succeeded: without a user id, with an error in the
    answer (for [createPlaylist] also with no row in it), and for
    [toggleLike] also when the counter call rejects, the state is exactly
    what it was. *)
Theorem mutations_need_success userId st :
  (JS.truthy_opt userId = false ->
     (forall songId a b, toggleLike userId songId a b st = st)
     /\ (forall name resp, createPlaylist userId name resp st = st)
     /\ (forall playlistId ok, deletePlaylist userId playlistId ok st = st)
     /\ (forall playlistId newName ok, renamePlaylist userId playlistId newName ok st = st)
     /\ (forall playlistId song ok, addSongToPlaylist userId playlistId song ok st = st)
     /\ (forall playlistId songId ok,
           removeSongFromPlaylist userId playlistId songId ok st = st))
  /\ (forall songId rpcOk, toggleLike userId songId false rpcOk st = st)
  /\ (forall songId, toggleLike userId songId true false st = st)
  /\ (forall name, createPlaylist userId name Failure st = st
                   /\ createPlaylist userId name (Data None) st = st)
  /\ (forall playlistId, deletePlaylist userId playlistId false st = st)
  /\ (forall playlistId newName, renamePlaylist userId playlistId newName false st = st)
  /\ (forall playlistId song, addSongToPlaylist userId playlistId song false st = st)
  /\ (forall playlistId songId, removeSongFromPlaylist userId playlistId songId false st = st).
Proof.
  unfold toggleLike, createPlaylist, deletePlaylist, renamePlaylist, addSongToPlaylist,
    removeSongFromPlaylist.
  split; [intros ->; repeat split; reflexivity|].
  destruct (JS.truthy_opt userId); simpl; repeat split; reflexivity.
Qed.

Lemma mutations_need_success_witness :
  toggleLike (getUserId None None) "1" true true firstLoad = firstLoad.
Proof. apply (mutations_need_success (getUserId None None) firstLoad). reflexivity. Defined.

(** X16.  A successful [deletePlaylist] removes every playlist with the
    given id and nothing else: a playlist is in the projection afterwards
    exactly when it was there before under another id; the rest of the
    state is untouched; deleting again changes nothing, and an id no
    playlist has deletes nothing. *)
Theorem deletePlaylist_removes userId playlistId st :
  JS.truthy_opt userId = true ->
  let st' := deletePlaylist userId playlistId true st in
  (forall p, In p (playlists st') <-> In p (playlists st) /\ p_id p <> playlistId)
  /\ sameButPlaylists st st'
  /\ deletePlaylist userId playlistId true st' = st'
  /\ (Forall (fun p => p_id p <> playlistId) (playlists st) -> st' = st).
Proof.
  intros Hu st'. subst st'. unfold deletePlaylist. rewrite Hu. simpl.
  assert (Hneq : forall p, negb (String.eqb (p_id p) playlistId) = true <-> p_id p <> playlistId).
  { intros p. rewrite negb_true_iff. apply String.eqb_neq. }
  split.
  { intros p. rewrite List.filter_In, Hneq. reflexivity. }
  split; [reflexivity|].
  split.
  { rewrite setPlaylists_twice. f_equal.
    apply List.forallb_filter_id, List.forallb_forall.
    intros p Hp. apply List.filter_In in Hp. tauto. }
  intros Hall. transitivity (setPlaylists (playlists st) st); [|apply setPlaylists_same].
  f_equal. apply List.forallb_filter_id, List.forallb_forall.
  intros p Hp. apply Hneq. rewrite List.Forall_forall in Hall. now apply Hall.
Qed.

Lemma deletePlaylist_removes_witness :
  deletePlaylist (Some "u1") "7" true
    (deletePlaylist (Some "u1") "7" true firstLoad)
  = deletePlaylist (Some "u1") "7" true firstLoad.
Proof. apply (deletePlaylist_removes (Some "u1") "7" firstLoad). reflexivity. Defined.

(** X17.  A successful [renamePlaylist] changes names only: ids, song
    lists, counts and covers of all playlists, their number and order, and
    the rest of the state stay; the playlists with the given id carry the
    new name and the others their old one; of two renamings of the same id
    the second wins. *)
Theorem renamePlaylist_renames userId playlistId newName st :
  JS.truthy_opt userId = true ->
  let st' := renamePlaylist userId playlistId newName true st in
  Forall2 (fun p p' =>
             p_id p' = p_id p /\ p_songs p' = p_songs p
             /\ songCount p' = songCount p /\ p_image p' = p_image p
             /\ p_name p' = if String.eqb (p_id p) playlistId then newName else p_name p)
    (playlists st) (playlists st')
  /\ sameButPlaylists st st'
  /\ (forall earlier,
        renamePlaylist userId playlistId newName true
          (renamePlaylist userId playlistId earlier true st) = st').
Proof.
  intros Hu st'. subst st'. unfold renamePlaylist. rewrite Hu. simpl.
  split.
  { induction (playlists st) as [|p r IH]; simpl; constructor; [|exact IH].
    destruct (String.eqb (p_id p) playlistId); repeat split. }
  split; [reflexivity|].
  intros earlier. rewrite setPlaylists_twice. f_equal. simpl.
  rewrite List.map_map. apply List.map_ext. intros p.
  destruct (String.eqb (p_id p) playlistId) eqn:E; simpl; now rewrite E.
Qed.

Lemma renamePlaylist_renames_witness :
  List.map p_name (playlists (renamePlaylist (Some "u1") "7" "road" true
                                (renamePlaylist (Some "u1") "7" "trip" true firstLoad)))
  = ["road"].
Proof.
  rewrite (proj2 (proj2 (renamePlaylist_renames (Some "u1") "7" "road" firstLoad eq_refl))
             "trip").
  reflexivity.
Defined.

Lemma filter_all_true {A} (f : A -> bool) l :
  (forall x, In x l -> f x = true) -> List.filter f l = l.
Proof.
  intros H. apply List.forallb_filter_id, List.forallb_forall. exact H.
Qed.

Lemma remove_after_add playlistId song p :
  playlistOk p ->
  (p_id p = playlistId -> existsb (fun s => String.eqb (id s) (id song)) (p_songs p) = false) ->
  removeSongLocal playlistId (id song) (addSongLocal playlistId song p) = p.
Proof.
  intros [Hc Hi] Hnew. unfold addSongLocal.
  destruct (String.eqb (p_id p) playlistId) eqn:E.
  - apply String.eqb_eq in E. rewrite (Hnew E). simpl.
    unfold removeSongLocal. simpl. apply String.eqb_eq in E. rewrite E.
    rewrite List.filter_app. simpl. rewrite String.eqb_refl. simpl.
    rewrite List.app_nil_r.
    rewrite filter_all_true.
    + destruct p. simpl in *. now subst.
    + intros s Hs. apply negb_true_iff. destruct (String.eqb (id s) (id song)) eqn:Es;
        [|reflexivity].
      apply String.eqb_eq in E.
      assert (existsb (fun s0 => String.eqb (id s0) (id song)) (p_songs p) = true) as Ht.
      { apply List.existsb_exists. now exists s. }
      rewrite (Hnew E) in Ht. discriminate.
  - unfold removeSongLocal. now rewrite E.
Qed.

(** X18.  A successful [removeSongFromPlaylist] leaves no song with the
    given id in the playlists with the given id, and leaves the other
    playlists and the rest of the state alone.  It undoes a successful
    [addSongToPlaylist]: when the projection is consistent (count and cover
    as maintained) and the playlist did not hold the song's id, adding the
    song and removing its id gives back the very state. *)
Theorem remove_undoes_add userId playlistId song st :
  JS.truthy_opt userId = true ->
  (forall songId,
     let st' := removeSongFromPlaylist userId playlistId songId true st in
     Forall2 (fun p p' =>
                if String.eqb (p_id p) playlistId
                then ~ In songId (List.map id (p_songs p'))
                     /\ (forall s, In s (p_songs p') <-> In s (p_songs p) /\ id s <> songId)
                else p' = p)
       (playlists st) (playlists st')
     /\ sameButPlaylists st st')
  /\ (Forall playlistOk (playlists st) ->
      Forall (fun p => p_id p = playlistId ->
                       existsb (fun s => String.eqb (id s) (id song)) (p_songs p) = false)
        (playlists st) ->
      removeSongFromPlaylist userId playlistId (id song) true
        (addSongToPlaylist userId playlistId song true st) = st).
Proof.
  intros Hu. split.
  - intros songId st'. subst st'. unfold removeSongFromPlaylist. rewrite Hu. simpl.
    split; [|reflexivity].
    induction (playlists st) as [|p r IH]; simpl; constructor; [|exact IH].
    unfold removeSongLocal. destruct (String.eqb (p_id p) playlistId); [|reflexivity].
    simpl. split.
    + intros Hin. apply List.in_map_iff in Hin as (s & Hs & Hin).
      apply List.filter_In in Hin as [_ Hne]. apply negb_true_iff, String.eqb_neq in Hne.
      contradiction.
    + intros s. rewrite List.filter_In, negb_true_iff, String.eqb_neq. reflexivity.
  - intros Hok Hnew. unfold removeSongFromPlaylist, addSongToPlaylist. rewrite Hu. simpl.
    rewrite setPlaylists_twice.
    transitivity (setPlaylists (playlists st) st); [|apply setPlaylists_same].
    f_equal. rewrite List.map_map. rewrite <- (List.map_id (playlists st)) at 2.
    apply List.map_ext_in. intros p Hp.
    rewrite List.Forall_forall in Hok, Hnew.
    apply remove_after_add; [now apply Hok|now apply Hnew].
Qed.

Lemma remove_undoes_add_witness :
  removeSongFromPlaylist (Some "u1") "7" (id (convertDatabaseSong Ex.songB true)) true
    (addSongToPlaylist (Some "u1") "7" (convertDatabaseSong Ex.songB true) true firstLoad)
  = firstLoad.
Proof.
  apply (remove_undoes_add (Some "u1") "7" (convertDatabaseSong Ex.songB true) firstLoad
           eq_refl).
  - apply (run_ok [OpFetch (Some "u1") ∅
                     {| r_songs := Failure; r_liked := Failure; r_history := Failure;
                        r_user := Failure;
                        r_playlists := Data (Some [ {| pr_id := 7; pr_name := "mix";
                                                       pr_playlist_songs := [Ex.songA] |} ]);
                        r_recent := Failure; r_recent_liked := Failure |}]
             initialState). constructor.
  - repeat constructor.
Defined.

(** X19.  A successful [createPlaylist] appends one empty playlist, with the
    id and the name the store returned, no song, count 0 and the placeholder
    as cover, and keeps the others in place.  A successful [deletePlaylist]
    of that id undoes it when no playlist had the id before. *)
Theorem delete_undoes_create userId name data_id data_name st :
  JS.truthy_opt userId = true ->
  let st' := createPlaylist userId name (Data (Some (data_id, data_name))) st in
  playlists st'
  = (playlists st ++ [ {| p_id := JS.toString data_id; p_name := data_name; songCount := 0;
                          p_image := defaultImage; p_songs := [] |} ])%list
  /\ sameButPlaylists st st'
  /\ (Forall (fun p => p_id p <> JS.toString data_id) (playlists st) ->
      deletePlaylist userId (JS.toString data_id) true st' = st).
Proof.
  intros Hu st'. subst st'. unfold createPlaylist, deletePlaylist. rewrite Hu. simpl.
  split; [reflexivity|]. split; [reflexivity|].
  intros Hall. rewrite setPlaylists_twice.
  transitivity (setPlaylists (playlists st) st); [|apply setPlaylists_same].
  f_equal. rewrite List.filter_app. simpl. rewrite String.eqb_refl. simpl.
  rewrite List.app_nil_r. apply filter_all_true.
  intros p Hp. apply negb_true_iff, String.eqb_neq.
  rewrite List.Forall_forall in Hall. now apply Hall.
Qed.

Lemma delete_undoes_create_witness :
  deletePlaylist (Some "u1") (JS.toString 8) true
    (createPlaylist (Some "u1") "new" (Data (Some (8, "new"))) firstLoad)
  = firstLoad.
Proof.
  apply (delete_undoes_create (Some "u1") "new" 8 "new" firstLoad eq_refl).
  repeat constructor. discriminate.
Defined.

(** ** What a like, a reload and the tracker leave alone *)

(** X20.  [toggleLike] writes the liked set, the catalog view and the song
    lists of the playlists, and nothing else: the personalized, trending,
    recently-played and last-played views keep their copies of the song
    with the old flag and count, both caches and the tracker stay, and so
    do the ids and the order of the songs and the id, name, count and cover
    of every playlist. *)
Theorem toggleLike_leaves_other_views userId songId mutationOk rpcOk st :
  let st' := toggleLike userId songId mutationOk rpcOk st in
  personalizedSongs st' = personalizedSongs st
  /\ trendingSongs st' = trendingSongs st
  /\ recentlyPlayedSongs st' = recentlyPlayedSongs st
  /\ lastPlayedSong st' = lastPlayedSong st
  /\ songsCache st' = songsCache st
  /\ likedSongsCache st' = likedSongsCache st
  /\ currentSongRef st' = currentSongRef st
  /\ currentSongStartTime st' = currentSongStartTime st
  /\ List.map id (songs st') = List.map id (songs st)
  /\ List.map (fun p => (p_id p, p_name p, songCount p, p_image p,
                         List.map id (p_songs p))) (playlists st')
     = List.map (fun p => (p_id p, p_name p, songCount p, p_image p,
                           List.map id (p_songs p))) (playlists st).
Proof.
  intros st'. subst st'. unfold toggleLike.
  destruct (negb (JS.truthy_opt userId)); [repeat split; reflexivity|].
  destruct mutationOk, rpcOk; simpl; try (repeat split; reflexivity).
  repeat case_bool_decide; simpl; repeat split; try reflexivity;
    rewrite List.map_map; apply List.map_ext; intros x; simpl;
    try apply likeUpdate_id;
    (f_equal; rewrite List.map_map; apply List.map_ext; intros s; apply likeUpdate_id).
Qed.

Example toggleLike_stale_trending :
  List.map (fun s => (id s, isLiked s)) (songs (toggleLike (Some "u1") "3" true true firstLoad))
  = [("1", true); ("2", false); ("3", true)]
  /\ List.map (fun s => (id s, isLiked s))
       (trendingSongs (toggleLike (Some "u1") "3" true true firstLoad))
     = [("1", true); ("3", false); ("2", false)].
Proof. split; reflexivity. Qed.

(** X21.  In a reload with a user id whose playlists read succeeds, the
    liked flag of every playlist song says whether its id was in the liked
    set before the reload, not in the one the reload fetches; from the
    initial state, where that set is empty, every playlist song is flagged
    as not liked whatever the user likes. *)
Theorem reload_playlists_use_old_liked_set user ls rem st playlistsData :
  JS.truthy_opt (getUserId user ls) = true ->
  r_playlists rem = Data playlistsData ->
  playlists (loadData user ls rem st)
  = List.map (convertPlaylist (likedSongs st)) (rows playlistsData)
  /\ Forall (fun p => Forall (fun s => isLiked s = has (likedSongs st) (file_id s)) (p_songs p))
       (playlists (loadData user ls rem st))
  /\ (likedSongs st = ∅ ->
      Forall (fun p => Forall (fun s => isLiked s = false) (p_songs p))
        (playlists (loadData user ls rem st))).
Proof.
  intros Hu Hp.
  assert (E : playlists (loadData user ls rem st)
              = List.map (convertPlaylist (likedSongs st)) (rows playlistsData)).
  { unfold loadData. rewrite Hu. simpl.
    destruct (fetchRecentlyPlayed_keeps (getUserId user ls) rem
                (fetchPlaylists (getUserId user ls) (likedSongs st) rem
                   (fetchSongs (getUserId user ls) rem (setLoading true st))))
      as (_ & _ & _ & _ & ->).
    unfold fetchPlaylists. now rewrite Hu, Hp. }
  assert (F : Forall (fun p => Forall (fun s => isLiked s = has (likedSongs st) (file_id s))
                                 (p_songs p))
                (playlists (loadData user ls rem st))).
  { rewrite E. apply List.Forall_forall. intros p Hin.
    apply List.in_map_iff in Hin as (row & <- & _). simpl.
    apply List.Forall_forall. intros s Hs. apply List.in_map_iff in Hs as (d & <- & _).
    reflexivity. }
  split; [exact E|]. split; [exact F|].
  intros Hempty. eapply List.Forall_impl; [|exact F]. intros p Hall.
  eapply List.Forall_impl; [|exact Hall]. intros s ->. rewrite Hempty.
  unfold has. apply bool_decide_eq_false. apply not_elem_of_empty.
Qed.

Lemma reload_playlists_use_old_liked_set_witness :
  Forall (fun p => Forall (fun s => isLiked s = false) (p_songs p)) (playlists firstLoad).
Proof.
  eapply (reload_playlists_use_old_liked_set (Some (Ex.sessionUser "u1")) None _ initialState);
    reflexivity.
Defined.

Lemma toggleLike_leaves_caches userId songId mutationOk rpcOk st :
  songsCache (toggleLike userId songId mutationOk rpcOk st) = songsCache st
  /\ likedSongsCache (toggleLike userId songId mutationOk rpcOk st) = likedSongsCache st.
Proof.
  unfold toggleLike.
  destruct (negb (JS.truthy_opt userId)); [now split|].
  destruct mutationOk, rpcOk; simpl; try (now split).
  repeat case_bool_decide; now split.
Qed.

(** X22.  The two caches change only when a recommendation call fills them
    or a reload without a user id clears them: no fetch, no reload with a
    user id, no sequence of playlist operations and like toggles, and no
    tracker call changes either. *)
Theorem caches_change_only_by_fill_or_clear st :
  (forall ops, songsCache (run ops st) = songsCache st
               /\ likedSongsCache (run ops st) = likedSongsCache st)
  /\ (forall uid rem,
        songsCache (fetchSongs uid rem st) = songsCache st
        /\ likedSongsCache (fetchSongs uid rem st) = likedSongsCache st
        /\ songsCache (fetchRecentlyPlayed uid rem st) = songsCache st
        /\ likedSongsCache (fetchRecentlyPlayed uid rem st) = likedSongsCache st)
  /\ (forall user ls rem, JS.truthy_opt (getUserId user ls) = true ->
        songsCache (loadData user ls rem st) = songsCache st
        /\ likedSongsCache (loadData user ls rem st) = likedSongsCache st)
  /\ (forall uid songId tEnd tStart,
        songsCache (fst (recordListeningHistory uid songId tEnd tStart st)) = songsCache st
        /\ likedSongsCache (fst (recordListeningHistory uid songId tEnd tStart st))
           = likedSongsCache st
        /\ songsCache (fst (stopCurrentSongTracking uid tEnd st)) = songsCache st
        /\ likedSongsCache (fst (stopCurrentSongTracking uid tEnd st)) = likedSongsCache st).
Proof.
  split; [|split; [|split]].
  - intros ops. revert st. induction ops as [|op r IH]; intros st; simpl; [now split|].
    destruct (IH (step st op)) as [-> ->].
    destruct op; simpl.
    + apply fetchPlaylists_caches.
    + unfold createPlaylist. destruct (negb (JS.truthy_opt userId)); [now split|].
      now destruct resp as [|[[a b]|]].
    + unfold deletePlaylist. now destruct (negb (JS.truthy_opt userId)), ok.
    + unfold renamePlaylist. now destruct (negb (JS.truthy_opt userId)), ok.
    + unfold addSongToPlaylist. now destruct (negb (JS.truthy_opt userId)), ok.
    + unfold removeSongFromPlaylist. now destruct (negb (JS.truthy_opt userId)), ok.
    + destruct (toggleLike_leaves_caches userId songId mutationOk rpcOk st) as [-> ->].
      now split.
  - intros uid rem.
    destruct (fetchSongs_caches uid rem st) as [-> ->].
    destruct (fetchRecentlyPlayed_caches uid rem st) as [-> ->]. repeat split.
  - intros user ls rem Hu. now apply loadData_keeps_caches.
  - intros uid songId tEnd tStart.
    unfold recordListeningHistory, recordListeningHistoryFrom,
      stopCurrentSongTracking, stopCurrentSongTrackingFrom.
    destruct uid as [u|]; [destruct (JS.truthy u)|]; repeat split; reflexivity.
Qed.

(** ** More on the tracker *)

Definition isUpsert (c : Rpc) : bool :=
  match c with upsert_history_minutes _ _ _ => true | _ => false end.

Lemma flushPrevious_facts uid startSeen endTime st :
  (length (flushPrevious uid startSeen endTime st) <= 1)%nat
  /\ Forall (fun c =>
               exists current start,
                 currentSongRef st = Some current /\ startSeen = Some start
                 /\ 6000 < endTime - start
                 /\ c = upsert_history_minutes uid (JS.parseInt current)
                          (roundMinutes (minutesBetween start endTime)))
       (flushPrevious uid startSeen endTime st).
Proof.
  unfold flushPrevious.
  destruct (currentSongRef st) as [current|]; [|split; [simpl; lia|constructor]].
  destruct startSeen as [start|]; [|split; [simpl; lia|constructor]].
  destruct (JS.truthy current); [|split; [simpl; lia|constructor]].
  assert (G : JS.gt (minutesBetween start endTime) tenth = (6000 <? endTime - start))
    by apply minutes_over_tenth.
  rewrite !G.
  destruct (6000 <? endTime - start) eqn:E; [|split; [simpl; lia|constructor]].
  split; [simpl; lia|]. constructor; [|constructor].
  exists current, start. repeat split; try reflexivity. lia.
Qed.

Lemma idle_writes_no_delta seen userId songId t t' st :
  currentSongRef st = None ->
  snd (stopCurrentSongTrackingFrom seen userId t st) = []
  /\ List.filter isUpsert (snd (recordListeningHistoryFrom seen userId songId t t' st)) = [].
Proof.
  intros Hc. unfold stopCurrentSongTrackingFrom, recordListeningHistoryFrom, flushPrevious.
  rewrite Hc. destruct userId as [u|]; [destruct (JS.truthy u)|]; split; reflexivity.
Qed.

Lemma filter_isUpsert_length (l : list Rpc) :
  (length (List.filter isUpsert l) <= length l)%nat.
Proof. induction l as [|x l IH]; simpl; [lia|]. destruct (isUpsert x); simpl; lia. Qed.

Lemma hundredths_written elapsed :
  6000 < elapsed <= 2 ^ 51 ->
  exists hundredths,
    10 <= hundredths
    /\ JS.divBy 100 (JS.Math_round (JS.mulBy 100 (JS.divBy 60000 (JS.ofZ elapsed))))
       = JS.fl (inject_Z hundredths / 100)
    /\ 600 * hundredths - 300 <= elapsed <= 600 * hundredths + 300.
Proof.
  intros He. destruct (hundredths_nearest elapsed) as (k & Hk & Hnear); [lia|].
  exists k. split; [lia|]. split; [now rewrite Hk|exact Hnear].
Qed.

(** X23.  A start or a stop that no other call overlaps, made through the
    closure of any render, writes at most one history delta: always for
    the song the tracker is on and never for the one that starts, always
    under the caller's user id, only when more than 6000 ms have passed
    since the start time that closure sees, and of the double
    [Math.round(m * 100) / 100] for the elapsed minutes [m], which for a
    time of up to 2^51 ms is the double nearest to a whole number of
    hundredths, ten at least, within half a hundredth of the elapsed
    time.  After a stop the tracker is idle: a second stop writes nothing,
    and a start writes no delta, whatever the clock says.  Neither call
    touches anything but the tracker.  Two starts of which the second is
    made while the first awaits its write both write a delta for the song
    the tracker was on, each for the whole time since that song started:
    the interval up to the first start is written twice. *)
Theorem tracker_writes_per_call startSeen userId songId tEnd tStart st :
  let amount := fun elapsed =>
    JS.divBy 100 (JS.Math_round (JS.mulBy 100 (JS.divBy 60000 (JS.ofZ elapsed)))) in
  let started := recordListeningHistoryFrom startSeen userId songId tEnd tStart st in
  let stopped := stopCurrentSongTrackingFrom startSeen userId tEnd st in
  (length (List.filter isUpsert (snd started)) <= 1)%nat
  /\ (length (List.filter isUpsert (snd stopped)) <= 1)%nat
  /\ (forall c, In c (List.filter isUpsert (snd started))
                \/ In c (List.filter isUpsert (snd stopped)) ->
        exists uid current start,
          userId = Some uid /\ currentSongRef st = Some current
          /\ startSeen = Some start /\ 6000 < tEnd - start
          /\ c = upsert_history_minutes uid (JS.parseInt current) (amount (tEnd - start)))
  /\ (forall elapsed, 6000 < elapsed <= 2 ^ 51 ->
        exists hundredths,
          10 <= hundredths
          /\ amount elapsed = JS.fl (inject_Z hundredths / 100)
          /\ 600 * hundredths - 300 <= elapsed <= 600 * hundredths + 300)
  /\ (forall seen userId' songId' t t',
        snd (stopCurrentSongTrackingFrom seen userId' t (fst stopped)) = []
        /\ List.filter isUpsert
             (snd (recordListeningHistoryFrom seen userId' songId' t t' (fst stopped))) = [])
  /\ fst stopped = setCurrentSongStartTime None (setCurrentSongRef None st)
  /\ (fst started = st
      \/ fst started = setCurrentSongStartTime (Some tStart)
                         (setCurrentSongRef (Some songId) st))
  /\ (forall uid current start songB songC endB endC startB startC,
        JS.truthy current = true ->
        currentSongRef st = Some current -> currentSongStartTime st = Some start ->
        6000 < endB - start -> endB <= endC ->
        overlappingCalls uid songB songC endB endC startB startC st
        = Some (setCurrentSongStartTime (Some startC)
                  (setCurrentSongRef (Some songC)
                     (setCurrentSongStartTime (Some startB)
                        (setCurrentSongRef (Some songB) st))),
                [upsert_history_minutes uid (JS.parseInt current) (amount (endB - start));
                 upsert_history_minutes uid (JS.parseInt current) (amount (endC - start));
                 update_last_song uid (JS.parseInt songB);
                 update_last_song uid (JS.parseInt songC);
                 increment_song_views (JS.parseInt songB);
                 increment_song_views (JS.parseInt songC)])).
Proof.
  intros amount started stopped.
  assert (Hidle : forall seen userId' songId' t t',
            snd (stopCurrentSongTrackingFrom seen userId' t (fst stopped)) = []
            /\ List.filter isUpsert
                 (snd (recordListeningHistoryFrom seen userId' songId' t t' (fst stopped))) = []).
  { intros. apply idle_writes_no_delta. reflexivity. }
  assert (Hstop : fst stopped = setCurrentSongStartTime None (setCurrentSongRef None st))
    by reflexivity.
  assert (Hover : forall uid current start songB songC endB endC startB startC,
        JS.truthy current = true ->
        currentSongRef st = Some current -> currentSongStartTime st = Some start ->
        6000 < endB - start -> endB <= endC ->
        overlappingCalls uid songB songC endB endC startB startC st
        = Some (setCurrentSongStartTime (Some startC)
                  (setCurrentSongRef (Some songC)
                     (setCurrentSongStartTime (Some startB)
                        (setCurrentSongRef (Some songB) st))),
                [upsert_history_minutes uid (JS.parseInt current) (amount (endB - start));
                 upsert_history_minutes uid (JS.parseInt current) (amount (endC - start));
                 update_last_song uid (JS.parseInt songB);
                 update_last_song uid (JS.parseInt songC);
                 increment_song_views (JS.parseInt songB);
                 increment_song_views (JS.parseInt songC)])).
  { intros uid current start songB songC endB endC startB startC Ht Hc Hs HB HC.
    unfold overlappingCalls. rewrite Hs.
    rewrite !(flushPrevious_tracking uid current start _ st Ht Hc).
    replace (6000 <? endB - start) with true by (symmetry; apply Z.ltb_lt; lia).
    replace (6000 <? endC - start) with true by (symmetry; apply Z.ltb_lt; lia).
    reflexivity. }
  assert (Hnone : JS.truthy_opt userId = false ->
            snd started = [] /\ snd stopped = [] /\ fst started = st).
  { subst started stopped. unfold recordListeningHistoryFrom, stopCurrentSongTrackingFrom.
    destruct userId as [u|]; simpl; [intros ->|]; repeat split; reflexivity. }
  destruct (JS.truthy_opt userId) eqn:Hu.
  - destruct userId as [uid|]; [|discriminate]. simpl in Hu.
    assert (Es : snd started
                 = (flushPrevious uid startSeen tEnd st
                    ++ [update_last_song uid (JS.parseInt songId);
                        increment_song_views (JS.parseInt songId)])%list).
    { subst started. unfold recordListeningHistoryFrom. now rewrite Hu. }
    assert (Et : snd stopped = flushPrevious uid startSeen tEnd st).
    { subst stopped. unfold stopCurrentSongTrackingFrom. now rewrite Hu. }
    assert (Ef : fst started
                 = setCurrentSongStartTime (Some tStart) (setCurrentSongRef (Some songId) st)).
    { subst started. unfold recordListeningHistoryFrom. now rewrite Hu. }
    destruct (flushPrevious_facts uid startSeen tEnd st) as [Hlen Hall].
    assert (Hf : List.filter isUpsert (snd started) = flushPrevious uid startSeen tEnd st).
    { rewrite Es, List.filter_app. simpl. rewrite List.app_nil_r. apply filter_all_true.
      intros c Hc. rewrite List.Forall_forall in Hall.
      destruct (Hall c Hc) as (cur & start & _ & _ & _ & ->). reflexivity. }
    rewrite Hf, Et.
    split; [exact Hlen|].
    split; [etransitivity; [apply filter_isUpsert_length|exact Hlen]|].
    split.
    { intros c Hc.
      assert (Hin : In c (flushPrevious uid startSeen tEnd st)).
      { destruct Hc as [Hc|Hc]; [exact Hc|]. apply List.filter_In in Hc. tauto. }
      rewrite List.Forall_forall in Hall.
      destruct (Hall c Hin) as (cur & start & H1 & H2 & H3 & H4).
      exists uid, cur, start. repeat split; assumption. }
    split; [exact hundredths_written|].
    split; [exact Hidle|]. split; [exact Hstop|]. split; [right; exact Ef|exact Hover].
  - destruct (Hnone eq_refl) as (E1 & E2 & E3). rewrite E1, E2. simpl.
    split; [lia|]. split; [lia|].
    split; [intros c [[]|[]]|].
    split; [exact hundredths_written|].
    split; [exact Hidle|]. split; [exact Hstop|]. split; [left; exact E3|exact Hover].
Qed.

Example tracker_session_ex :
  let s1 := recordListeningHistory (Some "u1") "1" 0 0 initialState in
  let s2 := recordListeningHistory (Some "u1") "2" 90000 90010 (fst s1) in
  let s3 := stopCurrentSongTracking (Some "u1") 93000 (fst s2) in
  let s4 := stopCurrentSongTracking (Some "u1") 500000 (fst s3) in
  List.filter isUpsert (snd s1 ++ snd s2 ++ snd s3 ++ snd s4)
  = [upsert_history_minutes "u1" (Some 1) (JS.fl (150 # 100))].
Proof. vm_compute. reflexivity. Qed.

(** Song 1 plays from time 0; song 2 is started after 90 s and, while that
    call awaits its write, song 3 after 91 s: 1.5 and 1.52 minutes are
    written for song 1, which played for 91 s. *)
Example tracker_overlap_ex :
  option_map (fun r => List.filter isUpsert (snd r))
    (overlappingCalls "u1" "2" "3" 90000 91000 90500 91500 trackingOne)
  = Some [upsert_history_minutes "u1" (Some 1) (JS.fl (150 # 100));
          upsert_history_minutes "u1" (Some 1) (JS.fl (152 # 100))].
Proof. vm_compute. reflexivity. Qed.

(** ** Song ids as strings and as numbers *)


Lemma read_digits_acc d : forall acc,
  JS.read_digits (Some (Zpos acc)) (NilEmpty.string_of_uint d)
  = Some (Zpos (Pos.of_uint_acc d acc)).
Proof.
  induction d; intros acc; simpl; try reflexivity; rewrite <- IHd; f_equal; f_equal; lia.
Qed.

Lemma read_digits_fresh d : forall acc,
  acc = None \/ acc = Some 0 ->
  JS.read_digits acc (NilEmpty.string_of_uint d)
  = match d with
    | Decimal.Nil => acc
    | _ => Some (Z.of_N (Pos.of_uint d))
    end.
Proof.
  induction d; intros acc Hacc; try reflexivity;
    try (destruct Hacc as [-> | ->]; simpl; apply read_digits_acc).
  assert (E : JS.read_digits acc (NilEmpty.string_of_uint (Decimal.D0 d))
              = JS.read_digits (Some 0) (NilEmpty.string_of_uint d)).
  { destruct Hacc as [-> | ->]; reflexivity. }
  rewrite E, (IHd (Some 0)) by now right. now destruct d.
Qed.

Lemma to_uint_not_Nil p : Pos.to_uint p <> Decimal.Nil.
Proof.
  intros H. pose proof (Unsigned.of_to p) as E. rewrite H in E. discriminate.
Qed.

Lemma read_digits_to_uint p :
  JS.read_digits None (NilEmpty.string_of_uint (Pos.to_uint p)) = Some (Zpos p).
Proof.
  rewrite read_digits_fresh by now left.
  pose proof (to_uint_not_Nil p) as Hn. pose proof (Unsigned.of_to p) as E.
  destruct (Pos.to_uint p); try contradiction; now rewrite E.
Qed.

Lemma parseInt_digits d :
  d <> Decimal.Nil ->
  JS.parseInt (NilEmpty.string_of_uint d) = JS.read_digits None (NilEmpty.string_of_uint d).
Proof. destruct d; [contradiction|..]; reflexivity. Qed.

Lemma parseInt_toString n : JS.parseInt (JS.toString n) = Some n.
Proof.
  unfold JS.toString. destruct n as [|p|p]; [reflexivity| |]; simpl;
    pose proof (to_uint_not_Nil p) as Hn.
  - replace (NilZero.string_of_uint (Pos.to_uint p))
      with (NilEmpty.string_of_uint (Pos.to_uint p))
      by (unfold NilZero.string_of_uint; destruct (Pos.to_uint p); congruence).
    rewrite parseInt_digits by exact Hn. apply read_digits_to_uint.
  - replace (NilZero.string_of_uint (Pos.to_uint p))
      with (NilEmpty.string_of_uint (Pos.to_uint p))
      by (unfold NilZero.string_of_uint; destruct (Pos.to_uint p); congruence).
    unfold JS.parseInt. simpl. now rewrite read_digits_to_uint.
Qed.

Lemma toString_inj n m : JS.toString n = JS.toString m -> n = m.
Proof.
  intros H. pose proof (parseInt_toString n) as E. rewrite H, parseInt_toString in E.
  congruence.
Qed.

(** X24.  The string id of a converted song reads back as its numeric id,
    and two converted songs have the same string id exactly when they have
    the same numeric id: so [toggleLike] on a song's id looks up, adds and
    removes that song's own [file_id], and the string comparisons of the
    playlist operations identify songs as the numeric ones do. *)
Theorem song_id_round_trip d b d' b' :
  JS.parseInt (id (convertDatabaseSong d b)) = Some (db_file_id d)
  /\ (id (convertDatabaseSong d b) = id (convertDatabaseSong d' b')
      <-> db_file_id d = db_file_id d')
  /\ JS.truthy (id (convertDatabaseSong d b)) = true.
Proof.
  split; [apply parseInt_toString|]. split.
  - simpl. split; [apply toString_inj|now intros ->].
  - simpl. destruct (JS.toString (db_file_id d)) eqn:E; [|reflexivity].
    pose proof (parseInt_toString (db_file_id d)) as H. rewrite E in H. discriminate.
Qed.

(** The catalog view's ids are the printed numeric ids, and its flags say
    what the liked set says. *)
Definition flagsAgree (st : State) : Prop :=
  Forall (fun s => id s = JS.toString (file_id s)
                   /\ isLiked s = has (likedSongs st) (file_id s)) (songs st).

(** What the hook returns as [likedSongs]: [songs.filter(song => song.isLiked)]. *)
Definition exportedLikedSongs (st : State) : list Song :=
  List.filter isLiked (songs st).

Lemma likeUpdate_flagsAgree st n was liked' :
  was = has (likedSongs st) n ->
  has liked' n = negb was ->
  (forall k, k <> n -> has liked' k = has (likedSongs st) k) ->
  flagsAgree st ->
  Forall (fun s => id s = JS.toString (file_id s) /\ isLiked s = has liked' (file_id s))
    (List.map (likeUpdate (JS.toString n) was) (songs st)).
Proof.
  intros Hwas Hn Hother H. apply List.Forall_forall. intros s' Hs'.
  apply List.in_map_iff in Hs' as (s & <- & Hs).
  unfold flagsAgree in H. rewrite List.Forall_forall in H. destruct (H s Hs) as [Hid Hflag].
  unfold likeUpdate. destruct (String.eqb (id s) (JS.toString n)) eqn:E.
  - apply String.eqb_eq in E. rewrite Hid in E. apply toString_inj in E.
    unfold withLike. simpl. split; [exact Hid|]. now rewrite E, Hn.
  - apply String.eqb_neq in E. split; [exact Hid|].
    rewrite Hflag. symmetry. apply Hother. intros Heq. apply E. now rewrite Hid, Heq.
Qed.

Lemma toggleLike_flagsAgree userId n mutationOk rpcOk st :
  flagsAgree st -> flagsAgree (toggleLike userId (JS.toString n) mutationOk rpcOk st).
Proof.
  intros H. unfold toggleLike.
  destruct (negb (JS.truthy_opt userId)); [exact H|].
  destruct mutationOk, rpcOk; simpl; try exact H.
  rewrite parseInt_toString.
  repeat case_bool_decide; try contradiction; unfold flagsAgree; simpl.
  - apply (likeUpdate_flagsAgree st n true); [| | |exact H].
    + symmetry. now apply bool_decide_eq_true_2.
    + apply bool_decide_eq_false_2. rewrite elem_of_difference, elem_of_singleton. tauto.
    + intros k Hk. unfold has. apply bool_decide_ext.
      rewrite elem_of_difference, elem_of_singleton. split; [tauto|].
      intros Hin. split; [exact Hin|]. intros [= ->]. now apply Hk.
  - apply (likeUpdate_flagsAgree st n false); [| | |exact H].
    + symmetry. now apply bool_decide_eq_false_2.
    + apply bool_decide_eq_true_2. rewrite elem_of_union, elem_of_singleton. tauto.
    + intros k Hk. unfold has. apply bool_decide_ext.
      rewrite elem_of_union, elem_of_singleton. split; [|tauto].
      intros [Hin|[= ->]]; [exact Hin|]. now contradiction Hk.
Qed.

Lemma likedSetOf_has likedData n : has (likedSetOf likedData) n = true <-> In n likedData.
Proof.
  unfold has, likedSetOf. rewrite bool_decide_eq_true, elem_of_list_to_set, list_elem_of_In,
    List.in_map_iff.
  split; [intros (x & [= ->] & Hx); exact Hx|intros H; now exists n].
Qed.

(** X25.  After a refresh that read the catalog and the liked songs, every
    song of the catalog view is flagged as liked exactly when its id is in
    the liked set of the state, which holds exactly the ids read; like
    toggles on printed ids, whatever their outcomes, keep this agreement, so
    the liked songs the hook returns are always the catalog songs whose id
    is in the liked set. *)
Theorem liked_flags_agree uid rem st songsData likedData toggles :
  JS.truthy_opt uid = true ->
  r_songs rem = Data songsData -> r_liked rem = Data (Some likedData) ->
  let refreshed := fetchSongs uid rem st in
  let final :=
    fold_left (fun st t => toggleLike uid (JS.toString (fst (fst t))) (snd (fst t)) (snd t) st)
      toggles refreshed in
  (forall n, has (likedSongs refreshed) n = true <-> In n likedData)
  /\ flagsAgree refreshed
  /\ flagsAgree final
  /\ exportedLikedSongs final
     = List.filter (fun s => has (likedSongs final) (file_id s)) (songs final).
Proof.
  intros Hu Hs Hl refreshed final.
  assert (Hliked : likedSongs refreshed = likedSetOf likedData).
  { subst refreshed. unfold fetchSongs. rewrite Hu, Hs, Hl. simpl.
    destruct (r_user rem) as [|[[n|]|]]; simpl; try reflexivity.
    destruct (JS.truthy_num n); [|reflexivity].
    now destruct (List.find _ _). }
  assert (Hr : flagsAgree refreshed).
  { unfold flagsAgree. rewrite Hliked. unfold refreshed.
    destruct (fetchSongs_views uid rem st songsData Hu Hs) as (-> & _ & _).
    unfold convertedOf, likedOfRemote. rewrite Hl.
    apply List.Forall_forall. intros s Hin. apply List.in_map_iff in Hin as (d & <- & _).
    split; reflexivity. }
  assert (Hf : flagsAgree final).
  { subst final. clear Hliked. revert Hr. generalize refreshed.
    induction toggles as [|t r IH]; intros st0 H0; simpl; [exact H0|].
    apply IH. now apply toggleLike_flagsAgree. }
  split; [intros n; rewrite Hliked; apply likedSetOf_has|].
  split; [exact Hr|]. split; [exact Hf|].
  unfold exportedLikedSongs. apply List.filter_ext_in.
  intros s Hs'. unfold flagsAgree in Hf. rewrite List.Forall_forall in Hf.
  now destruct (Hf s Hs').
Qed.

Lemma liked_flags_agree_witness :
  exportedLikedSongs
    (fold_left (fun st t => toggleLike (Some "u1") (JS.toString (fst (fst t)))
                              (snd (fst t)) (snd t) st)
       [(3, true, true); (2, true, false); (2, true, true)]
       (fetchSongs (Some "u1") (Ex.store Ex.catalog3 [2] []) initialState))
  = List.filter
      (fun s => has (likedSongs
         (fold_left (fun st t => toggleLike (Some "u1") (JS.toString (fst (fst t)))
                                   (snd (fst t)) (snd t) st)
            [(3, true, true); (2, true, false); (2, true, true)]
            (fetchSongs (Some "u1") (Ex.store Ex.catalog3 [2] []) initialState)))
         (file_id s))
      (songs
         (fold_left (fun st t => toggleLike (Some "u1") (JS.toString (fst (fst t)))
                                   (snd (fst t)) (snd t) st)
            [(3, true, true); (2, true, false); (2, true, true)]
            (fetchSongs (Some "u1") (Ex.store Ex.catalog3 [2] []) initialState))).
Proof.
  apply (liked_flags_agree (Some "u1") (Ex.store Ex.catalog3 [2] []) initialState
           (Some Ex.catalog3) [2] [(3, true, true); (2, true, false); (2, true, true)]);
    reflexivity.
Defined.

Example exported_liked_ex :
  List.map id (exportedLikedSongs
    (fold_left (fun st t => toggleLike (Some "u1") (JS.toString (fst (fst t)))
                              (snd (fst t)) (snd t) st)
       [(3, true, true); (2, true, false); (2, true, true)]
       (fetchSongs (Some "u1") (Ex.store Ex.catalog3 [2] []) initialState)))
  = ["3"].
Proof. reflexivity. Qed.

(** ** The recently-played and last-played views *)

(** The rows of a history answer that carry their joined song. *)
Definition joinedRows (historyData : option (list HistoryRow)) : list HistoryRow :=
  List.filter (fun h => match h_songs h with Some _ => true | None => false end)
    (rows historyData).

Lemma flat_map_joined (f : HistoryRow -> DatabaseSong -> Song) l :
  Forall2 (fun h s => exists d, h_songs h = Some d /\ s = f h d)
    (List.filter (fun h => match h_songs h with Some _ => true | None => false end) l)
    (List.flat_map (fun item => match h_songs item with
                                | Some songObj => [f item songObj]
                                | None => []
                                end) l).
Proof.
  induction l as [|h r IH]; simpl; [constructor|].
  destruct (h_songs h) as [d|] eqn:E; simpl; [|exact IH].
  constructor; [|exact IH]. exists d. now split.
Qed.

(** X26.  With a user id, [fetchRecentlyPlayed] keeps the previous list
    when the history read fails, empties it when the answer has no row, and
    otherwise lists, in the order of the answer, the conversions of the
    rows that carry a joined song, each flagged by whether the row's song id
    is among the liked ids read, all flagged as not liked when that read
    fails; the list is never longer than the answer, and nothing else in
    the state changes.  Without a user id the list is emptied. *)
Theorem recently_played_view uid rem st :
  let st' := fetchRecentlyPlayed uid rem st in
  st' = setRecentlyPlayedSongs (recentlyPlayedSongs st') st
  /\ (JS.truthy_opt uid = false -> recentlyPlayedSongs st' = [])
  /\ (JS.truthy_opt uid = true ->
        (r_recent rem = Failure -> recentlyPlayedSongs st' = recentlyPlayedSongs st)
        /\ (forall historyData, r_recent rem = Data historyData ->
              Forall2 (fun h s =>
                         exists d, h_songs h = Some d
                           /\ s = convertDatabaseSong d
                                    (hasZ (likedOfResponse (r_recent_liked rem)) (h_song_id h)))
                (joinedRows historyData) (recentlyPlayedSongs st')
              /\ (length (recentlyPlayedSongs st') <= length (rows historyData))%nat
              /\ (r_recent_liked rem = Failure ->
                    Forall (fun s => isLiked s = false) (recentlyPlayedSongs st')))).
Proof.
  intros st'.
  assert (Hdata : forall historyData,
            JS.truthy_opt uid = true -> r_recent rem = Data historyData ->
            recentlyPlayedSongs st'
            = List.flat_map (fun item =>
                match h_songs item with
                | Some songObj =>
                    [convertDatabaseSong songObj
                       (hasZ (likedOfResponse (r_recent_liked rem)) (h_song_id item))]
                | None => []
                end) (rows historyData)).
  { intros historyData Hu Hr. subst st'. unfold fetchRecentlyPlayed, likedOfResponse.
    rewrite Hu, Hr. simpl. now destruct (rows historyData). }
  split.
  { subst st'. unfold fetchRecentlyPlayed.
    destruct (negb (JS.truthy_opt uid)); [reflexivity|].
    destruct (r_recent rem) as [|d]; [now destruct st|].
    now destruct (rows d). }
  split.
  { intros Hu. subst st'. unfold fetchRecentlyPlayed. now rewrite Hu. }
  intros Hu. split.
  { intros Hr. subst st'. unfold fetchRecentlyPlayed. now rewrite Hu, Hr. }
  intros historyData Hr. rewrite (Hdata historyData Hu Hr).
  assert (HF := flat_map_joined
            (fun h d => convertDatabaseSong d
                          (hasZ (likedOfResponse (r_recent_liked rem)) (h_song_id h)))
            (rows historyData)).
  split; [exact HF|]. split.
  - clear HF. induction (rows historyData) as [|h r IH]; simpl; [lia|].
    rewrite List.length_app. destruct (h_songs h); simpl; lia.
  - intros Hl. rewrite Hl. simpl. apply List.Forall_forall. intros s Hs.
    apply List.in_flat_map in Hs as (h & _ & Hs).
    destruct (h_songs h) as [d|]; [|contradiction]. destruct Hs as [<-|[]].
    reflexivity.
Qed.

Example recently_played_ex :
  List.map (fun s => (id s, isLiked s))
    (recentlyPlayedSongs
       (fetchRecentlyPlayed (Some "u1")
          (Ex.store Ex.catalog3 [2]
             [Ex.played Ex.songB 9;
              {| h_song_id := 5; h_minutes_listened := 4; h_songs := None |};
              Ex.played Ex.songA 3]) initialState))
  = [("2", true); ("1", false)].
Proof. reflexivity. Qed.

(** X27.  A refresh never clears the last-played song: it either leaves it
    as it was, or sets it to the first song of the catalog view whose
    numeric id is the one stored for the user, and that id is not 0.  It
    does set it when there is a user id, the catalog and the user row were
    read, the stored id is not 0 and some catalog song has it; a stored id
    of 0 is treated as none. *)
Theorem last_played_is_catalog_song uid rem st :
  let st' := fetchSongs uid rem st in
  (lastPlayedSong st' = lastPlayedSong st
   \/ exists s, lastPlayedSong st' = Some s /\ In s (songs st')
        /\ r_user rem = Data (Some (Some (file_id s))) /\ file_id s <> 0
        /\ List.find (fun song => file_id song =? file_id s) (songs st') = Some s)
  /\ (forall songsData n d,
        JS.truthy_opt uid = true -> r_songs rem = Data songsData ->
        r_user rem = Data (Some (Some n)) -> n <> 0 ->
        In d (rows songsData) -> db_file_id d = n ->
        exists s, lastPlayedSong st' = Some s /\ file_id s = n)
  /\ (r_user rem = Data (Some (Some 0)) -> lastPlayedSong st' = lastPlayedSong st).
Proof.
  intros st'.
  assert (Hfail : JS.truthy_opt uid = false \/ r_songs rem = Failure ->
                  lastPlayedSong st' = lastPlayedSong st).
  { intros H. subst st'. now rewrite (fetchSongs_failed uid rem st H). }
  assert (Hok : forall songsData,
            JS.truthy_opt uid = true -> r_songs rem = Data songsData ->
            songs st' = convertedOf rem songsData
            /\ lastPlayedSong st'
               = match r_user rem with
                 | Data (Some (Some n)) =>
                     if JS.truthy_num n then
                       match List.find (fun song => file_id song =? n)
                               (convertedOf rem songsData) with
                       | Some lastSong => Some lastSong
                       | None => lastPlayedSong st
                       end
                     else lastPlayedSong st
                 | _ => lastPlayedSong st
                 end).
  { intros songsData Hu Hs.
    split; [apply (fetchSongs_views uid rem st songsData Hu Hs)|].
    subst st'. unfold fetchSongs, convertedOf, likedOfRemote. rewrite Hu, Hs. simpl.
    destruct (r_liked rem) as [|[likedData|]], (r_user rem) as [|[[n|]|]]; simpl;
      try reflexivity;
      destruct (JS.truthy_num n); try reflexivity;
      match goal with |- context [List.find ?f ?l] => destruct (List.find f l) end;
      reflexivity. }
  split; [|split].
  - destruct (JS.truthy_opt uid) eqn:Hu; [|left; apply Hfail; now left].
    destruct (r_songs rem) as [|songsData] eqn:Hs; [left; apply Hfail; now right|].
    destruct (Hok songsData eq_refl eq_refl) as [Hsongs Hlast].
    rewrite Hlast, Hsongs.
    destruct (r_user rem) as [|[[n|]|]]; try (now left).
    destruct (JS.truthy_num n) eqn:Hn; [|now left].
    destruct (List.find (fun song => file_id song =? n) (convertedOf rem songsData))
      as [s|] eqn:Hf; [|now left].
    right. exists s. destruct (List.find_some _ _ Hf) as [Hin Heq].
    apply Z.eqb_eq in Heq. subst n.
    repeat split; try assumption; try reflexivity.
    unfold JS.truthy_num in Hn. apply negb_true_iff, Z.eqb_neq in Hn. exact Hn.
  - intros songsData n d Hu Hs Hr Hn Hin Hd.
    destruct (Hok songsData Hu Hs) as [_ Hlast]. rewrite Hr in Hlast.
    assert (Ht : JS.truthy_num n = true).
    { unfold JS.truthy_num. now apply negb_true_iff, Z.eqb_neq. }
    rewrite Ht in Hlast.
    destruct (List.find (fun song => file_id song =? n) (convertedOf rem songsData))
      as [s|] eqn:Hf.
    + exists s. split; [exact Hlast|]. apply List.find_some in Hf as [_ Hf].
      now apply Z.eqb_eq in Hf.
    + exfalso. subst n.
      pose proof (List.find_none _ _ Hf
                    (convertDatabaseSong d (has (likedOfRemote rem) (db_file_id d)))) as Hx.
      simpl in Hx. rewrite Z.eqb_refl in Hx.
      assert (true = false); [|discriminate]. apply Hx.
      unfold convertedOf. apply List.in_map_iff. now exists d.
  - intros Hr. destruct (JS.truthy_opt uid) eqn:Hu; [|apply Hfail; now left].
    destruct (r_songs rem) as [|songsData] eqn:Hs; [apply Hfail; now right|].
    destruct (Hok songsData eq_refl eq_refl) as [_ Hlast]. now rewrite Hlast, Hr.
Qed.

Lemma last_played_is_catalog_song_witness :
  exists s, lastPlayedSong (fetchSongs (Some "u1") Failing.allUp initialState) = Some s
            /\ file_id s = 3.
Proof.
  apply (proj1 (proj2 (last_played_is_catalog_song (Some "u1") Failing.allUp initialState))
           (Some Ex.catalog3) 3 Ex.songC eq_refl eq_refl eq_refl).
  - discriminate.
  - right. right. now left.
  - reflexivity.
Defined.
